(** * chatgpt-autopsy-go: the ingestion core, embedded shallowly

    The development follows the Go sources under [internal/services]:
    [extraction.go] (archive extraction), [parser.go] (export parsing),
    [thread.go] (date threads) and [upload.go] (upload de-duplication),
    with the request handler of [internal/api/handlers.go] that chains them.

    Conventions.
    - A Go [string] is a [string]; a [map[string]T] is a [gmap string T].
      The order in which a [range] statement visits the keys of a map is not
      fixed by the language, so every function that ranges over a map takes
      that order as an explicit argument (a list of keys).
    - [int64]/[uint64] values are [Z] with the wrap-around written out where
      the code converts or adds them.
    - An instant ([time.Time]) is the number of nanoseconds since the Unix
      epoch, as a [Z].
    - The relational store is a record of tables (lists of the rows that
      queries see, in primary key order); reads and single-row writes
      succeed, batch writes take an explicit fault argument where the code
      checks their error.
    - The file system is a [gmap] from path to file content; operations the
      code checks for errors take an explicit outcome argument. *)

From Stdlib Require Import ZArith Ascii String List Lia Permutation.
From stdpp Require Import base tactics option list gmap strings sorting.

Open Scope string_scope.

(** ** Results in the style of Go's [(value, error)] pairs *)

Inductive result (A : Type) : Type :=
| Ok (a : A)
| Err (msg : string).
Arguments Ok {A} a.
Arguments Err {A} msg.

(** ** The [strings] package (the functions the sources call) *)

Module strings.

Fixpoint HasPrefix (s prefix : string) {struct prefix} : bool :=
  match prefix with
  | EmptyString => true
  | String p prefix' =>
      match s with
      | String c s' => Ascii.eqb p c && HasPrefix s' prefix'
      | EmptyString => false
      end
  end.

Fixpoint drop (n : nat) (s : string) : string :=
  match n, s with
  | O, _ => s
  | S n', String _ s' => drop n' s'
  | S _, EmptyString => EmptyString
  end.

Definition TrimPrefix (s prefix : string) : string :=
  if HasPrefix s prefix then drop (String.length prefix) s else s.

Fixpoint Contains (s substr : string) : bool :=
  HasPrefix s substr ||
  match s with
  | EmptyString => false
  | String _ s' => Contains s' substr
  end.

(** [strings.Join(elems, sep)] *)
Fixpoint Join (elems : list string) (sep : string) : string :=
  match elems with
  | [] => ""
  | [e] => e
  | e :: rest => e ++ sep ++ Join rest sep
  end.

(** Pieces of [s] between occurrences of the one-byte separator [sep];
    always at least one piece. *)
Fixpoint splitOn (sep : ascii) (s : string) : list string :=
  match s with
  | EmptyString => [""]
  | String c s' =>
      if Ascii.eqb c sep then "" :: splitOn sep s'
      else match splitOn sep s' with
           | piece :: rest => String c piece :: rest
           | [] => [String c ""]
           end
  end.

(** ASCII letters only: the sources apply [ToLower] to a file extension
    that is then compared with ASCII literals. *)
Definition lowerAscii (c : ascii) : ascii :=
  let n := nat_of_ascii c in
  if (65 <=? n)%nat && (n <=? 90)%nat then ascii_of_nat (n + 32) else c.

Fixpoint ToLower (s : string) : string :=
  match s with
  | EmptyString => EmptyString
  | String c s' => String (lowerAscii c) (ToLower s')
  end.

End strings.

(** ** [fmt]: decimal rendering of integers ([%d], zero padded fields) *)

Module fmt.

Definition digit (d : Z) : ascii := ascii_of_nat (48 + Z.to_nat d).

Fixpoint digits (fuel : nat) (n : Z) (acc : string) : string :=
  match fuel with
  | O => acc
  | S fuel' =>
      let acc' := String (digit (n mod 10)) acc in
      if n <? 10 then acc' else digits fuel' (n / 10) acc'
  end%Z.

(** [%d] of a non-negative integer. *)
Definition natural (n : Z) : string := digits (S (Z.to_nat (Z.log2 n))) n "".

(** [%d] *)
Definition decimal (n : Z) : string :=
  if (n <? 0)%Z then "-" ++ natural (- n) else natural n.

Fixpoint zeros (k : nat) : string :=
  match k with O => "" | S k' => String "0" (zeros k') end.

(** A non-negative integer, zero padded on the left to [width] digits. *)
Definition padded (width : nat) (n : Z) : string :=
  let s := natural n in
  zeros (width - String.length s) ++ s.

End fmt.

(** ** [path/filepath] on a Unix system (separator [/]) *)

Module filepath.

Definition Separator : string := "/".

Definition IsAbs (path : string) : bool := strings.HasPrefix path "/".

(** One lexical step of [Clean] over the elements seen so far ([out] is
    kept in reverse): a [..] removes the preceding ordinary element, is
    dropped at the root of a rooted path and is kept at the start of a
    relative one. *)
Definition cleanStep (rooted : bool) (out : list string) (elem : string)
  : list string :=
  if String.eqb elem "" || String.eqb elem "." then out
  else if String.eqb elem ".." then
    match out with
    | top :: rest => if String.eqb top ".." then elem :: out else rest
    | [] => if rooted then [] else [elem]
    end
  else elem :: out.

(** The elements of the cleaned path, outermost first. *)
Definition elements (path : string) : list string :=
  rev (fold_left (cleanStep (IsAbs path)) (strings.splitOn "/" path) []).

(** [filepath.Clean]: the shortest path equivalent to [path] by purely
    lexical processing. *)
Definition Clean (path : string) : string :=
  let body := strings.Join (elements path) "/" in
  if IsAbs path then "/" ++ body
  else if String.eqb body "" then "." else body.

(** [filepath.Join]: the elements from the first non-empty one on are
    joined with the separator and the result is cleaned. *)
Fixpoint Join (elem : list string) : string :=
  match elem with
  | [] => ""
  | e :: rest =>
      if String.eqb e "" then Join rest
      else Clean (strings.Join elem Separator)
  end.

(** [filepath.Abs]; [wd] is the working directory, [None] when it cannot
    be determined. *)
Definition Abs (wd : option string) (path : string) : result string :=
  if IsAbs path then Ok (Clean path)
  else match wd with
       | Some dir => Ok (Join [dir; path])
       | None => Err "getwd"
       end.

Fixpoint lastElem (pieces : list string) : string :=
  match pieces with
  | [] => ""
  | [p] => p
  | _ :: rest => lastElem rest
  end.

(** [filepath.Ext]: the suffix of the final element from its last dot. *)
Definition Ext (path : string) : string :=
  match strings.splitOn "." (lastElem (strings.splitOn "/" path)) with
  | [] | [_] => ""
  | pieces => "." ++ lastElem pieces
  end.

End filepath.

(** ** [time]: instants and the two layouts the sources format with *)

Module time.

Local Open Scope Z_scope.

(** An instant, in nanoseconds since 1970-01-01T00:00:00Z. *)
Definition Time : Type := Z.

(** [time.Unix(sec, 0)] *)
Definition Unix (sec : Z) : Time := sec * 1000000000.

Definition seconds (t : Time) : Z := t / 1000000000.

Definition Before (t u : Time) : bool := t <? u.
Definition After (t u : Time) : bool := u <? t.

(** Proleptic Gregorian date of the day [days] days after 1970-01-01. *)
Definition civil (days : Z) : Z * Z * Z :=
  let z := days + 719468 in
  let era := z / 146097 in
  let doe := z - era * 146097 in
  let yoe := (doe - doe / 1460 + doe / 36524 - doe / 146096) / 365 in
  let doy := doe - (365 * yoe + yoe / 4 - yoe / 100) in
  let mp := (5 * doy + 2) / 153 in
  let d := doy - (153 * mp + 2) / 5 + 1 in
  let m := if mp <? 10 then mp + 3 else mp - 9 in
  let y := yoe + era * 400 + (if m <=? 2 then 1 else 0) in
  (y, m, d).

Definition year4 (y : Z) : string :=
  if y <? 0 then "-" ++ fmt.padded 4 (- y) else fmt.padded 4 y.

(** [t.UTC().Format("2006-01-02")] *)
Definition FormatDate (t : Time) : string :=
  let '(y, m, d) := civil (seconds t / 86400) in
  year4 y ++ "-" ++ fmt.padded 2 m ++ "-" ++ fmt.padded 2 d.

(** [t.UTC().Format("15:04:05")] *)
Definition FormatClock (t : Time) : string :=
  let s := seconds t mod 86400 in
  fmt.padded 2 (s / 3600) ++ ":" ++ fmt.padded 2 (s mod 3600 / 60)
    ++ ":" ++ fmt.padded 2 (s mod 60).

End time.

(** ** [sort.Slice]

    Go's [sort.Slice] is not stable.  The model is the insertion sort the
    library runs on short slices; the theorems below use only that the
    result is an ordered rearrangement of the input, which holds of every
    run of [sort.Slice] with a strict weak order. *)

Section SortSlice.
Context {A : Type} (less : A -> A -> bool).

Fixpoint insertSorted (x : A) (l : list A) : list A :=
  match l with
  | [] => [x]
  | y :: l' => if less x y then x :: l else y :: insertSorted x l'
  end.

Definition sortSlice (l : list A) : list A :=
  fold_left (fun acc x => insertSorted x acc) l [].
End SortSlice.

(** ** The storage models ([internal/models]) *)

Module Upload.
Record t := mk {
  ID : Z;
  UUID : string;
  OriginalFilename : string;
  StoredPath : string;
  FileSize : Z;
  FileHash : string;
  MimeType : string;
  UploadedAt : time.Time;
  Status : string;
}.
End Upload.

Module ImportRecord.
(** [models.Import] *)
Record t := mk {
  ID : Z;
  UploadID : Z;
  StartedAt : time.Time;
  CompletedAt : option time.Time;
  Status : string;
  ProgressPercent : Z;
  ErrorMessage : option string;
  Stats : string;
}.

Definition withStatus (r : t) (status : string) (progress : Z) : t :=
  mk (ID r) (UploadID r) (StartedAt r) (CompletedAt r) status progress
     (ErrorMessage r) (Stats r).

Definition failedWith (r : t) (msg : string) : t :=
  mk (ID r) (UploadID r) (StartedAt r) (CompletedAt r) "failed"
     (ProgressPercent r) (Some msg) (Stats r).

Definition withProgress (r : t) (progress : Z) : t :=
  mk (ID r) (UploadID r) (StartedAt r) (CompletedAt r) (Status r) progress
     (ErrorMessage r) (Stats r).
End ImportRecord.

Module Extraction.
Record t := mk {
  ID : Z;
  UploadID : Z;
  FilePath : string;
  FileType : string;
  FileSize : Z;
  ExtractedAt : time.Time;
  Status : string;
}.
End Extraction.

Module Conversation.
Record t := mk {
  ID : Z;
  UploadID : Z;
  ConversationID : string;
  Title : option string;
  CreatedAt : time.Time;
  UpdatedAt : time.Time;
  SourceFilePath : string;
  MessageCount : Z;
}.

Definition withID (c : t) (id : Z) : t :=
  mk id (UploadID c) (ConversationID c) (Title c) (CreatedAt c)
     (UpdatedAt c) (SourceFilePath c) (MessageCount c).

Definition withMessageCount (c : t) (n : Z) : t :=
  mk (ID c) (UploadID c) (ConversationID c) (Title c) (CreatedAt c)
     (UpdatedAt c) (SourceFilePath c) n.
End Conversation.

Module Message.
Record t := mk {
  ID : Z;
  ConversationID : Z;
  MessageID : option string;
  Role : string;
  Content : string;
  Timestamp : time.Time;
  MessageIndex : Z;
  Metadata : string;
}.

Definition withID (m : t) (id : Z) : t :=
  mk id (ConversationID m) (MessageID m) (Role m) (Content m)
     (Timestamp m) (MessageIndex m) (Metadata m).
End Message.

Module Thread.
Record t := mk {
  ID : Z;
  ConversationID : Z;
  Date : string;
  MessageCount : Z;
  StartMessageID : option Z;
  EndMessageID : option Z;
  StartTimestamp : time.Time;
  EndTimestamp : time.Time;
}.

Definition withID (x : t) (id : Z) : t :=
  mk id (ConversationID x) (Date x) (MessageCount x) (StartMessageID x)
     (EndMessageID x) (StartTimestamp x) (EndTimestamp x).
End Thread.

(** ** The store ([database.DB]) *)

Module database.

Record DB := mkDB {
  uploads : list Upload.t;
  imports : list ImportRecord.t;
  extractions : list Extraction.t;
  conversations : list Conversation.t;
  messages : list Message.t;
  threads : list Thread.t;
}.

Definition empty : DB := mkDB [] [] [] [] [] [].

(** The next primary key of a table whose keys are [ids]. *)
Definition nextID (ids : list Z) : Z := fold_right Z.max 0%Z ids + 1.

(** [DB.First(&row, cond)]: the matching row of lowest primary key
    (tables are kept in key order). *)
Definition First {A} (cond : A -> bool) (table : list A) : option A :=
  List.find cond table.

(** [DB.Save(&importRecord)] *)
Definition SaveImport (r : ImportRecord.t) (db : DB) : DB :=
  mkDB (uploads db)
       (map (fun x => if (ImportRecord.ID x =? ImportRecord.ID r)%Z
                      then r else x) (imports db))
       (extractions db) (conversations db) (messages db) (threads db).

(** [DB.Save(&conversation)] *)
Definition SaveConversation (c : Conversation.t) (db : DB) : DB :=
  mkDB (uploads db) (imports db) (extractions db)
       (map (fun x => if (Conversation.ID x =? Conversation.ID c)%Z
                      then c else x) (conversations db))
       (messages db) (threads db).

(** Rows receive consecutive primary keys from [next] on. *)
Fixpoint number {A} (withID : A -> Z -> A) (next : Z) (rows : list A)
  : list A :=
  match rows with
  | [] => []
  | r :: rest => withID r next :: number withID (next + 1)%Z rest
  end.

Definition CreateConversation (c : Conversation.t) (db : DB)
  : Conversation.t * DB :=
  let c' := Conversation.withID c
              (nextID (map Conversation.ID (conversations db))) in
  (c', mkDB (uploads db) (imports db) (extractions db)
            (conversations db ++ [c']) (messages db) (threads db)).

Definition CreateMessages (rows : list Message.t) (db : DB) : DB :=
  mkDB (uploads db) (imports db) (extractions db) (conversations db)
       (messages db ++
          number Message.withID (nextID (map Message.ID (messages db))) rows)
       (threads db).

Definition CreateThreads (rows : list Thread.t) (db : DB) : DB :=
  mkDB (uploads db) (imports db) (extractions db) (conversations db)
       (messages db)
       (threads db ++
          number Thread.withID (nextID (map Thread.ID (threads db))) rows).

Definition CreateExtractions (rows : list Extraction.t) (db : DB) : DB :=
  mkDB (uploads db) (imports db)
       (extractions db ++
          number (fun (e : Extraction.t) id =>
                    Extraction.mk id (Extraction.UploadID e)
                      (Extraction.FilePath e) (Extraction.FileType e)
                      (Extraction.FileSize e) (Extraction.ExtractedAt e)
                      (Extraction.Status e))
                 (nextID (map Extraction.ID (extractions db))) rows)
       (conversations db) (messages db) (threads db).

(** A loop of [DB.CreateInBatches] calls, one per slice, stopped by the
    first failing write; [fails k] tells whether the [k]-th write fails.
    Slices written before the failure stay committed. *)
Fixpoint CreateInBatches {A} (create : list A -> DB -> DB)
  (fails : nat -> bool) (k : nat) (slices : list (list A)) (d : DB)
  : DB * bool :=
  match slices with
  | [] => (d, true)
  | slice :: rest =>
      if fails k then (d, false)
      else CreateInBatches create fails (S k) rest (create slice d)
  end.

End database.

(** ** Configuration ([internal/config]) *)

Module config.
Record UploadConfig := mkUpload {
  MaxFileSize : Z;
  MaxExtractionSize : Z;
  MaxExtractedFiles : Z;
}.
Record DirectoriesConfig := mkDirectories {
  UploadsDir : string;
  ExtractedDir : string;
  AnalysisDir : string;
  MessagesDir : string;
}.
Record Config := mk {
  Upload : UploadConfig;
  Directories : DirectoriesConfig;
}.
End config.

(** ** Fixed-width integers *)

Definition uint64 (x : Z) : Z := (x mod 2 ^ 64)%Z.
Definition int64 (x : Z) : Z := ((x + 2 ^ 63) mod 2 ^ 64 - 2 ^ 63)%Z.

(** ** The world the services act on *)

Abbreviation Disk := (gmap string string).

Record World := mkWorld {
  db : database.DB;
  disk : Disk;
  warnings : list string;   (* what [s.log.Warn] has recorded, oldest first *)
}.

(** ** [archive/zip] *)

Module zip.
(** An entry of the archive: its name, the uncompressed size its header
    declares (a [uint64]) and its uncompressed bytes. *)
Record File := mkFile {
  Name : string;
  UncompressedSize64 : Z;
  Content : string;
}.
End zip.

(** Where, if anywhere, the operating system fails while one entry is
    written ([extractFile] checks each of these calls). *)
Inductive ioFault :=
| ioNone
| ioMkdirAll
| ioOpen
| ioCreate
| ioCopy (written : nat).

(** What the extraction service asks of its environment. *)
Record ExtractEnv := mkExtractEnv {
  openReader : string -> option (list zip.File);  (* [zip.OpenReader] *)
  mkdirAll : string -> bool;                      (* [os.MkdirAll] succeeds *)
  entryFault : string -> string -> ioFault;       (* entry name, destination *)
  getwd : option string;                          (* working directory *)
  recordsFail : bool;      (* the batch write of the extraction records fails *)
  now : Z -> time.Time;         (* [time.Now()] at the k-th record created *)
  (** [int(float64(a)/float64(b)*c)], left to the environment: the
      percentage is computed in floating point. *)
  floatScale : Z -> Z -> Z -> Z;
}.

(** ** [internal/services/extraction.go] *)

(** The normalization [sanitizePath] starts with: the path is cleaned and
    leading separators are removed. *)
Definition normalizedName (filePath : string) : string :=
  (* Clean the path *)
  let cleaned := filepath.Clean filePath in
  (* Remove any leading separators *)
  let cleaned := strings.TrimPrefix cleaned filepath.Separator in
  let cleaned := strings.TrimPrefix cleaned "/" in
  strings.TrimPrefix cleaned "\".

(** [sanitizePath] *)
Definition sanitizePath (wd : option string) (filePath baseDir : string)
  : result string :=
  let cleaned := normalizedName filePath in
  (* Reject paths with .. *)
  if strings.Contains cleaned ".." then
    Err ("path contains '..': " ++ filePath)
  (* Reject absolute paths *)
  else if filepath.IsAbs cleaned then
    Err ("absolute path not allowed: " ++ filePath)
  else
    (* Join with base directory *)
    let fullPath := filepath.Join [baseDir; cleaned] in
    (* Ensure the resolved path is within base directory *)
    match filepath.Abs wd baseDir with
    | Err e => Err ("failed to get absolute base path: " ++ e)
    | Ok baseAbs =>
        match filepath.Abs wd fullPath with
        | Err e => Err ("failed to get absolute file path: " ++ e)
        | Ok fullAbs =>
            if negb (strings.HasPrefix fullAbs baseAbs) then
              Err ("path outside base directory: " ++ filePath)
            else Ok fullPath
        end
    end.

(** Where the path [name] leads when it is opened from the directory
    [dir]: an absolute path leads to itself, a relative one is followed from
    [dir]. *)
Definition locationOf (dir name : string) : list string :=
  if filepath.IsAbs name then filepath.elements name
  else filepath.elements (dir ++ "/" ++ name).

(** No element of [l] is a [..]. *)
Definition ordinary (l : list string) : Prop :=
  Forall (fun e => e <> "..") l.

Fixpoint startsWith (l prefix : list string) {struct prefix} : bool :=
  match prefix with
  | [] => true
  | p :: prefix' =>
      match l with
      | x :: l' => String.eqb p x && startsWith l' prefix'
      | [] => false
      end
  end.

(** The path resolves to a place that is neither [dir] nor below it. *)
Definition resolvesOutside (dir name : string) : bool :=
  negb (startsWith (locationOf dir name) (filepath.elements dir)).


Fixpoint takeBytes (n : nat) (s : string) : string :=
  match n, s with
  | S n', String c s' => String c (takeBytes n' s')
  | _, _ => ""
  end.

(** [extractFile]: the destination exists once [os.Create] has succeeded,
    and holds what [io.Copy] wrote before it stopped. *)
Definition extractFile (fault : ioFault) (file : zip.File) (destPath : string)
  (d : Disk) : Disk * result unit :=
  match fault with
  | ioMkdirAll => (d, Err "failed to create directory")
  | ioOpen => (d, Err "failed to open file in ZIP")
  | ioCreate => (d, Err "failed to create destination file")
  | ioCopy written =>
      (<[destPath := takeBytes written (zip.Content file)]> d,
       Err "failed to copy file content")
  | ioNone => (<[destPath := zip.Content file]> d, Ok tt)
  end.

(** [determineFileType] *)
Definition determineFileType (filePath : string) : string :=
  let ext := strings.ToLower (filepath.Ext filePath) in
  if String.eqb ext ".json" &&
     (strings.Contains filePath "conversation" ||
      strings.Contains filePath "chat" ||
      strings.Contains filePath "message")
  then "conversation"
  else if existsb (String.eqb ext)
            [".jpg"; ".jpeg"; ".png"; ".gif"; ".webp"; ".mp3"; ".mp4";
             ".wav"; ".pdf"]
  then "media"
  else "other".

(** The local variables of [ExtractUpload] that its loop updates, with the
    world. *)
Record ExtractState := mkExtractState {
  totalSize : Z;                          (* int64 *)
  fileCount : Z;                          (* int *)
  extractedFiles : list Extraction.t;
  importRecord : ImportRecord.t;
  world : World;
}.

Definition failImport (msg : string) (st : ExtractState) : ExtractState :=
  let r := ImportRecord.failedWith (importRecord st) msg in
  mkExtractState (totalSize st) (fileCount st) (extractedFiles st) r
    (mkWorld (database.SaveImport r (db (world st)))
             (disk (world st)) (warnings (world st))).

Definition warn (msg : string) (w : World) : World :=
  mkWorld (db w) (disk w) (warnings w ++ [msg]).

(** The state [ExtractUpload] continues with after it has skipped an entry
    whose path [sanitizePath] refused. *)
Definition skipInvalid (file : zip.File) (st : ExtractState) : ExtractState :=
  mkExtractState (totalSize st) (fileCount st) (extractedFiles st)
    (importRecord st)
    (warn ("Skipping file with invalid path: " ++ zip.Name file) (world st)).

(** The body of the loop of [ExtractUpload] over [zipReader.File], from the
    entry [file] on; [entries] is [len(zipReader.File)]. *)
Fixpoint extractEntries (cfg : config.Config) (env : ExtractEnv)
  (uploadID : Z) (extractDir : string) (entries : Z)
  (files : list zip.File) (st : ExtractState) : ExtractState * result unit :=
  match files with
  | [] => (st, Ok tt)
  | file :: rest =>
      let maxFiles := config.MaxExtractedFiles (config.Upload cfg) in
      let maxSize := config.MaxExtractionSize (config.Upload cfg) in
      (* Validate file count limit *)
      if (maxFiles <=? fileCount st)%Z then
        (failImport ("exceeded max extracted files: " ++ fmt.decimal maxFiles)
           st,
         Err "exceeded max extracted files limit")
      else
        (* Sanitize file path *)
        match sanitizePath (getwd env) (zip.Name file) extractDir with
        | Err _ =>
            extractEntries cfg env uploadID extractDir entries rest
              (skipInvalid file st)
        | Ok sanitizedPath =>
            (* Check total extraction size *)
            if (uint64 maxSize
                  <? uint64 (uint64 (totalSize st)
                             + zip.UncompressedSize64 file))%Z
            then
              (failImport
                 ("exceeded max extraction size: " ++ fmt.decimal maxSize) st,
               Err "exceeded max extraction size limit")
            else
              (* Extract file *)
              match extractFile (entryFault env (zip.Name file) sanitizedPath)
                      file sanitizedPath (disk (world st)) with
              | (d, Err _) =>
                  extractEntries cfg env uploadID extractDir entries rest
                    (mkExtractState (totalSize st) (fileCount st)
                       (extractedFiles st) (importRecord st)
                       (warn ("Failed to extract file: " ++ zip.Name file)
                          (mkWorld (db (world st)) d (warnings (world st)))))
              | (d, Ok _) =>
                  (* Create extraction record *)
                  let extraction :=
                    Extraction.mk 0 uploadID sanitizedPath
                      (determineFileType (zip.Name file))
                      (int64 (zip.UncompressedSize64 file))
                      (now env (fileCount st)) "extracted" in
                  let fileCount' := (fileCount st + 1)%Z in
                  (* Update progress *)
                  let r := ImportRecord.withProgress (importRecord st)
                             (10 + floatScale env fileCount' entries 30)%Z in
                  extractEntries cfg env uploadID extractDir entries rest
                    (mkExtractState
                       (int64 (totalSize st
                               + int64 (zip.UncompressedSize64 file)))
                       fileCount'
                       (extractedFiles st ++ [extraction])
                       r
                       (mkWorld (database.SaveImport r (db (world st))) d
                          (warnings (world st))))
              end
        end
  end.

(** [ExtractUpload] *)
Definition ExtractUpload (cfg : config.Config) (env : ExtractEnv)
  (uploadID : Z) (w : World) : World * result unit :=
  match database.First (fun u => (Upload.ID u =? uploadID)%Z)
          (database.uploads (db w)) with
  | None => (w, Err "upload not found")
  | Some upload =>
  (* Update import status to extracting *)
  match database.First (fun r => (ImportRecord.UploadID r =? uploadID)%Z)
          (database.imports (db w)) with
  | None => (w, Err "import record not found")
  | Some found =>
  let importRec := ImportRecord.withStatus found "extracting" 10 in
  let w := mkWorld (database.SaveImport importRec (db w)) (disk w)
             (warnings w) in
  (* Open ZIP file *)
  match openReader env (Upload.StoredPath upload) with
  | None =>
      let r := ImportRecord.failedWith importRec "failed to open ZIP file" in
      (mkWorld (database.SaveImport r (db w)) (disk w) (warnings w),
       Err "failed to open ZIP file")
  | Some files =>
  (* Create extraction directory using upload UUID *)
  let extractDir :=
    filepath.Join [config.ExtractedDir (config.Directories cfg);
                   Upload.UUID upload] in
  if negb (mkdirAll env extractDir) then
    (w, Err "failed to create extraction directory")
  else
  (* Extract files with path traversal protection *)
  match extractEntries cfg env uploadID extractDir
          (Z.of_nat (length files)) files
          (mkExtractState 0 0 [] importRec w) with
  | (st, Err e) => (world st, Err e)
  | (st, Ok _) =>
      (* Save extraction records in batch *)
      let w := world st in
      if recordsFail env then
        (w, Err "failed to create extraction records")
      else
      let w := mkWorld (database.CreateExtractions (extractedFiles st) (db w))
                 (disk w) (warnings w) in
      (* Update import status to parsing *)
      let r := ImportRecord.withStatus (importRecord st) "parsing" 40 in
      (mkWorld (database.SaveImport r (db w)) (disk w) (warnings w), Ok tt)
  end
  end
  end
  end.

(** *** Vocabulary for the extraction loop *)


(** The import record the store holds for an upload. *)
Definition importOf (uploadID : Z) (d : database.DB)
  : option ImportRecord.t :=
  database.First (fun r => (ImportRecord.UploadID r =? uploadID)%Z)
    (database.imports d).



(** ** [internal/services/parser.go]: the export format *)

Definition nl : string := String "010"%char EmptyString.

Module AuthorData.
Record t := mk { Role : string; Name : option string }.
End AuthorData.

Module ContentData.
Record t := mk { ContentType : string; Parts : list string }.
End ContentData.

Module MessageData.
(** [Metadata] is a [map[string]interface{}]; the code reads its
    ["create_time"] entry when that is a [float64] and serialises the
    whole map.  [create_time] is that entry converted by [int64(...)],
    [metadataJSON] the outcome of [json.Marshal]. *)
Record t := mk {
  ID : string;
  Author : AuthorData.t;
  Content : ContentData.t;
  Status : string;
  create_time : option Z;
  metadataJSON : option string;
}.
End MessageData.

Module MessageNode.
Record t := mk {
  ID : string;
  Message : option MessageData.t;
  Parent : option string;
  Children : list string;
}.
End MessageNode.

Module ChatGPTConversation.
(** [CreateTime]/[UpdateTime] are the [float64] fields converted by
    [int64(...)], as the code uses them. *)
Record t := mk {
  Title : string;
  CreateTime : Z;
  UpdateTime : Z;
  Mapping : gmap string MessageNode.t;
}.
End ChatGPTConversation.

(** A [range] over a map with an early exit: the first key, in the order
    the runtime visits them, whose node satisfies [p]. *)
Definition rangeFirst (order : list string)
  (mapping : gmap string MessageNode.t) (p : MessageNode.t -> bool)
  : option string :=
  List.find (fun id => match mapping !! id with
                       | Some node => p node
                       | None => false
                       end) order.

Definition isNil {A} (o : option A) : bool :=
  match o with None => true | Some _ => false end.

(** The orders in which the four [range] statements met while one
    conversation is processed visit their maps. *)
Record RangeOrders := mkRangeOrders {
  rootOrder : list string;       (* [findRootMessageID], first loop *)
  fallbackOrder : list string;   (* [findRootMessageID], second loop *)
  processOrder : list string;    (* [processMessages] *)
  dateOrder : list string;       (* [extractUserMessagesByDate] *)
}.

(** [order] is a way for [range] to visit the keys of [m]: every key once. *)
Definition rangesOver {V} (order : list string) (m : gmap string V) : Prop :=
  NoDup order /\ list_to_set order = dom m.

(** [findRootMessageID] *)
Definition findRootMessageID (order fallback : list string)
  (mapping : gmap string MessageNode.t) : string :=
  match rangeFirst order mapping (fun node => isNil (MessageNode.Parent node))
  with
  | Some id => id
  | None =>
      (* Fallback: return first key *)
      match rangeFirst fallback mapping (fun _ => true) with
      | Some id => id
      | None => ""
      end
  end.

(** A loop body run over a slice, any iteration of which may fail to
    return. *)
Fixpoint forEach {A S} (body : A -> S -> option S) (l : list A) (s : S)
  : option S :=
  match l with
  | [] => Some s
  | x :: rest =>
      match body x s with
      | Some s' => forEach body rest s'
      | None => None
      end
  end.

(** The record [traverseMessages] appends for a finished payload. *)
Definition messageOf (clock : Z -> time.Time) (conversationID : Z)
  (msg : MessageData.t) (index : Z) : Message.t :=
  (* Extract content parts *)
  let content :=
    strings.Join (ContentData.Parts (MessageData.Content msg)) (nl ++ nl) in
  (* Parse timestamp (usually in metadata or use current time as fallback) *)
  let timestamp :=
    match MessageData.create_time msg with
    | Some createTime => time.Unix createTime
    | None => clock index
    end in
  Message.mk 0 conversationID (Some (MessageData.ID msg))
    (AuthorData.Role (MessageData.Author msg)) content timestamp index
    (* Serialize metadata *)
    (match MessageData.metadataJSON msg with
     | Some metadataJSON => metadataJSON
     | None => ""
     end).

(** [traverseMessages].  The Go function recurses without a bound; [fuel]
    is the depth of call stack available, and [None] means the recursion
    needed more.  The pair is [( *messages, *index )]; [clock k] is what
    [time.Now().UTC()] returns while the record of index [k] is built. *)
Fixpoint traverseMessages (fuel : nat) (clock : Z -> time.Time)
  (mapping : gmap string MessageNode.t) (conversationID : Z)
  (nodeID : string) (acc : list Message.t * Z)
  : option (list Message.t * Z) :=
  match fuel with
  | O => None
  | S fuel' =>
      match mapping !! nodeID with
      | None => Some acc
      | Some node =>
          match MessageNode.Message node with
          | None => Some acc
          | Some msg =>
              if negb (String.eqb (MessageData.Status msg)
                         "finished_successfully")
              then
                (* Skip incomplete messages *)
                forEach (traverseMessages fuel' clock mapping conversationID)
                  (MessageNode.Children node) acc
              else
                let '(messages, index) := acc in
                (* Create message record *)
                let message := messageOf clock conversationID msg index in
                (* Process children *)
                forEach (traverseMessages fuel' clock mapping conversationID)
                  (MessageNode.Children node)
                  ((messages ++ [message])%list, (index + 1)%Z)
          end
      end
  end.

(** [processMessages] *)
Definition processMessages (fuel : nat) (clock : Z -> time.Time)
  (order : list string) (mapping : gmap string MessageNode.t)
  (conversationID : Z) : option (list Message.t) :=
  (* Find root message (no parent) *)
  let rootID :=
    match rangeFirst order mapping
            (fun node => isNil (MessageNode.Parent node)) with
    | Some id => id
    | None => ""
    end in
  if String.eqb rootID "" then Some []
  else
    (* Traverse message tree *)
    match traverseMessages fuel clock mapping conversationID rootID ([], 0%Z)
    with
    | None => None
    | Some (messages, _) =>
        (* Sort by message_index *)
        Some (sortSlice
                (fun a b => (Message.MessageIndex a <? Message.MessageIndex b)%Z)
                messages)
    end.

(** Consecutive slices [l[i:end]] of at most [size] elements ([fuel] bounds
    the number of slices; the length of [l] is enough). *)
Fixpoint batches {A} (fuel size : nat) (l : list A) : list (list A) :=
  match fuel, l with
  | _, [] => []
  | O, _ => [l]
  | S fuel', _ => take size l :: batches fuel' size (drop size l)
  end.

(** The block [extractUserMessagesByDate] builds for one date. *)
Definition dateBlock (date : string) (msgs : list Message.t) : string :=
  "# Messages for " ++ date ++ nl ++ nl ++
  String.concat ""
    (map (fun msg =>
            "## " ++ time.FormatClock (Message.Timestamp msg) ++ nl ++ nl
            ++ Message.Content msg ++ nl ++ nl ++ "---" ++ nl ++ nl)
         msgs).

(** The grouping loop of [createThreadsForConversation]:
    [messagesByDate[date] = append(messagesByDate[date], msg)]. *)
Definition groupByDate (messages : list Message.t)
  : gmap string (list Message.t) :=
  fold_left
    (fun byDate msg =>
       let date := time.FormatDate (Message.Timestamp msg) in
       <[date := (default [] (byDate !! date) ++ [msg])%list]> byDate)
    messages ∅.

Definition isUser (msg : Message.t) : bool :=
  String.eqb (Message.Role msg) "user".

(** The grouping loop of [extractUserMessagesByDate]: only messages whose
    role is ["user"] enter a bucket. *)
Definition groupUserMessages (messages : list Message.t)
  : gmap string (list Message.t) :=
  fold_left
    (fun messagesByDate msg =>
       if isUser msg then
         let date := time.FormatDate (Message.Timestamp msg) in
         <[date := (default [] (messagesByDate !! date) ++ [msg])%list]>
           messagesByDate
       else messagesByDate)
    messages ∅.

(** The writing loop of [extractUserMessagesByDate]; [writeFails] tells for
    which paths [os.WriteFile] reports an error. *)
Fixpoint writeDateFiles (messagesDir : string) (writeFails : string -> bool)
  (byDate : gmap string (list Message.t)) (order : list string) (d : Disk)
  : Disk * result unit :=
  match order with
  | [] => (d, Ok tt)
  | date :: rest =>
      match byDate !! date with
      | None => writeDateFiles messagesDir writeFails byDate rest d
      | Some msgs =>
          (* Sort messages by timestamp *)
          let msgs :=
            sortSlice (fun a b => time.Before (Message.Timestamp a)
                                    (Message.Timestamp b)) msgs in
          (* Create file path *)
          let filePath := filepath.Join [messagesDir; date ++ ".md"] in
          let content := dateBlock date msgs in
          (* Append to existing file or create new *)
          let existingContent := default "" (d !! filePath) in
          let content :=
            if (0 <? String.length existingContent)%nat
            then content ++ nl ++ nl ++ existingContent
            else content in
          if writeFails filePath
          then (d, Err "failed to write message file")
          else writeDateFiles messagesDir writeFails byDate rest
                 (<[filePath := content]> d)
      end
  end.

(** [extractUserMessagesByDate] *)
Definition extractUserMessagesByDate (cfg : config.Config)
  (writeFails : string -> bool) (order : list string)
  (messages : list Message.t) (d : Disk) : Disk * result unit :=
  (* Group messages by date *)
  let messagesByDate := groupUserMessages messages in
  (* Write to date files *)
  writeDateFiles (config.MessagesDir (config.Directories cfg)) writeFails
    messagesByDate order d.

(** What the parser asks of its environment while one conversation is
    processed. *)
Record ParseEnv := mkParseEnv {
  stack : nat;                          (* call depth available *)
  clock : Z -> time.Time;               (* [time.Now()] per record index *)
  ranges : RangeOrders;
  writeFails : string -> bool;
  batchFails : nat -> bool;             (* the k-th batch write fails *)
}.

(** [processConversation].  [None]: the call does not return. *)
Definition processConversation (cfg : config.Config) (env : ParseEnv)
  (conv : ChatGPTConversation.t) (uploadID : Z) (sourcePath : string)
  (w : World) : option (World * result (Conversation.t * Z)) :=
  (* Create conversation record *)
  let conversation :=
    Conversation.mk 0 uploadID
      (findRootMessageID (rootOrder (ranges env)) (fallbackOrder (ranges env))
         (ChatGPTConversation.Mapping conv))
      (Some (ChatGPTConversation.Title conv))
      (time.Unix (ChatGPTConversation.CreateTime conv))
      (time.Unix (ChatGPTConversation.UpdateTime conv))
      sourcePath 0 in
  (* Check if conversation already exists *)
  match database.First
          (fun c => (Conversation.UploadID c =? uploadID)%Z &&
                    String.eqb (Conversation.ConversationID c)
                      (Conversation.ConversationID conversation))
          (database.conversations (db w)) with
  | Some existing =>
      (* Conversation already exists, return it *)
      Some (w, Ok (existing, Conversation.MessageCount existing))
  | None =>
      (* Create conversation *)
      let '(conversation, db1) :=
        database.CreateConversation conversation (db w) in
      (* Process messages *)
      match processMessages (stack env) (clock env) (processOrder (ranges env))
              (ChatGPTConversation.Mapping conv) (Conversation.ID conversation)
      with
      | None => None
      | Some messages =>
          (* Save messages in batches *)
          match database.CreateInBatches database.CreateMessages
                  (batchFails env) 0 (batches (length messages) 1000 messages)
                  db1 with
          | (db2, false) =>
              Some (mkWorld db2 (disk w) (warnings w),
                    Err "failed to create messages batch")
          | (db2, true) =>
          (* Extract and save user messages by date *)
          let '(disk2, written) :=
            extractUserMessagesByDate cfg (writeFails env)
              (dateOrder (ranges env)) messages (disk w) in
          let warnings2 :=
            match written with
            | Ok _ => warnings w
            | Err _ =>
                (warnings w ++ ["Failed to extract user messages by date"])%list
            end in
          Some (mkWorld db2 disk2 warnings2,
                Ok (conversation, Z.of_nat (length messages)))
          end
      end
  end.

(** [parseConversationFile], after the file has been read and decoded:
    [export] is the decoded [ChatGPTExport]; each conversation comes with
    the environment it is processed in. *)
Fixpoint parseConversations (cfg : config.Config) (uploadID : Z)
  (filePath : string) (export : list (ChatGPTConversation.t * ParseEnv))
  (counts : Z * Z) (w : World) : option (World * (Z * Z)) :=
  match export with
  | [] => Some (w, counts)
  | (conv, env) :: rest =>
      match processConversation cfg env conv uploadID filePath w with
      | None => None
      | Some (w1, Err _) =>
          parseConversations cfg uploadID filePath rest counts
            (warn ("Failed to process conversation: "
                   ++ ChatGPTConversation.Title conv) w1)
      | Some (w1, Ok (convRecord, msgCount)) =>
          let '(conversationsCreated, messagesCreated) := counts in
          (* Update conversation message count *)
          let convRecord := Conversation.withMessageCount convRecord msgCount in
          parseConversations cfg uploadID filePath rest
            ((conversationsCreated + 1)%Z, (messagesCreated + msgCount)%Z)
            (mkWorld (database.SaveConversation convRecord (db w1))
               (disk w1) (warnings w1))
      end
  end.

(** ** [internal/services/thread.go] *)

Definition byTimestamp (a b : Message.t) : bool :=
  time.Before (Message.Timestamp a) (Message.Timestamp b).

(** The loop of [createThreadsForConversation] over [messagesByDate], in the
    order [order]; [threads] is the slice built so far. *)
Fixpoint threadsForDates (d : database.DB) (conversationID : Z)
  (messagesByDate : gmap string (list Message.t)) (order : list string)
  (threads : list Thread.t) : result (list Thread.t) :=
  match order with
  | [] => Ok threads
  | date :: rest =>
      match messagesByDate !! date with
      | None | Some [] =>
          threadsForDates d conversationID messagesByDate rest threads
      | Some dateMessages =>
          (* Check if thread already exists *)
          match database.First
                  (fun x => (Thread.ConversationID x =? conversationID)%Z &&
                            String.eqb (Thread.Date x) date)
                  (database.threads d) with
          | Some _ =>
              (* Thread already exists, skip *)
              threadsForDates d conversationID messagesByDate rest threads
          | None =>
              (* Sort messages by timestamp *)
              match sortSlice byTimestamp dateMessages with
              | [] => threadsForDates d conversationID messagesByDate rest
                        threads
              | startMsg :: others =>
                  (* Get first and last message IDs *)
                  let endMsg := List.last others startMsg in
                  (* Validate that messages belong to same conversation *)
                  if negb (Message.ConversationID startMsg =? conversationID)%Z
                     || negb (Message.ConversationID endMsg =? conversationID)%Z
                  then Err "message conversation mismatch"
                  (* Validate timestamps *)
                  else if time.After (Message.Timestamp startMsg)
                            (Message.Timestamp endMsg)
                  then Err "start timestamp after end timestamp"
                  else
                    let thread :=
                      Thread.mk 0 conversationID date
                        (Z.of_nat (length dateMessages))
                        (Some (Message.ID startMsg))
                        (Some (Message.ID endMsg))
                        (Message.Timestamp startMsg)
                        (Message.Timestamp endMsg) in
                    threadsForDates d conversationID messagesByDate rest
                      (threads ++ [thread])
              end
          end
      end
  end.

(** [createThreadsForConversation]; [order] is how the [range] over the
    date buckets runs, [fails] which batch writes fail. *)
Definition createThreadsForConversation (order : list string)
  (fails : nat -> bool) (conversationID : Z) (d : database.DB)
  : database.DB * result Z :=
  (* Get all messages for this conversation, ordered by timestamp *)
  let messages :=
    sortSlice byTimestamp
      (filter (fun m => Message.ConversationID m = conversationID)
         (database.messages d)) in
  match messages with
  | [] => (d, Ok 0%Z)
  | _ =>
      (* Group messages by date (YYYY-MM-DD) in UTC *)
      let messagesByDate := groupByDate messages in
      (* Create thread for each date *)
      match threadsForDates d conversationID messagesByDate order [] with
      | Err e => (d, Err e)
      | Ok threads =>
          (* Save threads in batches *)
          match database.CreateInBatches database.CreateThreads fails 0
                  (batches (length threads) 1000 threads) d with
          | (d', false) => (d', Err "failed to create threads batch")
          | (d', true) => (d', Ok (Z.of_nat (length threads)))
          end
      end
  end.

(** ** [internal/services/upload.go] *)

(** What the upload service asks of its environment. *)
Record UploadEnv := mkUploadEnv {
  newUUID : string;                   (* [uuid.New().String()] *)
  sha256hex : string -> string;       (* hex SHA-256 digest of the bytes *)
  createFails : bool;                 (* [os.Create(tempPath)] *)
  copyFails : option nat;             (* [io.Copy] stops after n bytes *)
  closeFails : bool;                  (* [tempFile.Close()] *)
  renameFails : bool;                 (* [os.Rename] *)
  txFails : bool;                     (* the transaction *)
  uploadedAt : time.Time;             (* [time.Now().UTC()] *)
}.

(** [UploadFile]: the world afterwards, the [*models.Upload] returned and
    the error.  [data] is what [fileReader] yields. *)
Definition UploadFile (cfg : config.Config) (env : UploadEnv)
  (originalFilename data : string) (fileSize : Z) (w : World)
  : World * option Upload.t * option string :=
  (* Validate file size *)
  if (config.MaxFileSize (config.Upload cfg) <? fileSize)%Z then
    (w, None, Some "file size exceeds maximum")
  else
    (* Generate UUID for file storage *)
    let fileUUID := newUUID env in
    (* Create stored filename *)
    let storedFilename := fileUUID ++ ".zip" in
    let storedPath :=
      filepath.Join [config.UploadsDir (config.Directories cfg);
                     storedFilename] in
    (* Create temp file for atomic write *)
    let tempPath := storedPath ++ ".tmp" in
    if createFails env then (w, None, Some "failed to create temp file")
    else
      (* [defer os.Remove(tempPath)]: runs at every return below *)
      let cleanup (d : Disk) : Disk := delete tempPath d in
      let leave (d : Disk) := mkWorld (db w) (cleanup d) (warnings w) in
      (* Copy file content and calculate hash *)
      match copyFails env with
      | Some n =>
          (leave (<[tempPath := takeBytes n data]> (disk w)), None,
           Some "failed to write file")
      | None =>
          let d1 := <[tempPath := data]> (disk w) in
          let written := Z.of_nat (String.length data) in
          if negb (written =? fileSize)%Z then
            (leave d1, None, Some "file size mismatch")
          (* Close temp file before rename *)
          else if closeFails env then
            (leave d1, None, Some "failed to close temp file")
          else
            (* Calculate file hash *)
            let fileHash := sha256hex env data in
            (* Check for duplicate upload *)
            match database.First
                    (fun u => String.eqb (Upload.FileHash u) fileHash)
                    (database.uploads (db w)) with
            | Some existingUpload =>
                (leave d1, Some existingUpload,
                 Some ("file already uploaded (ID: "
                       ++ fmt.decimal (Upload.ID existingUpload) ++ ")"))
            | None =>
                (* Atomic rename: temp file -> final file *)
                if renameFails env then
                  (leave d1, None, Some "failed to rename temp file")
                else
                  let d2 := <[storedPath := data]> (delete tempPath d1) in
                  (* Create Upload and Import records in transaction *)
                  if txFails env then
                    (* Clean up file on database error *)
                    (mkWorld (db w) (cleanup (delete storedPath d2))
                       (warnings w),
                     None, Some "failed to create upload record")
                  else
                    let upload :=
                      Upload.mk
                        (database.nextID
                           (map Upload.ID (database.uploads (db w))))
                        fileUUID originalFilename storedPath fileSize fileHash
                        "application/zip" (uploadedAt env) "pending" in
                    let importRecord :=
                      ImportRecord.mk
                        (database.nextID
                           (map ImportRecord.ID (database.imports (db w))))
                        (Upload.ID upload) (uploadedAt env) None "pending" 0
                        None "" in
                    let db' :=
                      database.mkDB
                        (database.uploads (db w) ++ [upload])
                        (database.imports (db w) ++ [importRecord])
                        (database.extractions (db w))
                        (database.conversations (db w))
                        (database.messages (db w))
                        (database.threads (db w)) in
                    (mkWorld db' (cleanup d2) (warnings w), Some upload, None)
            end
      end.

(** ** [internal/api/handlers.go]: the upload handler *)

Module api.

Definition isValidZipFile (filename : string) : bool :=
  (4 <? String.length filename)%nat &&
  String.eqb (strings.drop (String.length filename - 4) filename) ".zip".

(** [contains], with [findSubstring] as the search for an occurrence. *)
Definition contains (s substr : string) : bool :=
  (String.length substr <=? String.length s)%nat &&
  (String.eqb s substr ||
   ((String.length substr <? String.length s)%nat &&
    strings.Contains s substr)).

(** What [UploadFile] answers: the HTTP status and the error code of
    [errorResponse], if any. *)
Record Response := mkResponse {
  status : Z;
  code : option string;
}.

(** [Handler.UploadFile], from the check of the file name on.  The
    last component is the upload for which the background goroutine
    (extraction, then parsing, then thread creation) is started. *)
Definition UploadFile (cfg : config.Config) (env : UploadEnv)
  (filename data : string) (size : Z) (w : World)
  : World * Response * option Z :=
  (* Validate file extension *)
  if negb (isValidZipFile filename) then
    (w, mkResponse 400 (Some "INVALID_FILE_TYPE"), None)
  else
    (* Upload file *)
    match UploadFile cfg env filename data size w with
    | (w', _, Some err) =>
        if contains err "already uploaded" then
          (w', mkResponse 409 (Some "DUPLICATE_UPLOAD"), None)
        else (w', mkResponse 500 (Some "UPLOAD_ERROR"), None)
    | (w', Some upload, None) =>
        (* Trigger async extraction *)
        (w', mkResponse 201 None, Some (Upload.ID upload))
    | (w', None, None) => (w', mkResponse 201 None, None)
    end.

End api.

(** ** Vocabulary for the parser: conversation trees *)

(** A conversation tree as the export format means it: a node with its
    key, its optional message payload and its children in order. *)
Unset Elimination Schemes.
Inductive Tree :=
| TNode (key : string) (payload : option MessageData.t) (kids : list Tree).
Set Elimination Schemes.

Definition rootKey (t : Tree) : string :=
  match t with TNode key _ _ => key end.

Fixpoint height (t : Tree) : nat :=
  match t with
  | TNode _ _ kids => S (fold_right Nat.max 0%nat (map height kids))
  end.

(** The nodes of the mapping that encodes [t], in pre-order. *)
Fixpoint nodesOf (parent : option string) (t : Tree)
  : list (string * MessageNode.t) :=
  match t with
  | TNode key payload kids =>
      (key, MessageNode.mk key payload parent (map rootKey kids))
        :: flat_map (nodesOf (Some key)) kids
  end.

(** The [Mapping] of a conversation whose tree is [t]. *)
Definition mappingOf (t : Tree) : gmap string MessageNode.t :=
  list_to_map (nodesOf None t).

Definition keysOf (t : Tree) : list string := map fst (nodesOf None t).

Definition isFinished (msg : MessageData.t) : bool :=
  String.eqb (MessageData.Status msg) "finished_successfully".

(** The nodes of [t] that carry a finished payload, in pre-order. *)
Fixpoint finishedNodes (t : Tree) : list (string * MessageData.t) :=
  match t with
  | TNode key payload kids =>
      match payload with
      | Some msg => if isFinished msg then [(key, msg)] else []
      | None => []
      end ++ flat_map finishedNodes kids
  end%list.

(** Every node of [t] carries a payload (finished or not). *)
Fixpoint allCarryPayload (t : Tree) : bool :=
  match t with
  | TNode _ payload kids =>
      negb (isNil payload) && forallb allCarryPayload kids
  end.

(** The payloads [traverseMessages] reaches from the root of [t]: the walk
    stops below a node without payload and passes through an unfinished
    one. *)
Fixpoint reached (t : Tree) : list MessageData.t :=
  match t with
  | TNode _ payload kids =>
      match payload with
      | None => []
      | Some msg =>
          (if isFinished msg then [msg] else []) ++ flat_map reached kids
      end
  end%list.

(** The mapping holds the nodes of [t] as the encoding lays them out. *)
Definition holds (mapping : gmap string MessageNode.t)
  (parent : option string) (t : Tree) : Prop :=
  forall key node,
    (key, node) ∈ nodesOf parent t -> mapping !! key = Some node.

(** The records for the payloads [l], numbered from [index] on. *)
Fixpoint recordsFrom (clock : Z -> time.Time) (conversationID : Z)
  (index : Z) (l : list MessageData.t) : list Message.t :=
  match l with
  | [] => []
  | msg :: rest =>
      messageOf clock conversationID msg index
        :: recordsFrom clock conversationID (index + 1)%Z rest
  end.

(** ** Vocabulary for the thread service *)

(** The messages of [l] whose UTC calendar date is [date], in the order of
    [l]. *)
Definition dateBucket (date : string) (l : list Message.t) : list Message.t :=
  List.filter
    (fun m => String.eqb (time.FormatDate (Message.Timestamp m)) date) l.


(** The stored row [s] is the row [x] up to the primary key the store
    assigned. *)
Definition storedAs (s x : Thread.t) : Prop :=
  Thread.withID s 0 = Thread.withID x 0.

(** The thread [x] is the one [createThreadsForConversation] builds for a
    date bucket of [byDate] that had no thread in [d]: its ends are the
    first and the last message of the bucket sorted by timestamp. *)
Definition builtFrom (d : database.DB) (conversationID : Z)
  (byDate : gmap string (list Message.t)) (x : Thread.t) : Prop :=
  Thread.ConversationID x = conversationID /\
  database.First
    (fun y => (Thread.ConversationID y =? conversationID)%Z &&
              String.eqb (Thread.Date y) (Thread.Date x))
    (database.threads d) = None /\
  exists msgs startMsg rest,
    byDate !! Thread.Date x = Some msgs /\
    sortSlice byTimestamp msgs = startMsg :: rest /\
    let endMsg := List.last rest startMsg in
    Message.ConversationID startMsg = conversationID /\
    Message.ConversationID endMsg = conversationID /\
    Thread.StartMessageID x = Some (Message.ID startMsg) /\
    Thread.EndMessageID x = Some (Message.ID endMsg) /\
    Thread.StartTimestamp x = Message.Timestamp startMsg /\
    Thread.EndTimestamp x = Message.Timestamp endMsg /\
    Thread.MessageCount x = Z.of_nat (length msgs).

(** The messages [createThreadsForConversation] reads for a conversation. *)
Definition messagesOf (conversationID : Z) (d : database.DB)
  : list Message.t :=
  sortSlice byTimestamp
    (filter (fun m => Message.ConversationID m = conversationID)
       (database.messages d)).

(** The first and the last message of a slice by sequence index. *)
Definition byIndex (a b : Message.t) : bool :=
  (Message.MessageIndex a <? Message.MessageIndex b)%Z.

Definition firstByIndex (l : list Message.t) : option Message.t :=
  head (sortSlice byIndex l).

Definition lastByIndex (l : list Message.t) : option Message.t :=
  last (sortSlice byIndex l).

(** ** Vocabulary for the per-date message files *)

(** The file [extractUserMessagesByDate] writes for a date. *)
Definition dateFile (cfg : config.Config) (date : string) : string :=
  filepath.Join [config.MessagesDir (config.Directories cfg); date ++ ".md"].

(** What follows the new block in a date file: the previous content after a
    blank line, when there was any. *)
Definition keptContent (existingContent : string) : string :=
  if (0 <? String.length existingContent)%nat
  then nl ++ nl ++ existingContent
  else "".

(** The user messages of [messages] dated [date], in their order. *)
Definition userMessagesOn (date : string) (messages : list Message.t)
  : list Message.t :=
  dateBucket date (filter (fun m => isUser m = true) messages).

Fixpoint slashFree (s : string) : bool :=
  match s with
  | EmptyString => true
  | String c s' => negb (Ascii.eqb c "/") && slashFree s'
  end.

(** The text [a] first occurs in [s] before the text [b] does. *)
Definition occursBefore (a b s : string) : bool :=
  match String.index 0 a s, String.index 0 b s with
  | Some i, Some j => (i <? j)%nat
  | _, _ => false
  end.

(** ** Concrete inputs used by the examples below *)

Definition demoCfg : config.Config :=
  config.mk (config.mkUpload 524288000 2147483648 10000)
    (config.mkDirectories "/data/uploads" "/data/extracted" "/data/analysis"
       "/data/messages").

Definition demoExtractEnv : ExtractEnv :=
  mkExtractEnv (fun _ => None) (fun _ => true) (fun _ _ => ioNone) None
    false (fun _ => time.Unix 1705312800) (fun a b c => (a * c / b)%Z).

Definition demoImport : ImportRecord.t :=
  ImportRecord.mk 1 1 (time.Unix 1705312800) None "extracting" 10 None "".

Definition demoState : ExtractState :=
  mkExtractState 0 0 [] demoImport
    (mkWorld (database.mkDB [] [demoImport] [] [] [] []) ∅ []).


Definition demoUpload : Upload.t :=
  Upload.mk 1 "u1" "export.zip" "/data/uploads/u1.zip" 2048 "9f86d081"
    "application/zip" (time.Unix 1705312800) "pending".

Definition demoPending : ImportRecord.t :=
  ImportRecord.mk 1 1 (time.Unix 1705312800) None "pending" 0 None "".

Definition demoWorld : World :=
  mkWorld (database.mkDB [demoUpload] [demoPending] [] [] [] []) ∅ [].

Definition smallEntry : zip.File :=
  zip.mkFile "conversations.json" 10 "[{},{},{}]".



Definition payload (id role status text : string) (created : option Z)
  : MessageData.t :=
  MessageData.mk id (AuthorData.mk role None)
    (ContentData.mk "text" [text]) status created None.

Definition demoClock (index : Z) : time.Time :=
  (time.Unix 1705400000 + index)%Z.

(** A conversation with a system prompt still marked in progress, a user
    turn and two alternative answers. *)
Definition demoTree : Tree :=
  TNode "n0" (Some (payload "m0" "system" "in_progress" "" None))
    [TNode "n1"
       (Some (payload "m1" "user" "finished_successfully" "hello"
                (Some 1705312800%Z)))
       [TNode "n2"
          (Some (payload "m2" "assistant" "finished_successfully" "hi"
                   (Some 1705312805%Z))) [];
        TNode "n3"
          (Some (payload "m3" "assistant" "finished_successfully" "hey"
                   (Some 1705312809%Z))) []]].

(** Two finished nodes that list each other as child. *)
Definition cyclicMapping : gmap string MessageNode.t :=
  list_to_map
    [("X", MessageNode.mk "X"
             (Some (payload "mx" "user" "finished_successfully" "ping"
                      (Some 1705312800%Z)))
             None ["Y"]);
     ("Y", MessageNode.mk "Y"
             (Some (payload "my" "assistant" "finished_successfully" "pong"
                      (Some 1705312801%Z)))
             (Some "X") ["X"])].

(** A node listed as child by two nodes. *)
Definition sharedChildMapping : gmap string MessageNode.t :=
  list_to_map
    [("R", MessageNode.mk "R"
             (Some (payload "mr" "system" "in_progress" "" None))
             None ["A"; "B"]);
     ("A", MessageNode.mk "A"
             (Some (payload "ma" "user" "in_progress" "" None))
             (Some "R") ["C"]);
     ("B", MessageNode.mk "B"
             (Some (payload "mb" "user" "in_progress" "" None))
             (Some "R") ["C"]);
     ("C", MessageNode.mk "C"
             (Some (payload "mc" "assistant" "finished_successfully" "done"
                      (Some 1705312800%Z)))
             (Some "A") [])].

(** The shape of a real export: the root node has no message, the first
    turn hangs below it. *)
Definition nullRootTree : Tree :=
  TNode "root" None
    [TNode "a"
       (Some (payload "m1" "user" "finished_successfully" "hello"
                (Some 1705312800%Z))) []].

(** Two nodes without parent. *)
Definition twoRootsMapping : gmap string MessageNode.t :=
  list_to_map
    [("a", MessageNode.mk "a"
             (Some (payload "ma" "user" "finished_successfully" "first"
                      (Some 1705312800%Z)))
             None []);
     ("b", MessageNode.mk "b"
             (Some (payload "mb" "user" "finished_successfully" "second"
                      (Some 1705312801%Z)))
             None [])].


Definition demoParseEnv : ParseEnv :=
  mkParseEnv 16 demoClock
    (mkRangeOrders ["n0"; "n1"; "n2"; "n3"] ["n0"; "n1"; "n2"; "n3"]
       ["n3"; "n2"; "n1"; "n0"] ["2024-01-15"])
    (fun _ => false) (fun _ => false).


Definition storedMessage (id conversationID index : Z) (role text : string)
  (at_ : Z) : Message.t :=
  Message.mk id conversationID (Some "m") role text (time.Unix at_) index "".

(** Conversation 1 with three messages on 2024-01-15 and two on 2024-01-16,
    conversation 2 with one message on 2024-01-15. *)
Definition scenarioDB : database.DB :=
  database.mkDB [] [] [] []
    [storedMessage 1 1 0 "user" "a" 1705312800;
     storedMessage 2 1 1 "assistant" "b" 1705312860;
     storedMessage 3 1 2 "user" "c" 1705316400;
     storedMessage 4 1 3 "assistant" "d" 1705399200;
     storedMessage 5 1 4 "user" "e" 1705402800;
     storedMessage 6 2 0 "user" "f" 1705320000]
    [].

(** A conversation whose second message carries the earlier timestamp. *)
Definition outOfOrderDB : database.DB :=
  database.mkDB [] [] [] []
    [storedMessage 1 1 0 "user" "asked at noon" 1705320000;
     storedMessage 2 1 1 "assistant" "stamped 11:00" 1705316400]
    [].

(** A stand-in for SHA-256 on the two archives of the examples. *)
Definition demoDigest (data : string) : string :=
  if String.eqb data "PK-archive-bytes" then "9f86d081" else "0000".

Definition demoUploadEnv : UploadEnv :=
  mkUploadEnv "u2" demoDigest false None false false false
    (time.Unix 1705400000).

(** The user turns of two conversations on 2024-01-15: the first
    conversation asked at 09:00, the second at 10:00. *)
Definition morningTurn : Message.t :=
  storedMessage 0 1 0 "user" "first question" 1705309200.

Definition laterTurn : Message.t :=
  storedMessage 0 2 0 "user" "second question" 1705312800.

Definition nextDayTurn : Message.t :=
  storedMessage 0 1 2 "user" "follow-up" 1705392000.

Definition notesDisk : Disk :=
  {[ "/data/messages/2024-01-15.md" := "old notes" ]}.

(** ** [internal/database/db.go]: retrying a locked database *)

Module dbutil.

(** [findSubstring]: the loop over the start positions [0 .. len(s) -
    len(substr)]; [n] is the number of positions left, [i] the position. *)
Fixpoint findFrom (n i : nat) (s substr : string) : bool :=
  match n with
  | O => false
  | S n' =>
      if String.eqb (String.substring i (String.length substr) s) substr
      then true
      else findFrom n' (S i) s substr
  end.

Definition findSubstring (s substr : string) : bool :=
  findFrom (Z.to_nat (Z.of_nat (String.length s)
                      - Z.of_nat (String.length substr) + 1)) 0 s substr.

(** [contains] *)
Definition contains (s substr : string) : bool :=
  (String.length substr <=? String.length s)%nat &&
  (String.eqb s substr ||
   ((String.length substr <? String.length s)%nat && findSubstring s substr)).

(** [isDatabaseLocked]; an error is its message, [None] is [nil]. *)
Definition isDatabaseLocked (err : option string) : bool :=
  match err with
  | None => false
  | Some errStr =>
      contains errStr "database is locked" || contains errStr "database locked"
  end.

(** What a call of [RetryWithBackoff] has done when it returns: the error
    it returns, the durations it has slept (oldest first) and the number of
    times it has called [fn]. *)
Record Outcome := mkOutcome {
  returned : option string;
  slept : list Z;
  calls : nat;
}.

(** The loop of [RetryWithBackoff] from iteration [i] on, with [n]
    iterations left before [i] reaches [maxRetries]; [fn k] is what the
    [k]-th call of the operation returns.  A [time.Duration] is an
    [int64]. *)
Fixpoint retryFrom (fn : nat -> option string) (maxRetries : Z) (n i : nat)
  (delay : Z) (err : option string) (sleeps : list Z) : Outcome :=
  match n with
  | O => mkOutcome err sleeps i
  | S n' =>
      let err := fn i in
      match err with
      | None => mkOutcome None sleeps (S i)
      | Some _ =>
          (* Check if it's a database locked error *)
          if isDatabaseLocked err && (Z.of_nat i <? maxRetries - 1)%Z then
            retryFrom fn maxRetries n' (S i) (int64 (delay * 2)) err
              (sleeps ++ [delay])
          else
            (* If it's not a locked error or we've exhausted retries,
               return the error *)
            mkOutcome err sleeps (S i)
      end
  end.

(** [RetryWithBackoff] *)
Definition RetryWithBackoff (maxRetries : Z) (initialDelay : Z)
  (fn : nat -> option string) : Outcome :=
  retryFrom fn maxRetries (Z.to_nat maxRetries) 0 initialDelay None [].

End dbutil.

(** The text [sub] occurs in [s]. *)
Definition occursIn (sub s : string) : Prop :=
  exists before after, s = before ++ sub ++ after.

(** The delays of [k] successive sleeps that start at [delay] and double. *)
Fixpoint doubling (k : nat) (delay : Z) : list Z :=
  match k with
  | O => []
  | S k' => delay :: doubling k' (2 * delay)
  end.

(** ** [internal/services/parser.go]: a whole upload *)

(** The double quote character. *)
Definition dquote : string := String "034"%char EmptyString.

(** [json.Marshal] of the statistics map of [ParseUpload]: the keys of a
    map are written in sorted order, the integers in decimal. *)
Definition statsJSON (conversations messages files : Z) : string :=
  "{" ++ dquote ++ "conversations_count" ++ dquote ++ ":"
      ++ fmt.decimal conversations
  ++ "," ++ dquote ++ "files_extracted" ++ dquote ++ ":" ++ fmt.decimal files
  ++ "," ++ dquote ++ "messages_count" ++ dquote ++ ":"
      ++ fmt.decimal messages
  ++ "}".

(** [DB.Save(&extraction)] *)
Definition SaveExtraction (e : Extraction.t) (d : database.DB) : database.DB :=
  database.mkDB (database.uploads d) (database.imports d)
    (map (fun x => if (Extraction.ID x =? Extraction.ID e)%Z then e else x)
       (database.extractions d))
    (database.conversations d) (database.messages d) (database.threads d).

Definition parsedExtraction (e : Extraction.t) : Extraction.t :=
  Extraction.mk (Extraction.ID e) (Extraction.UploadID e)
    (Extraction.FilePath e) (Extraction.FileType e) (Extraction.FileSize e)
    (Extraction.ExtractedAt e) "parsed".

(** What [ParseUpload] asks of its environment. *)
Record UploadParseEnv := mkUploadParseEnv {
  (** [json.Unmarshal] of the bytes of a file into a [ChatGPTExport];
      [None] when it reports an error. *)
  unmarshal : string -> option (list ChatGPTConversation.t);
  (** The environment in which the [k]-th conversation of a file is
      processed. *)
  conversationEnv : string -> nat -> ParseEnv;
  (** [int(float64(a)/float64(b)*c)] *)
  parseScale : Z -> Z -> Z -> Z;
}.

(** [parseConversationFile].  [None]: the call does not return. *)
Definition parseConversationFile (cfg : config.Config) (env : UploadParseEnv)
  (filePath : string) (uploadID : Z) (w : World)
  : option (World * result (Z * Z)) :=
  (* Read file *)
  match disk w !! filePath with
  | None => Some (w, Err "failed to read file")
  | Some data =>
      (* Parse JSON *)
      match unmarshal env data with
      | None => Some (w, Err "failed to parse JSON")
      | Some export =>
          (* Process each conversation *)
          match parseConversations cfg uploadID filePath
                  (imap (fun k conv => (conv, conversationEnv env filePath k))
                     export)
                  (0%Z, 0%Z) w with
          | None => None
          | Some (w', counts) => Some (w', Ok counts)
          end
      end
  end.

(** The local variables of [ParseUpload] that its loop updates, with the
    world. *)
Record ParseState := mkParseState {
  totalConversations : Z;
  totalMessages : Z;
  parsingImport : ImportRecord.t;
  parsingWorld : World;
}.

(** The loop of [ParseUpload] over the conversation files, from the file of
    position [i] on; [files] is [len(extractions)]. *)
Fixpoint parseFiles (cfg : config.Config) (env : UploadParseEnv)
  (uploadID : Z) (files : Z) (i : Z) (extractions : list Extraction.t)
  (st : ParseState) : option ParseState :=
  match extractions with
  | [] => Some st
  | extraction :: rest =>
      match parseConversationFile cfg env (Extraction.FilePath extraction)
              uploadID (parsingWorld st) with
      | None => None
      | Some (w, Err _) =>
          parseFiles cfg env uploadID files (i + 1)%Z rest
            (mkParseState (totalConversations st) (totalMessages st)
               (parsingImport st)
               (warn ("Failed to parse conversation file: "
                      ++ Extraction.FilePath extraction) w))
      | Some (w, Ok (conversations, messages)) =>
          (* Update extraction status *)
          let d := SaveExtraction (parsedExtraction extraction) (db w) in
          (* Update progress *)
          let r := ImportRecord.withProgress (parsingImport st)
                     (40 + parseScale env (i + 1) files 30)%Z in
          parseFiles cfg env uploadID files (i + 1)%Z rest
            (mkParseState (totalConversations st + conversations)%Z
               (totalMessages st + messages)%Z r
               (mkWorld (database.SaveImport r d) (disk w) (warnings w)))
      end
  end.

Definition withStats (r : ImportRecord.t) (stats : string) : ImportRecord.t :=
  ImportRecord.mk (ImportRecord.ID r) (ImportRecord.UploadID r)
    (ImportRecord.StartedAt r) (ImportRecord.CompletedAt r)
    (ImportRecord.Status r) (ImportRecord.ProgressPercent r)
    (ImportRecord.ErrorMessage r) stats.

(** The conversation files of an upload:
    [Where("upload_id = ? AND file_type = ?", uploadID, "conversation")]. *)
Definition conversationFiles (uploadID : Z) (d : database.DB)
  : list Extraction.t :=
  List.filter
    (fun e => (Extraction.UploadID e =? uploadID)%Z &&
              String.eqb (Extraction.FileType e) "conversation")
    (database.extractions d).

(** [ParseUpload].  [None]: the call does not return. *)
Definition ParseUpload (cfg : config.Config) (env : UploadParseEnv)
  (uploadID : Z) (w : World) : option (World * result unit) :=
  match database.First (fun u => (Upload.ID u =? uploadID)%Z)
          (database.uploads (db w)) with
  | None => Some (w, Err "upload not found")
  | Some _ =>
  (* Find conversation JSON files *)
  let extractions := conversationFiles uploadID (db w) in
  match extractions with
  | [] =>
      Some (w, Err ("no conversation files found for upload "
                    ++ fmt.decimal uploadID))
  | _ =>
  match database.First (fun r => (ImportRecord.UploadID r =? uploadID)%Z)
          (database.imports (db w)) with
  | None => Some (w, Err "import record not found")
  | Some found =>
  let importRec := ImportRecord.withStatus found "parsing" 40 in
  let w := mkWorld (database.SaveImport importRec (db w)) (disk w)
             (warnings w) in
  (* Process each conversation file *)
  match parseFiles cfg env uploadID (Z.of_nat (length extractions)) 0
          extractions (mkParseState 0 0 importRec w) with
  | None => None
  | Some st =>
      (* Update import stats *)
      let r := withStats (parsingImport st)
                 (statsJSON (totalConversations st) (totalMessages st)
                    (Z.of_nat (length extractions))) in
      let r := ImportRecord.withStatus r "importing" 70 in
      let w := parsingWorld st in
      Some (mkWorld (database.SaveImport r (db w)) (disk w) (warnings w),
            Ok tt)
  end
  end
  end
  end.

(** ** [internal/services/thread.go]: a whole upload *)

(** What [CreateThreadsForUpload] asks of its environment. *)
Record ThreadEnv := mkThreadEnv {
  (** The order in which the [range] over the date buckets of a
      conversation runs. *)
  bucketOrder : Z -> list string;
  (** Which batch writes fail while the threads of a conversation are
      saved. *)
  threadBatchFails : Z -> nat -> bool;
  (** [int(float64(a)/float64(b)*c)] *)
  threadScale : Z -> Z -> Z -> Z;
  (** [time.Now().UTC()] when the import is completed. *)
  completedNow : time.Time;
}.

(** The loop of [CreateThreadsForUpload] over the conversations, from the
    conversation of position [i] on; [total] is [len(conversations)]. *)
Fixpoint threadsForConversations (env : ThreadEnv) (total : Z) (i : Z)
  (conversations : list Conversation.t)
  (st : Z * ImportRecord.t * World) : Z * ImportRecord.t * World :=
  match conversations with
  | [] => st
  | conv :: rest =>
      let '(totalThreads, importRec, w) := st in
      let id := Conversation.ID conv in
      match createThreadsForConversation (bucketOrder env id)
              (threadBatchFails env id) id (db w) with
      | (d, Err _) =>
          threadsForConversations env total (i + 1)%Z rest
            (totalThreads, importRec,
             warn ("Failed to create threads for conversation "
                   ++ fmt.decimal id)
               (mkWorld d (disk w) (warnings w)))
      | (d, Ok threadCount) =>
          (* Update progress *)
          let r := ImportRecord.withProgress importRec
                     (70 + threadScale env (i + 1) total 25)%Z in
          threadsForConversations env total (i + 1)%Z rest
            ((totalThreads + threadCount)%Z, r,
             mkWorld (database.SaveImport r d) (disk w) (warnings w))
      end
  end.

Definition completedImport (r : ImportRecord.t) (at_ : time.Time)
  : ImportRecord.t :=
  ImportRecord.mk (ImportRecord.ID r) (ImportRecord.UploadID r)
    (ImportRecord.StartedAt r) (Some at_) "completed" 100
    (ImportRecord.ErrorMessage r) (ImportRecord.Stats r).

(** The conversations of an upload: [Where("upload_id = ?", uploadID)]. *)
Definition conversationsOf (uploadID : Z) (d : database.DB)
  : list Conversation.t :=
  List.filter (fun c => (Conversation.UploadID c =? uploadID)%Z)
    (database.conversations d).

(** [CreateThreadsForUpload]; the statistics map it builds is not stored
    anywhere. *)
Definition CreateThreadsForUpload (env : ThreadEnv) (uploadID : Z) (w : World)
  : World * result unit :=
  match database.First (fun u => (Upload.ID u =? uploadID)%Z)
          (database.uploads (db w)) with
  | None => (w, Err "upload not found")
  | Some _ =>
  match database.First (fun r => (ImportRecord.UploadID r =? uploadID)%Z)
          (database.imports (db w)) with
  | None => (w, Err "import record not found")
  | Some found =>
  let importRec := ImportRecord.withStatus found "importing" 70 in
  let w := mkWorld (database.SaveImport importRec (db w)) (disk w)
             (warnings w) in
  (* Get all conversations for this upload *)
  let conversations := conversationsOf uploadID (db w) in
  (* Process each conversation *)
  let '(_, importRec, w) :=
    threadsForConversations env (Z.of_nat (length conversations)) 0
      conversations (0%Z, importRec, w) in
  (* Update import status *)
  let r := completedImport importRec (completedNow env) in
  (mkWorld (database.SaveImport r (db w)) (disk w) (warnings w), Ok tt)
  end
  end.

(** [GetThreadsForConversation] is a query in date order; [GetThread]: *)
Definition GetThread (threadID : Z) (d : database.DB) : result Thread.t :=
  match database.First (fun x => (Thread.ID x =? threadID)%Z)
          (database.threads d) with
  | Some thread => Ok thread
  | None => Err ("thread not found: " ++ fmt.decimal threadID)
  end.

(** ** [internal/services/upload.go]: reading an upload *)


(** ** [internal/api/handlers.go]: the background pipeline and [GetUpload] *)

(** The stages the goroutine started by [Handler.UploadFile] runs; a stage
    that returns an error is logged and ends the pipeline. *)
Inductive Stage := Extraction | Parsing | ThreadCreation.

Record PipelineEnv := mkPipelineEnv {
  extractEnv : ExtractEnv;
  uploadParseEnv : UploadParseEnv;
  threadEnv : ThreadEnv;
}.

(** The body of the goroutine: the world it leaves and the stage that
    failed, if one did.  [None]: it does not return. *)
Definition processUpload (cfg : config.Config) (env : PipelineEnv)
  (uploadID : Z) (w : World) : option (World * option Stage) :=
  match ExtractUpload cfg (extractEnv env) uploadID w with
  | (w, Err _) => Some (w, Some Extraction)
  | (w, Ok _) =>
      (* Trigger parsing *)
      match ParseUpload cfg (uploadParseEnv env) uploadID w with
      | None => None
      | Some (w, Err _) => Some (w, Some Parsing)
      | Some (w, Ok _) =>
          (* Trigger thread creation *)
          match CreateThreadsForUpload (threadEnv env) uploadID w with
          | (w, Err _) => Some (w, Some ThreadCreation)
          | (w, Ok _) => Some (w, None)
          end
      end
  end.




(** ** Vocabulary for cleaned paths and extraction records *)

(** An element that [Clean] keeps: a non-empty piece without separator that
    is not the [.] element. *)
Definition keptElement (e : string) : Prop :=
  slashFree e = true /\ e <> "" /\ e <> ".".

(** The shape of the stack [Clean] builds (innermost element first): the
    ordinary elements above the [..] elements a relative path starts
    with. *)
Definition cleanStack (rooted : bool) (out : list string) : Prop :=
  Forall keptElement out /\
  exists ord k, out = (ord ++ repeat ".." k)%list /\ ordinary ord /\
                (rooted = true -> k = 0%nat).



(** An archive with a conversation file, an entry that climbs out of the
    extraction directory and a picture. *)
Definition mixedArchiveEnv : ExtractEnv :=
  mkExtractEnv
    (fun _ => Some [smallEntry; zip.mkFile "../../etc/passwd" 5 "root:";
                    zip.mkFile "media/pic.png" 4 "PNG."])
    (fun _ => true) (fun _ _ => ioNone) None false
    (fun _ => time.Unix 1705312800) (fun a b c => (a * c / b)%Z).

(** ** Vocabulary for the records of a traversal *)

(** The records [l] carry the sequence indices [index], [index + 1], ... in
    order. *)
Definition numberedFrom (index : Z) (l : list Message.t) : Prop :=
  map Message.MessageIndex l
  = map (fun k => (index + Z.of_nat k)%Z) (seq 0 (length l)).

(** What a traversal that returns has appended to [( *messages, *index )]:
    records of the conversation, numbered on from the index it started
    with. *)
Definition traversedFor (conversationID : Z)
  (acc acc' : list Message.t * Z) : Prop :=
  exists added,
    fst acc' = (fst acc ++ added)%list /\
    snd acc' = (snd acc + Z.of_nat (length added))%Z /\
    numberedFrom (snd acc) added /\
    Forall (fun m => Message.ConversationID m = conversationID) added.

(** ** Vocabulary for re-runs of the thread service *)


(** The tables other than the thread table are the same in both stores. *)
Definition sameButThreads (d d' : database.DB) : Prop :=
  database.uploads d' = database.uploads d /\
  database.imports d' = database.imports d /\
  database.extractions d' = database.extractions d /\
  database.conversations d' = database.conversations d /\
  database.messages d' = database.messages d.



(** ** Vocabulary for the upload service *)

(** Where [UploadFile] stores the archive it receives. *)
Definition storedPathOf (cfg : config.Config) (env : UploadEnv) : string :=
  filepath.Join [config.UploadsDir (config.Directories cfg);
                 newUUID env ++ ".zip"].

(** The rows a successful [UploadFile] creates. *)
Definition uploadRow (cfg : config.Config) (env : UploadEnv)
  (originalFilename data : string) (fileSize : Z) (d : database.DB)
  : Upload.t :=
  Upload.mk (database.nextID (map Upload.ID (database.uploads d)))
    (newUUID env) originalFilename (storedPathOf cfg env) fileSize
    (sha256hex env data) "application/zip" (uploadedAt env) "pending".

Definition importRow (env : UploadEnv) (uploadID : Z) (d : database.DB)
  : ImportRecord.t :=
  ImportRecord.mk (database.nextID (map ImportRecord.ID (database.imports d)))
    uploadID (uploadedAt env) None "pending" 0 None "".

(** The store with the two rows of a new upload appended. *)
Definition withUpload (upload : Upload.t) (importRec : ImportRecord.t)
  (d : database.DB) : database.DB :=
  database.mkDB (database.uploads d ++ [upload])
    (database.imports d ++ [importRec]) (database.extractions d)
    (database.conversations d) (database.messages d) (database.threads d).

(** No file is new or changed in [d']: what is there was there, with the
    same content. *)
Definition nothingNew (d d' : Disk) : Prop :=
  forall path, is_Some (d' !! path) -> d' !! path = d !! path.

(** ** Concrete inputs for the pipeline examples *)

(** An archive whose only file is named with a capital letter. *)
Definition capitalArchiveEnv : ExtractEnv :=
  mkExtractEnv (fun _ => Some [zip.mkFile "Conversations.json" 2 "[]"])
    (fun _ => true) (fun _ _ => ioNone) None false
    (fun _ => time.Unix 1705312800) (fun a b c => (a * c / b)%Z).

Definition demoUploadParseEnv : UploadParseEnv :=
  mkUploadParseEnv (fun _ => None) (fun _ _ => demoParseEnv)
    (fun a b c => (a * c / b)%Z).

Definition demoThreadEnv : ThreadEnv :=
  mkThreadEnv (fun _ => ["2024-01-16"; "2024-01-15"]) (fun _ _ => false)
    (fun a b c => (a * c / b)%Z) (time.Unix 1705400000).

Definition demoPipelineEnv : PipelineEnv :=
  mkPipelineEnv capitalArchiveEnv demoUploadParseEnv demoThreadEnv.




(** * [sort.Slice]: what the services rely on *)

Section SortFacts.
Context {A : Type} (key : A -> Z).

(** The comparison functions the sources pass all compare one integer
    field. *)
Let less (a b : A) : bool := (key a <? key b)%Z.
Let ordered (a b : A) : Prop := (key a <= key b)%Z.

Lemma insertSorted_perm x l : insertSorted less x l ≡ₚ x :: l.
Proof.
  induction l as [|y l IH]; simpl; [reflexivity|].
  destruct (less x y); [reflexivity|].
  rewrite IH. apply Permutation_swap.
Qed.

Lemma insertSorted_sorted x l :
  StronglySorted ordered l -> StronglySorted ordered (insertSorted less x l).
Proof.
  induction 1 as [|y l Hl IH Hy]; simpl.
  - repeat constructor.
  - unfold less at 1. destruct (Z.ltb_spec (key x) (key y)) as [Hlt|Hge].
    + constructor; [now constructor|].
      constructor; [unfold ordered; lia|].
      eapply Forall_impl; [exact Hy|]. unfold ordered. simpl. intros. lia.
    + constructor; [exact IH|].
      rewrite insertSorted_perm. constructor; [exact Hge|exact Hy].
Qed.

Lemma foldInsert_perm l : forall acc,
  fold_left (fun acc x => insertSorted less x acc) l acc ≡ₚ acc ++ l.
Proof.
  induction l as [|x l IH]; intros acc; simpl.
  - now rewrite app_nil_r.
  - rewrite IH, insertSorted_perm. simpl. apply Permutation_middle.
Qed.

Lemma foldInsert_sorted l : forall acc,
  StronglySorted ordered acc ->
  StronglySorted ordered
    (fold_left (fun acc x => insertSorted less x acc) l acc).
Proof.
  induction l as [|x l IH]; intros acc Hacc; simpl; [exact Hacc|].
  apply IH, insertSorted_sorted, Hacc.
Qed.

(** [sortSlice] rearranges. *)
Lemma sortSlice_perm l : sortSlice less l ≡ₚ l.
Proof. unfold sortSlice. now rewrite foldInsert_perm. Qed.

(** [sortSlice] orders. *)
Lemma sortSlice_sorted l : StronglySorted ordered (sortSlice less l).
Proof. apply foldInsert_sorted. constructor. Qed.

Lemma insertSorted_last x l :
  Forall (fun y => (key y <= key x)%Z) l -> insertSorted less x l = (l ++ [x])%list.
Proof.
  induction 1 as [|y l Hy _ IH]; simpl; [reflexivity|].
  unfold less at 1. destruct (Z.ltb_spec (key x) (key y)); [lia|].
  now rewrite IH.
Qed.

(** A slice already in order is left as it is. *)
Lemma sortSlice_ordered l :
  StronglySorted ordered l -> sortSlice less l = l.
Proof.
  unfold sortSlice. intros Hl.
  enough (H : forall acc, StronglySorted ordered (acc ++ l) ->
            fold_left (fun acc x => insertSorted less x acc) l acc
            = (acc ++ l)%list) by (apply (H []); exact Hl).
  clear Hl. induction l as [|x l IH]; intros acc Hsorted; simpl.
  - now rewrite app_nil_r.
  - rewrite insertSorted_last.
    + rewrite IH; rewrite <- app_assoc; [reflexivity|exact Hsorted].
    + clear IH. induction acc as [|y acc IHacc]; [constructor|].
      simpl in Hsorted. inversion Hsorted as [|? ? Hrest Hy]; subst.
      constructor; [|now apply IHacc].
      rewrite Forall_app in Hy. destruct Hy as [_ Hy].
      now inversion Hy.
Qed.

(** The first element of the sorted slice is least, the last greatest. *)
Lemma sortSlice_ends l first rest :
  sortSlice less l = first :: rest ->
  first ∈ l /\ List.last rest first ∈ l /\
  forall x, x ∈ l ->
    (key first <= key x <= key (List.last rest first))%Z.
Proof.
  replace (List.last rest first) with (List.last (first :: rest) first)
    by now destruct rest.
  intros Hsort. pose proof (sortSlice_perm l) as Hperm.
  pose proof (sortSlice_sorted l) as Hsorted. rewrite Hsort in *.
  assert (Hlast : forall (s : list A) d,
            StronglySorted ordered s -> s <> [] ->
            List.last s d ∈ s /\
            forall x, x ∈ s -> (key x <= key (List.last s d))%Z).
  { clear. intros s d. induction 1 as [|y s Hs IH Hy]; [congruence|].
    intros _. destruct s as [|z s].
    - simpl. split; [left|]. intros x Hx.
      apply list_elem_of_singleton in Hx. subst. lia.
    - destruct IH as [Hin Hmax]; [discriminate|].
      change (List.last (y :: z :: s) d) with (List.last (z :: s) d).
      split; [now right|]. intros x Hx.
      apply elem_of_cons in Hx as [->|Hx]; [|now apply Hmax].
      rewrite Forall_forall in Hy. apply (Hy _ Hin). }
  destruct (Hlast (first :: rest) first Hsorted) as [Hin Hmax];
    [discriminate|].
  split; [rewrite <- Hperm; left|].
  split; [now rewrite <- Hperm|].
  intros x Hx. rewrite <- Hperm in Hx. split; [|now apply Hmax].
  inversion Hsorted as [|? ? _ Hmin]; subst.
  apply elem_of_cons in Hx as [->|Hx]; [lia|].
  rewrite Forall_forall in Hmin. now apply Hmin.
Qed.

End SortFacts.

(** * Archive extraction *)

Section PathLemmas.

Lemma splitOn_nonempty sep s : strings.splitOn sep s <> [].
Proof.
  destruct s as [|c s]; simpl; [discriminate|].
  destruct (Ascii.eqb c sep); [discriminate|].
  destruct (strings.splitOn sep s); discriminate.
Qed.

Lemma splitOn_app sep a b :
  strings.splitOn sep (a ++ String sep b)
  = (strings.splitOn sep a ++ strings.splitOn sep b)%list.
Proof.
  induction a as [|c a IH]; simpl.
  - now rewrite Ascii.eqb_refl.
  - destruct (Ascii.eqb c sep); [now rewrite IH|].
    rewrite IH. pose proof (splitOn_nonempty sep a) as Hne.
    destruct (strings.splitOn sep a); [contradiction|reflexivity].
Qed.

Lemma cleanStep_rooted_ordinary out e :
  ordinary out -> ordinary (filepath.cleanStep true out e).
Proof.
  intros Hout. unfold filepath.cleanStep.
  destruct (String.eqb e "" || String.eqb e "."); [assumption|].
  destruct (String.eqb_spec e "..") as [->|Hne].
  - destruct out as [|top rest]; [constructor|].
    inversion Hout as [|? ? Htop Hrest]; subst.
    destruct (String.eqb_spec top ".."); [contradiction|assumption].
  - constructor; assumption.
Qed.

Lemma fold_rooted_ordinary segs out :
  ordinary out -> ordinary (fold_left (filepath.cleanStep true) segs out).
Proof.
  revert out. induction segs as [|e segs IH]; intros out Hout; simpl; [assumption|].
  apply IH, cleanStep_rooted_ordinary, Hout.
Qed.

(** Following the same elements from inside a directory whose own elements
    are [stk] and from nowhere: the relative run keeps [k] unmatched [..]
    below what it has pushed, the rooted run has consumed [k] elements of
    [stk]. *)
Lemma clean_simulation stk segs : ordinary stk ->
  forall ord k, ordinary ord ->
  exists ord' k',
    fold_left (filepath.cleanStep false) segs (ord ++ repeat ".." k)%list
      = (ord' ++ repeat ".." k')%list /\
    fold_left (filepath.cleanStep true) segs (ord ++ List.skipn k stk)%list
      = (ord' ++ List.skipn k' stk)%list /\
    ordinary ord' /\ (k <= k')%nat.
Proof.
  intros HS. induction segs as [|e segs IH]; intros ord k Hord; simpl.
  - exists ord, k. auto.
  - unfold filepath.cleanStep at 2 4.
    destruct (String.eqb e "" || String.eqb e ".") eqn:Hskip.
    { apply IH, Hord. }
    destruct (String.eqb_spec e "..") as [->|Hne].
    + destruct ord as [|top ord]; simpl.
      * destruct (IH [] (S k)) as (ord' & k' & H1 & H2 & H3 & H4); [constructor|].
        exists ord', k'. simpl in H1, H2.
        assert (Hr : match repeat ".." k with
                     | [] => [".."]
                     | top :: rest =>
                         if String.eqb top ".." then ".." :: repeat ".." k else rest
                     end = ".." :: repeat ".." k).
        { destruct k; simpl; reflexivity. }
        rewrite Hr, H1.
        assert (Ha : match List.skipn k stk with
                     | [] => []
                     | top :: rest => if String.eqb top ".." then ".." :: List.skipn k stk else rest
                     end = List.skipn (S k) stk).
        { clear -HS. revert stk HS. induction k as [|k IHk]; intros stk HS.
          - destruct stk as [|x stk]; simpl; [reflexivity|].
            inversion HS; subst. destruct (String.eqb_spec x ".."); [contradiction|reflexivity].
          - destruct stk as [|x stk]; simpl; [reflexivity|].
            inversion HS; subst. apply IHk; assumption. }
        rewrite Ha, H2. repeat split; auto. lia.
      * inversion Hord as [|? ? Htop Hrest]; subst.
        destruct (String.eqb_spec top ".."); [contradiction|].
        apply IH, Hrest.
    + change (e :: ord ++ repeat ".." k)%list with ((e :: ord) ++ repeat ".." k)%list.
      change (e :: ord ++ List.skipn k stk)%list with ((e :: ord) ++ List.skipn k stk)%list.
      apply IH. constructor; assumption.
Qed.


Lemma IsAbs_app dir rest :
  filepath.IsAbs dir = true -> filepath.IsAbs (dir ++ rest) = true.
Proof.
  unfold filepath.IsAbs. destruct dir as [|c dir]; [discriminate|].
  change (String c dir ++ rest) with (String c (dir ++ rest)).
  cbn [strings.HasPrefix]. exact id.
Qed.

Lemma startsWith_app pre rest : startsWith (pre ++ rest)%list pre = true.
Proof.
  induction pre as [|p pre IH]; simpl; [reflexivity|].
  now rewrite String.eqb_refl.
Qed.

Lemma rev_repeat_dotdot (x : string) k : rev (repeat x k) = repeat x k.
Proof.
  induction k as [|k IH]; simpl; [reflexivity|].
  rewrite IH. clear IH. induction k as [|k IH]; simpl; [reflexivity|].
  now rewrite IH.
Qed.

(** A relative name that leads outside the directory it is opened from is
    cleaned to a path that starts with a [..] element. *)
Lemma outside_elements_dotdot dir name :
  filepath.IsAbs dir = true -> filepath.IsAbs name = false ->
  resolvesOutside dir name = true ->
  exists rest, filepath.elements name = ".." :: rest.
Proof.
  intros Hdir Hname Hout. unfold resolvesOutside, locationOf in Hout.
  apply negb_true_iff in Hout.
  rewrite Hname in Hout. unfold filepath.elements in *.
  rewrite (IsAbs_app dir ("/" ++ name) Hdir), Hdir in Hout.
  rewrite Hname.
  change (dir ++ "/" ++ name) with (dir ++ String "/" name) in Hout.
  rewrite splitOn_app, fold_left_app in Hout.
  set (stk := fold_left (filepath.cleanStep true) (strings.splitOn "/" dir) []) in *.
  assert (Hstk : ordinary stk) by (apply fold_rooted_ordinary; constructor).
  destruct (clean_simulation stk (strings.splitOn "/" name) Hstk [] 0)
    as (ord & k & Hrel & Habs & Hord & _); [constructor|].
  simpl in Hrel. change (([] ++ drop 0 stk)%list) with stk in Habs.
  rewrite Habs in Hout. rewrite Hrel.
  destruct k as [|k].
  - simpl in Hout. rewrite rev_app_distr, startsWith_app in Hout.
    discriminate.
  - rewrite rev_app_distr, rev_repeat_dotdot. simpl. eauto.
Qed.

Lemma Join_starts elem rest sep :
  exists tail, strings.Join (elem :: rest) sep = elem ++ tail.
Proof.
  destruct rest as [|e rest]; simpl.
  - exists "". clear. induction elem as [|c elem IH]; [reflexivity|].
    change (String c elem ++ "") with (String c (elem ++ "")). congruence.
  - eauto.
Qed.

(** [sanitizePath] refuses such a name at its [..] check. *)
Lemma sanitizePath_outside wd dir name :
  filepath.IsAbs dir = true -> filepath.IsAbs name = false ->
  resolvesOutside dir name = true ->
  sanitizePath wd name dir = Err ("path contains '..': " ++ name).
Proof.
  intros Hdir Hname Hout.
  destruct (outside_elements_dotdot dir name Hdir Hname Hout) as [rest Hel].
  unfold sanitizePath, normalizedName, filepath.Clean. rewrite Hname, Hel.
  destruct (Join_starts ".." rest "/") as [tail ->]. simpl. reflexivity.
Qed.

End PathLemmas.

(** What [sanitizePath] accepts lies, made absolute, under the absolute
    extraction directory: its last check. *)
Lemma sanitizePath_accepted wd name dir p :
  sanitizePath wd name dir = Ok p ->
  exists baseAbs fullAbs,
    filepath.Abs wd dir = Ok baseAbs /\ filepath.Abs wd p = Ok fullAbs /\
    strings.HasPrefix fullAbs baseAbs = true.
Proof.
  unfold sanitizePath.
  destruct (strings.Contains _ ".."); [discriminate|].
  destruct (filepath.IsAbs _); [discriminate|].
  destruct (filepath.Abs wd dir) as [baseAbs|]; [|discriminate].
  destruct (filepath.Abs wd (filepath.Join _)) as [fullAbs|] eqn:Hfull;
    [|discriminate].
  destruct (strings.HasPrefix fullAbs baseAbs) eqn:Hprefix; [|discriminate].
  intros [= <-]. eauto.
Qed.

(** The loop of [ExtractUpload] changes the disk only at paths that
    [sanitizePath] accepted for an entry of the archive. *)
Lemma extractEntries_writes cfg env uploadID extractDir entries files :
  forall st st' r path,
  extractEntries cfg env uploadID extractDir entries files st = (st', r) ->
  disk (world st') !! path <> disk (world st) !! path ->
  exists file, file ∈ files /\
    sanitizePath (getwd env) (zip.Name file) extractDir = Ok path.
Proof.
  induction files as [|file files IH]; intros st st' r path Hrun Hdiff.
  - injection Hrun as <- _. contradiction.
  - assert (Hrest : forall st1,
      disk (world st1) !! path = disk (world st) !! path ->
      extractEntries cfg env uploadID extractDir entries files st1
        = (st', r) ->
      exists f, f ∈ file :: files /\
        sanitizePath (getwd env) (zip.Name f) extractDir = Ok path).
    { intros st1 Hsame Hrun1. rewrite <- Hsame in Hdiff.
      destruct (IH _ _ _ _ Hrun1 Hdiff) as (f & Hf & Hok).
      exists f. split; [now right|exact Hok]. }
    cbn [extractEntries] in Hrun.
    destruct (_ <=? _)%Z; [injection Hrun as <- _; contradiction|].
    destruct (sanitizePath (getwd env) (zip.Name file) extractDir)
      as [p|e] eqn:Hsan; [|eapply Hrest; [|exact Hrun]; reflexivity].
    destruct (_ <? _)%Z; [injection Hrun as <- _; contradiction|].
    destruct (decide (p = path)) as [->|Hne].
    { exists file. split; [left|exact Hsan]. }
    unfold extractFile in Hrun.
    destruct (entryFault env (zip.Name file) p); cbn iota beta in Hrun;
      (eapply Hrest; [|exact Hrun]); unfold warn; cbn [world disk];
      try reflexivity; now rewrite lookup_insert_ne.
Qed.


Section NormalizedNames.

Lemma splitOn_first_prefix sep s piece rest :
  strings.splitOn sep s = piece :: rest -> strings.HasPrefix s piece = true.
Proof.
  revert piece rest. induction s as [|c s IH]; intros piece rest; simpl.
  - now intros [= <- _].
  - destruct (Ascii.eqb c sep); [now intros [= <- _]|].
    destruct (strings.splitOn sep s) as [|p r] eqn:Hs; intros [= <- _].
    + cbn [strings.HasPrefix]. now rewrite Ascii.eqb_refl.
    + cbn [strings.HasPrefix]. now rewrite Ascii.eqb_refl, (IH p r).
Qed.

(** A piece between separators occurs in the string. *)
Lemma splitOn_piece_occurs sep s piece :
  In piece (strings.splitOn sep s) -> strings.Contains s piece = true.
Proof.
  induction s as [|c s IH]; cbn [strings.splitOn].
  - intros [<-|[]]. reflexivity.
  - destruct (Ascii.eqb c sep) eqn:Hc.
    + intros [<-|Hin]; [reflexivity|].
      cbn [strings.Contains]. rewrite (IH Hin). apply orb_true_r.
    + destruct (strings.splitOn sep s) as [|p r] eqn:Hs.
      * intros [<-|[]]. cbn [strings.Contains strings.HasPrefix].
        now rewrite Ascii.eqb_refl.
      * intros [<-|Hin].
        -- cbn [strings.Contains strings.HasPrefix].
           now rewrite Ascii.eqb_refl, (splitOn_first_prefix sep s p r Hs).
        -- cbn [strings.Contains]. rewrite IH by now right.
           apply orb_true_r.
Qed.




End NormalizedNames.



(** The normalization removes a leading separator before the checks: an
    entry named [/etc/passwd] normalizes to [etc/passwd], which lies below
    the extraction directory, and is written and recorded there. *)
Example absolute_name_is_rerooted :
  let file := zip.mkFile "/etc/passwd" 5 "root:" in
  let dir := "/data/extracted/u1" in
  normalizedName (zip.Name file) = "etc/passwd" /\
  resolvesOutside dir (normalizedName (zip.Name file)) = false /\
  sanitizePath None (zip.Name file) dir = Ok "/data/extracted/u1/etc/passwd" /\
  exists st',
    extractEntries demoCfg demoExtractEnv 1 dir 1 [file] demoState
      = (st', Ok tt) /\
    map Extraction.FilePath (extractedFiles st')
      = ["/data/extracted/u1/etc/passwd"] /\
    disk (world st') !! "/data/extracted/u1/etc/passwd" = Some "root:".
Proof.
  split; [vm_compute; reflexivity|]. split; [vm_compute; reflexivity|].
  split; [vm_compute; reflexivity|].
  eexists. split; [vm_compute; reflexivity|].
  split; vm_compute; reflexivity.
Qed.

(** * Archive extraction: the size limit *)

Section SizeLimit.

Local Open Scope Z_scope.

Variables (cfg : config.Config) (env : ExtractEnv) (uploadID : Z)
  (extractDir : string) (entries : Z).

Local Abbreviation maxSize := (config.MaxExtractionSize (config.Upload cfg)).


Lemma int64_small x : - 2 ^ 63 <= x < 2 ^ 63 -> int64 x = x.
Proof. intros. unfold int64. rewrite Z.mod_small; lia. Qed.


(** Saving a record that carries the upload's identifier and the primary
    key of the stored one makes it the stored one. *)
Lemma importOf_SaveImport d r r' :
  importOf uploadID d = Some r ->
  ImportRecord.ID r' = ImportRecord.ID r ->
  ImportRecord.UploadID r' = uploadID ->
  importOf uploadID (database.SaveImport r' d) = Some r'.
Proof.
  unfold importOf, database.SaveImport, database.First. simpl.
  intros Hfind Hid Hup. induction (database.imports d) as [|x rows IH];
    simpl in *; [discriminate|].
  destruct (ImportRecord.UploadID x =? uploadID) eqn:Hx.
  - injection Hfind as ->. rewrite Hid, Z.eqb_refl. simpl.
    now rewrite Hup, Z.eqb_refl.
  - destruct (ImportRecord.ID x =? ImportRecord.ID r') eqn:Hxid; simpl.
    + now rewrite Hup, Z.eqb_refl.
    + rewrite Hx. now apply IH.
Qed.




Lemma extractEntries_extractions files : forall st st' r,
  extractEntries cfg env uploadID extractDir entries files st = (st', r) ->
  database.extractions (db (world st')) = database.extractions (db (world st)).
Proof.
  induction files as [|file files IH]; intros st st' r Hrun.
  - simpl in Hrun. now injection Hrun as <- _.
  - cbn [extractEntries] in Hrun.
    destruct (config.MaxExtractedFiles (config.Upload cfg) <=? fileCount st).
    { now injection Hrun as <- _. }
    destruct (sanitizePath (getwd env) (zip.Name file) extractDir) as [p|e].
    2:{ now rewrite (IH _ _ _ Hrun). }
    destruct (_ <? _). { now injection Hrun as <- _. }
    destruct (extractFile _ file p (disk (world st))) as [d [[]|e]];
      now rewrite (IH _ _ _ Hrun).
Qed.

End SizeLimit.




(** * Export parsing: the walk over the conversation tree *)

Section TreeWalk.

(** Induction over a tree with the hypothesis for every child. *)
Lemma Tree_ind (P : Tree -> Prop) :
  (forall key payload kids, Forall P kids -> P (TNode key payload kids)) ->
  forall t, P t.
Proof.
  intros step. fix self 1. intros [key payload kids]. apply step.
  induction kids as [|kid kids IH]; constructor; [apply self|exact IH].
Qed.

Variables (clock : Z -> time.Time)
  (mapping : gmap string MessageNode.t) (conversationID : Z).

Lemma recordsFrom_app index l1 l2 :
  recordsFrom clock conversationID index (l1 ++ l2)
  = (recordsFrom clock conversationID index l1
     ++ recordsFrom clock conversationID (index + Z.of_nat (length l1)) l2)%list.
Proof.
  revert index. induction l1 as [|m l1 IH]; intros index; simpl.
  - now rewrite Z.add_0_r.
  - rewrite IH. do 3 f_equal. lia.
Qed.

Lemma recordsFrom_length index l :
  length (recordsFrom clock conversationID index l) = length l.
Proof. revert index. induction l; intros; simpl; auto. Qed.

Lemma holds_kid parent key payload kids kid :
  holds mapping parent (TNode key payload kids) -> kid ∈ kids ->
  holds mapping (Some key) kid.
Proof.
  intros Hholds Hin k node Hnode. apply Hholds. simpl.
  apply elem_of_cons. right. apply list_elem_of_In, in_flat_map.
  exists kid. split; now apply list_elem_of_In.
Qed.

(** With a call stack deeper than the tree is high, the walk from the root
    of [t] returns, having appended the records of the payloads it reaches
    in pre-order, numbered from the index it started with. *)
Lemma traverse_tree t : forall parent fuel messages index,
  holds mapping parent t -> (height t <= fuel)%nat ->
  traverseMessages fuel clock mapping conversationID (rootKey t)
    (messages, index)
  = Some ((messages ++ recordsFrom clock conversationID index (reached t))%list,
          (index + Z.of_nat (length (reached t)))%Z).
Proof.
  induction t as [key payload kids IH] using Tree_ind.
  intros parent fuel messages index Hholds Hfuel.
  destruct fuel as [|fuel]; [simpl in Hfuel; lia|].
  simpl in Hfuel. apply le_S_n in Hfuel.
  assert (Hkids : forall messages index,
    forEach (traverseMessages fuel clock mapping conversationID)
      (map rootKey kids) (messages, index)
    = Some ((messages
             ++ recordsFrom clock conversationID index
                  (flat_map reached kids))%list,
            (index + Z.of_nat (length (flat_map reached kids)))%Z)).
  { assert (Hk : forall kid, kid ∈ kids -> holds mapping (Some key) kid)
      by (intros kid Hin; eapply holds_kid; eauto).
    clear Hholds. induction kids as [|kid kids IHkids];
      intros msgs idx; simpl.
    - now rewrite app_nil_r, Z.add_0_r.
    - inversion IH as [|? ? IHkid IHrest]; subst.
      simpl in Hfuel.
      rewrite (IHkid (Some key) fuel msgs idx); [|apply Hk; left|lia].
      rewrite IHkids; [|exact IHrest|lia|intros; apply Hk; now right].
      rewrite recordsFrom_app, length_app, <- app_assoc.
      do 2 f_equal. lia. }
  cbn [traverseMessages rootKey].
  rewrite (Hholds key (MessageNode.mk key payload parent (map rootKey kids)))
    by (simpl; left).
  cbn [MessageNode.Message MessageNode.Children reached].
  destruct payload as [msg|].
  - unfold isFinished.
    destruct (String.eqb (MessageData.Status msg) "finished_successfully");
      cbn [negb].
    + rewrite Hkids. cbn [app recordsFrom length].
      rewrite <- app_assoc. cbn [app]. do 2 f_equal. lia.
    + rewrite Hkids. reflexivity.
  - simpl. now rewrite app_nil_r, Z.add_0_r.
Qed.

End TreeWalk.

Section TreeEncoding.

Lemma nodesOf_keys_kids parent (kids : list Tree) :
  map fst (flat_map (nodesOf parent) kids)
  = flat_map (fun kid => map fst (nodesOf parent kid)) kids.
Proof.
  induction kids as [|kid kids IH]; simpl; [reflexivity|].
  now rewrite map_app, IH.
Qed.

(** The keys of the finished nodes are among the keys of the tree, in the
    same order. *)
Lemma finishedNodes_sublist t : forall parent,
  map fst (finishedNodes t) `sublist_of` map fst (nodesOf parent t).
Proof.
  induction t as [key payload kids IH] using Tree_ind. intros parent.
  cbn [finishedNodes nodesOf map]. rewrite map_app.
  assert (Hkids : map fst (flat_map finishedNodes kids)
                  `sublist_of` map fst (flat_map (nodesOf (Some key)) kids)).
  { induction kids as [|kid kids IHkids]; simpl; [constructor|].
    inversion IH; subst. rewrite !map_app.
    apply sublist_app; auto. }
  destruct payload as [msg|]; [destruct (isFinished msg)|]; simpl.
  - now apply sublist_skip.
  - now apply sublist_cons.
  - now apply sublist_cons.
Qed.

Lemma finishedNodes_NoDup t :
  NoDup (keysOf t) -> NoDup (map fst (finishedNodes t)).
Proof.
  intros Hnodup. eapply sublist_NoDup; [exact Hnodup|].
  apply finishedNodes_sublist.
Qed.

(** A finished node of the tree is a node of the encoding with that
    payload, and conversely. *)
Lemma finishedNodes_spec t : forall parent key msg,
  (key, msg) ∈ finishedNodes t <->
  exists node, (key, node) ∈ nodesOf parent t /\
               MessageNode.Message node = Some msg /\ isFinished msg = true.
Proof.
  induction t as [k payload kids IH] using Tree_ind. intros parent key msg.
  cbn [finishedNodes nodesOf].
  assert (Hkids : (key, msg) ∈ flat_map finishedNodes kids <->
    exists node, (key, node) ∈ flat_map (nodesOf (Some k)) kids /\
                 MessageNode.Message node = Some msg /\ isFinished msg = true).
  { clear payload parent. induction kids as [|kid kids IHkids]; simpl.
    - split; [intros H; inversion H|intros (? & H & _); inversion H].
    - inversion IH as [|? ? IHkid IHrest]; subst.
      rewrite elem_of_app, (IHkid (Some k)), (IHkids IHrest).
      split.
      + intros [(node & ? & ?)|(node & ? & ?)]; exists node;
          rewrite elem_of_app; auto.
      + intros (node & Hin & ?). apply elem_of_app in Hin as [?|?];
          [left|right]; eauto. }
  rewrite elem_of_app, Hkids. split.
  - intros [Hhead|(node & Hin & Hrest)].
    + destruct payload as [m|]; [|inversion Hhead].
      destruct (isFinished m) eqn:Hfin; [|inversion Hhead].
      apply list_elem_of_singleton in Hhead. injection Hhead as -> ->.
      eexists. split; [left|]. auto.
    + exists node. split; [now right|assumption].
  - intros (node & Hin & Hmsg & Hfin).
    apply elem_of_cons in Hin as [Heq|Hin].
    + injection Heq as -> ->. simpl in Hmsg. subst payload.
      rewrite Hfin. left. left.
    + right. eauto.
Qed.

(** When every node carries a payload the walk reaches every finished
    node. *)
Lemma reached_all t :
  allCarryPayload t = true -> reached t = map snd (finishedNodes t).
Proof.
  induction t as [key payload kids IH] using Tree_ind. simpl.
  intros Hall. apply andb_true_iff in Hall as [Hp Hkids].
  destruct payload as [msg|]; [|discriminate]. rewrite map_app.
  assert (Hflat : flat_map reached kids
                  = map snd (flat_map finishedNodes kids)).
  { clear Hp. induction kids as [|kid kids IHkids]; simpl; [reflexivity|].
    inversion IH; subst. simpl in Hkids.
    apply andb_true_iff in Hkids as [Hkid Hrest].
    rewrite map_app. f_equal; auto. }
  rewrite Hflat. now destruct (isFinished msg).
Qed.

Lemma mappingOf_holds t :
  NoDup (keysOf t) -> holds (mappingOf t) None t.
Proof.
  intros Hnodup key node Hin. unfold mappingOf.
  now apply elem_of_list_to_map_1.
Qed.

Lemma mappingOf_lookup t key node :
  NoDup (keysOf t) ->
  mappingOf t !! key = Some node <-> (key, node) ∈ nodesOf None t.
Proof. intros Hnodup. unfold mappingOf. symmetry. now apply elem_of_list_to_map. Qed.

End TreeEncoding.

(** C2 (as amended): on a mapping that encodes a tree with distinct keys in
    which every node carries a payload, the recursion of [traverseMessages]
    returns once the call stack is at least as deep as the tree is high, and
    the records it appends are those of the finished nodes in pre-order,
    one for each finished node of the mapping. *)
Theorem C2_tree_walk_returns_each_finished_node_once t clock conversationID
  fuel messages index :
  NoDup (keysOf t) ->
  allCarryPayload t = true ->
  (height t <= fuel)%nat ->
  traverseMessages fuel clock (mappingOf t) conversationID (rootKey t)
    (messages, index)
  = Some ((messages
           ++ recordsFrom clock conversationID index
                (map snd (finishedNodes t)))%list,
          (index + Z.of_nat (length (finishedNodes t)))%Z) /\
  NoDup (map fst (finishedNodes t)) /\
  forall key msg,
    (key, msg) ∈ finishedNodes t <->
    exists node, mappingOf t !! key = Some node /\
                 MessageNode.Message node = Some msg /\
                 isFinished msg = true.
Proof.
  intros Hnodup Hall Hfuel. split; [|split].
  - rewrite (traverse_tree clock (mappingOf t) conversationID t None fuel
               messages index (mappingOf_holds t Hnodup) Hfuel).
    rewrite (reached_all t Hall), length_map. reflexivity.
  - now apply finishedNodes_NoDup.
  - intros key msg. rewrite (finishedNodes_spec t None).
    split; intros (node & Hin & Hrest); exists node; split; try assumption;
      now apply (mappingOf_lookup t key node Hnodup).
Qed.

Lemma C2_tree_walk_returns_each_finished_node_once_witness :
  NoDup (keysOf demoTree) /\
  allCarryPayload demoTree = true /\
  (height demoTree <= 3)%nat /\
  traverseMessages 3 demoClock (mappingOf demoTree) 7 "n0" ([], 0%Z)
  = Some (recordsFrom demoClock 7 0 (map snd (finishedNodes demoTree)), 3%Z).
Proof.
  assert (H1 : NoDup (keysOf demoTree))
    by (apply (bool_decide_unpack _); vm_compute; exact I).
  assert (H2 : allCarryPayload demoTree = true) by reflexivity.
  assert (H3 : (height demoTree <= 3)%nat) by (vm_compute; lia).
  split; [exact H1|]. split; [exact H2|]. split; [exact H3|].
  exact (proj1 (C2_tree_walk_returns_each_finished_node_once demoTree
                  demoClock 7 3 [] 0%Z H1 H2 H3)).
Defined.

Lemma cyclic_walk_never_returns clock conversationID fuel : forall acc,
  traverseMessages fuel clock cyclicMapping conversationID "X" acc = None /\
  traverseMessages fuel clock cyclicMapping conversationID "Y" acc = None.
Proof.
  assert (HX : cyclicMapping !! "X"
               = Some (MessageNode.mk "X"
                         (Some (payload "mx" "user" "finished_successfully"
                                  "ping" (Some 1705312800%Z)))
                         None ["Y"])) by (vm_compute; reflexivity).
  assert (HY : cyclicMapping !! "Y"
               = Some (MessageNode.mk "Y"
                         (Some (payload "my" "assistant"
                                  "finished_successfully" "pong"
                                  (Some 1705312801%Z)))
                         (Some "X") ["X"])) by (vm_compute; reflexivity).
  induction fuel as [|fuel IH]; intros [messages index]; [split; reflexivity|].
  cbn [traverseMessages]. rewrite HX, HY.
  cbn [MessageNode.Message MessageNode.Children payload MessageData.Status
       String.eqb Ascii.eqb Bool.eqb negb forEach].
  split.
  - now rewrite (proj2 (IH _)).
  - now rewrite (proj1 (IH _)).
Qed.

(** C2 as stated fails: there is no set of visited nodes.  On a mapping in
    which X lists Y and Y lists X as child the recursion returns with no
    depth of call stack, and a finished node that two nodes list as child is
    emitted once for each of them. *)
Lemma C2_cycle_is_looped_on :
  (~ exists fuel result,
       traverseMessages fuel demoClock cyclicMapping 7 "X" ([], 0%Z)
       = Some result) /\
  (exists emitted,
     traverseMessages 4 demoClock sharedChildMapping 7 "R" ([], 0%Z)
     = Some (emitted, 2%Z) /\
     map Message.MessageID emitted = [Some "mc"; Some "mc"]).
Proof.
  split.
  - intros (fuel & result & Hrun).
    rewrite (proj1 (cyclic_walk_never_returns demoClock 7 fuel _)) in Hrun.
    discriminate.
  - eexists. split; vm_compute; reflexivity.
Qed.

(** * Export parsing: which node is taken as root *)

Section RootDiscovery.

Lemma rangesOver_elem {V} order (m : gmap string V) k :
  rangesOver order m -> k ∈ order <-> is_Some (m !! k).
Proof.
  intros [_ Hdom]. rewrite <- elem_of_dom, <- Hdom.
  now rewrite elem_of_list_to_set.
Qed.

(** When one key alone satisfies the test, a [range] with early exit finds
    it whatever order the runtime picks. *)
Lemma rangeFirst_unique order mapping p root :
  rangesOver order mapping ->
  (exists node, mapping !! root = Some node /\ p node = true) ->
  (forall key node, mapping !! key = Some node -> p node = true -> key = root) ->
  rangeFirst order mapping p = Some root.
Proof.
  intros Horder (node & Hroot & Hp) Honly. unfold rangeFirst.
  destruct (find _ order) as [key|] eqn:Hfind.
  - apply find_some in Hfind as [_ Htest].
    destruct (mapping !! key) as [n|] eqn:Hkey; [|discriminate].
    f_equal. eapply Honly; eassumption.
  - assert (Hin : In root order).
    { apply list_elem_of_In, (rangesOver_elem order mapping root Horder).
      now exists node. }
    pose proof (find_none _ _ Hfind root Hin) as Htest. simpl in Htest.
    rewrite Hroot in Htest. congruence.
Qed.

End RootDiscovery.

(** C9 (as amended): the code sorts nothing and breaks no tie; what makes
    root discovery reproducible is the input.  When exactly one node of the
    mapping has no parent, [findRootMessageID] and [processMessages] pick it
    whatever order the [range] statements visit the keys in, so two runs
    (reading the same clock) yield the same conversation identifier and the
    same messages. *)
Theorem C9_single_parentless_node_is_reproducible mapping root rootNode
  fuel clock conversationID order1 fallback1 process1 order2 fallback2
  process2 :
  mapping !! root = Some rootNode ->
  MessageNode.Parent rootNode = None ->
  (forall key node, mapping !! key = Some node ->
                    MessageNode.Parent node = None -> key = root) ->
  rangesOver order1 mapping -> rangesOver process1 mapping ->
  rangesOver order2 mapping -> rangesOver process2 mapping ->
  findRootMessageID order1 fallback1 mapping = root /\
  findRootMessageID order2 fallback2 mapping = root /\
  processMessages fuel clock process1 mapping conversationID
  = processMessages fuel clock process2 mapping conversationID.
Proof.
  intros Hroot Hnil Honly Ho1 Hp1 Ho2 Hp2.
  assert (Hfirst : forall order, rangesOver order mapping ->
            rangeFirst order mapping
              (fun node => isNil (MessageNode.Parent node)) = Some root).
  { intros order Horder. apply rangeFirst_unique; [exact Horder| |].
    - exists rootNode. split; [exact Hroot|]. now rewrite Hnil.
    - intros key node Hkey Hp. apply (Honly key node Hkey).
      now destruct (MessageNode.Parent node). }
  unfold findRootMessageID, processMessages.
  now rewrite (Hfirst order1 Ho1), (Hfirst order2 Ho2), (Hfirst process1 Hp1),
    (Hfirst process2 Hp2).
Qed.

Lemma C9_single_parentless_node_is_reproducible_witness :
  let m := mappingOf demoTree in
  findRootMessageID ["n0"; "n1"; "n2"; "n3"] [] m = "n0" /\
  findRootMessageID ["n3"; "n2"; "n1"; "n0"] [] m = "n0" /\
  processMessages 4 demoClock ["n0"; "n1"; "n2"; "n3"] m 7
  = processMessages 4 demoClock ["n2"; "n0"; "n3"; "n1"] m 7.
Proof.
  intros m.
  assert (Hkeys : forall key node, m !! key = Some node ->
                    MessageNode.Parent node = None -> key = "n0").
  { assert (Hnodup : NoDup (keysOf demoTree))
      by (apply (bool_decide_unpack _); vm_compute; exact I).
    intros key node Hkey Hnil.
    apply (mappingOf_lookup demoTree key node Hnodup) in Hkey.
    cbn in Hkey. repeat (apply elem_of_cons in Hkey as [Hkey|Hkey]);
      try (injection Hkey as -> ->; first [reflexivity|discriminate]).
    inversion Hkey. }
  assert (Hr : forall order, bool_decide (NoDup order) = true ->
                 bool_decide (list_to_set order =@{gset string} dom m) = true ->
                 rangesOver order m).
  { intros order H1 H2. split; [now apply bool_decide_eq_true in H1|].
    now apply bool_decide_eq_true in H2. }
  eapply (C9_single_parentless_node_is_reproducible m "n0" _ 4 demoClock 7
            ["n0"; "n1"; "n2"; "n3"] [] ["n0"; "n1"; "n2"; "n3"]
            ["n3"; "n2"; "n1"; "n0"] [] ["n2"; "n0"; "n3"; "n1"]).
  - vm_compute. reflexivity.
  - reflexivity.
  - exact Hkeys.
  - apply Hr; vm_compute; reflexivity.
  - apply Hr; vm_compute; reflexivity.
  - apply Hr; vm_compute; reflexivity.
  - apply Hr; vm_compute; reflexivity.
Defined.

(** C9 as stated fails: with two parentless nodes the node taken as root,
    and with it the conversation identifier and the messages, follow the
    order in which the runtime happens to visit the map. *)
Lemma C9_two_parentless_nodes_depend_on_order :
  rangesOver ["a"; "b"] twoRootsMapping /\
  rangesOver ["b"; "a"] twoRootsMapping /\
  findRootMessageID ["a"; "b"] ["a"; "b"] twoRootsMapping = "a" /\
  findRootMessageID ["b"; "a"] ["b"; "a"] twoRootsMapping = "b" /\
  (map Message.MessageID <$>
     processMessages 4 demoClock ["a"; "b"] twoRootsMapping 7)
    = Some [Some "ma"] /\
  (map Message.MessageID <$>
     processMessages 4 demoClock ["b"; "a"] twoRootsMapping 7)
    = Some [Some "mb"].
Proof.
  split; [|split].
  - split; apply (bool_decide_unpack _); vm_compute; exact I.
  - split; apply (bool_decide_unpack _); vm_compute; exact I.
  - repeat split; vm_compute; reflexivity.
Qed.

(** * Export parsing: [processMessages] on a tree *)

Section ProcessTree.

Lemma nodesOf_child_has_parent t : forall p key node,
  (key, node) ∈ nodesOf (Some p) t -> MessageNode.Parent node <> None.
Proof.
  induction t as [k payload kids IH] using Tree_ind. intros p key node Hin.
  cbn [nodesOf] in Hin. apply elem_of_cons in Hin as [Heq|Hin].
  - injection Heq as -> ->. discriminate.
  - apply list_elem_of_In, in_flat_map in Hin as (kid & Hkid & Hin).
    rewrite Forall_forall in IH.
    apply (IH kid (proj2 (list_elem_of_In _ _) Hkid) k key node).
    now apply list_elem_of_In.
Qed.

(** In the encoding of a tree the root alone has no parent. *)
Lemma nodesOf_only_root t key node :
  (key, node) ∈ nodesOf None t -> MessageNode.Parent node = None ->
  key = rootKey t.
Proof.
  destruct t as [k payload kids]. cbn [nodesOf rootKey]. intros Hin Hnil.
  apply elem_of_cons in Hin as [Heq|Hin]; [now injection Heq|].
  apply list_elem_of_In, in_flat_map in Hin as (kid & _ & Hin).
  apply list_elem_of_In in Hin.
  now apply nodesOf_child_has_parent in Hin.
Qed.

Lemma recordsFrom_indices clock conversationID l : forall index,
  map Message.MessageIndex (recordsFrom clock conversationID index l)
  = map (fun k => (index + Z.of_nat k)%Z) (seq 0 (length l)).
Proof.
  induction l as [|msg l IH]; intros index; simpl; [reflexivity|].
  rewrite Z.add_0_r. f_equal. rewrite IH, <- seq_shift, map_map.
  apply map_ext. intros k. lia.
Qed.

Lemma recordsFrom_sorted clock conversationID l : forall index,
  Forall (fun m => (index <= Message.MessageIndex m)%Z)
    (recordsFrom clock conversationID index l) /\
  StronglySorted
    (fun a b => (Message.MessageIndex a <= Message.MessageIndex b)%Z)
    (recordsFrom clock conversationID index l).
Proof.
  induction l as [|msg l IH]; intros index; simpl.
  - split; constructor.
  - destruct (IH (index + 1)%Z) as [Hge Hsorted]. split.
    + constructor; [simpl; lia|].
      eapply Forall_impl; [exact Hge|]. simpl. intros. lia.
    + constructor; [exact Hsorted|].
      eapply Forall_impl; [exact Hge|]. simpl. intros. lia.
Qed.

(** On the encoding of a tree with distinct keys and a non-empty root key,
    [processMessages] returns the records of the payloads the walk reaches,
    numbered 0, 1, 2, ... in pre-order, whatever order the map is visited
    in. *)
Lemma processMessages_tree t clock conversationID order fuel :
  NoDup (keysOf t) -> rootKey t <> "" ->
  rangesOver order (mappingOf t) -> (height t <= fuel)%nat ->
  processMessages fuel clock order (mappingOf t) conversationID
  = Some (recordsFrom clock conversationID 0 (reached t)).
Proof.
  intros Hnodup Hroot Horder Hfuel. unfold processMessages.
  rewrite (rangeFirst_unique order (mappingOf t) _ (rootKey t) Horder).
  - destruct (String.eqb_spec (rootKey t) ""); [contradiction|].
    rewrite (traverse_tree clock (mappingOf t) conversationID t None fuel
               [] 0%Z (mappingOf_holds t Hnodup) Hfuel).
    cbn [app]. f_equal. apply (sortSlice_ordered Message.MessageIndex).
    apply recordsFrom_sorted.
  - destruct t as [k payload kids]. eexists. split.
    + apply mappingOf_holds; [exact Hnodup|]. cbn [nodesOf]. left.
    + reflexivity.
  - intros key node Hkey Hnil.
    apply (mappingOf_lookup t key node Hnodup) in Hkey.
    apply (nodesOf_only_root t key node Hkey).
    now destruct (MessageNode.Parent node).
Qed.

(** With a payload on every node these are the finished nodes, all of them,
    with the indices 0 .. N-1. *)
Corollary processMessages_tree_indices t clock conversationID order fuel :
  NoDup (keysOf t) -> rootKey t <> "" -> allCarryPayload t = true ->
  rangesOver order (mappingOf t) -> (height t <= fuel)%nat ->
  exists records,
    processMessages fuel clock order (mappingOf t) conversationID
      = Some records /\
    records = recordsFrom clock conversationID 0 (map snd (finishedNodes t)) /\
    map Message.MessageIndex records
      = map Z.of_nat (seq 0 (length (finishedNodes t))).
Proof.
  intros Hnodup Hroot Hall Horder Hfuel. eexists. split; [|split].
  - now apply processMessages_tree.
  - now rewrite reached_all.
  - rewrite reached_all, recordsFrom_indices, length_map by assumption.
    reflexivity.
Qed.

End ProcessTree.

(** C3, the code at the failing input: the root of the tree has no message
    payload (as in every real export), its child carries a finished one.
    [processMessages] returns no record, the conversation has one finished
    node. *)
Theorem C3_null_root_emits_nothing :
  processMessages 8 demoClock ["root"; "a"] (mappingOf nullRootTree) 7
    = Some [] /\
  processMessages 8 demoClock ["a"; "root"] (mappingOf nullRootTree) 7
    = Some [] /\
  map fst (finishedNodes nullRootTree) = ["a"].
Proof. repeat split; vm_compute; reflexivity. Qed.

(** * Export parsing: a conversation that is already stored *)

Section Reparse.




End Reparse.



(** * Date threads *)

Section Grouping.

Lemma dateBucket_app date l1 l2 :
  dateBucket date (l1 ++ l2) = (dateBucket date l1 ++ dateBucket date l2)%list.
Proof. apply List.filter_app. Qed.

(** After the grouping loop the map holds, for each date, the messages of
    that date in their original order, and no empty bucket. *)
Lemma groupByDate_lookup l date :
  groupByDate l !! date
  = match dateBucket date l with [] => None | b => Some b end.
Proof.
  unfold groupByDate.
  enough (H : forall (seen : list Message.t)
                     (acc : gmap string (list Message.t)),
    (forall date, acc !! date
       = match dateBucket date seen with [] => None | b => Some b end) ->
    fold_left
      (fun byDate msg =>
         let date := time.FormatDate (Message.Timestamp msg) in
         <[date := (default [] (byDate !! date) ++ [msg])%list]> byDate)
      l acc !! date
    = match dateBucket date (seen ++ l) with [] => None | b => Some b end).
  { apply (H [] ∅). intros. simpl. apply lookup_empty. }
  induction l as [|msg l IH]; intros seen acc Hacc.
  - simpl. now rewrite app_nil_r.
  - cbn [fold_left].
    replace (seen ++ msg :: l)%list with ((seen ++ [msg]) ++ l)%list
      by now rewrite <- app_assoc.
    apply IH. intros dt. rewrite dateBucket_app.
    destruct (String.eqb_spec (time.FormatDate (Message.Timestamp msg)) dt)
      as [<-|Hne].
    + rewrite lookup_insert_eq, Hacc. unfold dateBucket at 3. simpl.
      rewrite String.eqb_refl.
      destruct (dateBucket _ seen); reflexivity.
    + rewrite lookup_insert_ne, Hacc by exact Hne.
      unfold dateBucket at 3. simpl.
      destruct (String.eqb_spec (time.FormatDate (Message.Timestamp msg)) dt);
        [contradiction|].
      now rewrite app_nil_r.
Qed.

Lemma groupByDate_bucket l date msgs :
  groupByDate l !! date = Some msgs ->
  msgs = dateBucket date l /\ msgs <> [].
Proof.
  rewrite groupByDate_lookup. destruct (dateBucket date l); [discriminate|].
  intros [= <-]. split; [reflexivity|discriminate].
Qed.

Lemma elem_of_dateBucket date l m :
  m ∈ dateBucket date l <->
  m ∈ l /\ time.FormatDate (Message.Timestamp m) = date.
Proof.
  unfold dateBucket. rewrite !list_elem_of_In, List.filter_In.
  now rewrite String.eqb_eq.
Qed.

End Grouping.

Section ThreadLoop.

Variables (d : database.DB) (conversationID : Z)
  (byDate : gmap string (list Message.t)).

(** What the loop over the date buckets adds to the slice of threads. *)
Lemma threadsForDates_spec order : forall acc result,
  threadsForDates d conversationID byDate order acc = Ok result ->
  exists added,
    result = (acc ++ added)%list /\
    map Thread.Date added `sublist_of` order /\
    Forall (builtFrom d conversationID byDate) added.
Proof.
  induction order as [|date order IH]; intros acc result Hrun.
  - injection Hrun as <-. exists []. rewrite app_nil_r.
    repeat split; constructor.
  - cbn [threadsForDates] in Hrun.
    assert (Hskip : forall result,
      threadsForDates d conversationID byDate order acc = Ok result ->
      exists added,
        result = (acc ++ added)%list /\
        map Thread.Date added `sublist_of` date :: order /\
        Forall (builtFrom d conversationID byDate) added).
    { intros res Hres. destruct (IH _ _ Hres) as (added & ? & ? & ?).
      exists added. repeat split; try assumption. now apply sublist_cons. }
    destruct (byDate !! date) as [[|m0 msgs0]|] eqn:Hbucket;
      [now apply Hskip| |now apply Hskip].
    destruct (database.First _ (database.threads d)) eqn:Hexisting;
      [now apply Hskip|].
    destruct (sortSlice byTimestamp (m0 :: msgs0)) as [|startMsg rest]
      eqn:Hsorted; [now apply Hskip|].
    cbv zeta in Hrun.
    match type of Hrun with
    | context [negb ?b1 || negb ?b2] =>
        destruct b1 eqn:Hs; [|discriminate];
        destruct b2 eqn:He; [|discriminate]
    end.
    apply Z.eqb_eq in Hs, He. cbn [negb orb] in Hrun.
    destruct (time.After _ _); [discriminate|].
    destruct (IH _ _ Hrun) as (added & -> & Hsub & Hall).
    eexists (_ :: added). split; [now rewrite <- app_assoc|].
    split; [now apply sublist_skip|].
    constructor; [|exact Hall].
    unfold builtFrom. cbn [Thread.ConversationID Thread.Date
      Thread.StartMessageID Thread.EndMessageID Thread.StartTimestamp
      Thread.EndTimestamp Thread.MessageCount].
    split; [reflexivity|]. split; [exact Hexisting|].
    exists (m0 :: msgs0), startMsg, rest.
    split; [exact Hbucket|]. split; [exact Hsorted|].
    cbv zeta. repeat apply conj; try reflexivity; assumption.
Qed.

End ThreadLoop.

Section ThreadStore.

Lemma batches_concat {A} fuel size (l : list A) :
  concat (batches fuel size l) = l.
Proof.
  revert l. induction fuel as [|fuel IH]; intros [|x l]; try reflexivity.
  - simpl. now rewrite app_nil_r.
  - cbn [batches concat]. rewrite IH. apply take_drop.
Qed.

Lemma storedAs_fields s x :
  storedAs s x ->
  Thread.ConversationID s = Thread.ConversationID x /\
  Thread.Date s = Thread.Date x /\
  Thread.MessageCount s = Thread.MessageCount x /\
  Thread.StartMessageID s = Thread.StartMessageID x /\
  Thread.EndMessageID s = Thread.EndMessageID x /\
  Thread.StartTimestamp s = Thread.StartTimestamp x /\
  Thread.EndTimestamp s = Thread.EndTimestamp x.
Proof.
  destruct s, x. unfold storedAs. cbn. intros [= -> -> -> -> -> -> ->].
  repeat split.
Qed.

Lemma number_storedAs next rows :
  Forall2 storedAs (database.number Thread.withID next rows) rows.
Proof.
  revert next. induction rows as [|r rows IH]; intros next; simpl;
    constructor; [now destruct r|apply IH].
Qed.

(** The batch writes append to the thread table, in order, the rows of the
    slices written before the first failure and touch no other table. *)
Lemma CreateInBatches_threads fails slices : forall k d d' ok,
  database.CreateInBatches database.CreateThreads fails k slices d = (d', ok) ->
  exists saved kept dropped,
    database.threads d' = (database.threads d ++ saved)%list /\
    concat slices = (kept ++ dropped)%list /\
    Forall2 storedAs saved kept /\
    database.messages d' = database.messages d /\
    (ok = true -> dropped = []).
Proof.
  induction slices as [|slice slices IH]; intros k d d' ok Hrun;
    cbn [database.CreateInBatches] in Hrun.
  - injection Hrun as <- _. exists [], [], []. rewrite app_nil_r.
    repeat split; constructor.
  - destruct (fails k).
    + injection Hrun as <- <-. exists [], [], (concat (slice :: slices)).
      rewrite app_nil_r. split; [reflexivity|]. split; [reflexivity|].
      split; [constructor|]. split; [reflexivity|discriminate].
    + destruct (IH _ _ _ _ Hrun)
        as (saved & kept & dropped & Ht & Hc & Hs & Hm & Hok).
      eexists (_ ++ saved)%list, (slice ++ kept)%list, dropped.
      split; [rewrite Ht; cbn; now rewrite <- app_assoc|].
      split; [cbn; now rewrite Hc, app_assoc|].
      split; [apply Forall2_app; [apply number_storedAs|exact Hs]|].
      split; [exact Hm|exact Hok].
Qed.

Lemma builtFrom_storedAs d conversationID byDate s x :
  storedAs s x -> builtFrom d conversationID byDate x ->
  builtFrom d conversationID byDate s.
Proof.
  intros Hsx. destruct (storedAs_fields s x Hsx)
    as (Hc & Hd & Hn & Hs & He & Hst & Het).
  unfold builtFrom. now rewrite Hc, Hd, Hn, Hs, He, Hst, Het.
Qed.

(** One run of [createThreadsForConversation]: the threads it stores are
    appended to the table, each built from a date bucket of the
    conversation's messages that had no thread, their dates in the order
    the buckets were visited. *)
Lemma createThreads_spec order fails conversationID d d' r :
  createThreadsForConversation order fails conversationID d = (d', r) ->
  exists added,
    database.threads d' = (database.threads d ++ added)%list /\
    database.messages d' = database.messages d /\
    map Thread.Date added `sublist_of` order /\
    Forall (builtFrom d conversationID
              (groupByDate (messagesOf conversationID d))) added.
Proof.
  unfold createThreadsForConversation. fold (messagesOf conversationID d).
  intros Hrun.
  assert (Hnone : (d', r) = (d', r) -> d' = d ->
    exists added,
      database.threads d' = (database.threads d ++ added)%list /\
      database.messages d' = database.messages d /\
      map Thread.Date added `sublist_of` order /\
      Forall (builtFrom d conversationID
                (groupByDate (messagesOf conversationID d))) added).
  { intros _ ->. exists []. rewrite app_nil_r. repeat split; try constructor.
    apply sublist_nil_l. }
  destruct (messagesOf conversationID d) as [|m0 ms] eqn:Hmsgs.
  { injection Hrun as <- _. now apply Hnone. }
  destruct (threadsForDates _ _ _ order []) as [new|e] eqn:Hloop.
  2:{ injection Hrun as <- _. now apply Hnone. }
  apply threadsForDates_spec in Hloop as (added & -> & Hsub & Hall).
  cbn [app] in Hrun.
  destruct (database.CreateInBatches _ fails 0 _ d) as [d1 ok] eqn:Hsave.
  apply CreateInBatches_threads in Hsave
    as (saved & kept & dropped & Ht & Hc & Hs & Hm & _).
  rewrite batches_concat in Hc. subst added.
  assert (d' = d1) as -> by (destruct ok; now injection Hrun).
  exists saved. split; [exact Ht|]. split; [exact Hm|].
  assert (Hdates : map Thread.Date saved = map Thread.Date kept).
  { clear -Hs. induction Hs as [|s x ? ? Hsx]; simpl; [reflexivity|].
    f_equal; [apply (storedAs_fields s x Hsx)|assumption]. }
  split.
  - rewrite Hdates. etransitivity; [|exact Hsub]. rewrite map_app.
    apply sublist_inserts_r. reflexivity.
  - rewrite Forall_app in Hall. destruct Hall as [Hkept _].
    clear -Hs Hkept. induction Hs as [|s x ? ? Hsx]; [constructor|].
    inversion Hkept; subst. constructor; [|auto].
    eapply builtFrom_storedAs; eassumption.
Qed.

End ThreadStore.

Section ThreadFacts.

Lemma messagesOf_elem conversationID d m :
  m ∈ messagesOf conversationID d <->
  m ∈ database.messages d /\ Message.ConversationID m = conversationID.
Proof.
  unfold messagesOf.
  rewrite (sortSlice_perm Message.Timestamp), list_elem_of_filter.
  tauto.
Qed.

(** The ends of a built thread are messages of the conversation dated like
    the thread, the earliest and the latest of that date. *)
Lemma builtFrom_ends d conversationID x :
  builtFrom d conversationID (groupByDate (messagesOf conversationID d)) x ->
  exists s e,
    (s ∈ database.messages d /\ Message.ConversationID s = conversationID /\
     time.FormatDate (Message.Timestamp s) = Thread.Date x) /\
    (e ∈ database.messages d /\ Message.ConversationID e = conversationID /\
     time.FormatDate (Message.Timestamp e) = Thread.Date x) /\
    Thread.StartMessageID x = Some (Message.ID s) /\
    Thread.EndMessageID x = Some (Message.ID e) /\
    Thread.StartTimestamp x = Message.Timestamp s /\
    Thread.EndTimestamp x = Message.Timestamp e /\
    forall m, m ∈ database.messages d ->
              Message.ConversationID m = conversationID ->
              time.FormatDate (Message.Timestamp m) = Thread.Date x ->
              (Message.Timestamp s <= Message.Timestamp m
               <= Message.Timestamp e)%Z.
Proof.
  intros (_ & _ & msgs & s & rest & Hbucket & Hsorted & _ & _ & Hsid & Heid
          & Hst & Het & _).
  apply groupByDate_bucket in Hbucket as [-> _].
  apply (sortSlice_ends Message.Timestamp) in Hsorted as (Hs & He & Hall).
  assert (Hmember : forall m,
            m ∈ dateBucket (Thread.Date x) (messagesOf conversationID d) <->
            (m ∈ database.messages d /\
             Message.ConversationID m = conversationID) /\
            time.FormatDate (Message.Timestamp m) = Thread.Date x).
  { intros m. now rewrite elem_of_dateBucket, messagesOf_elem. }
  exists s, (List.last rest s).
  split; [apply Hmember in Hs; tauto|].
  split; [apply Hmember in He; tauto|].
  repeat (split; [assumption|]).
  intros m Hm Hc Hd. apply Hall, Hmember. tauto.
Qed.

End ThreadFacts.

Section Rerun.

Variables (conversationID : Z) (byDate : gmap string (list Message.t)).

Local Abbreviation threadFor d date :=
  (database.First
     (fun y => (Thread.ConversationID y =? conversationID)%Z &&
               String.eqb (Thread.Date y) date)
     (database.threads d)).



End Rerun.






(** C6 (as amended): the start and end references of every thread a run
    stores are messages of the thread's conversation, dated like the thread,
    with the earliest and the latest timestamp among the conversation's
    messages of that date (the code orders a bucket by timestamp, not by
    sequence index), and the start instant is not after the end instant. *)
Theorem C6_thread_ends_are_earliest_and_latest order fails conversationID
  d d' r added :
  createThreadsForConversation order fails conversationID d = (d', r) ->
  database.threads d' = (database.threads d ++ added)%list ->
  Forall (fun x =>
            Thread.ConversationID x = conversationID /\
            exists s e,
              (s ∈ database.messages d /\
               Message.ConversationID s = Thread.ConversationID x /\
               time.FormatDate (Message.Timestamp s) = Thread.Date x) /\
              (e ∈ database.messages d /\
               Message.ConversationID e = Thread.ConversationID x /\
               time.FormatDate (Message.Timestamp e) = Thread.Date x) /\
              Thread.StartMessageID x = Some (Message.ID s) /\
              Thread.EndMessageID x = Some (Message.ID e) /\
              Thread.StartTimestamp x = Message.Timestamp s /\
              Thread.EndTimestamp x = Message.Timestamp e /\
              (forall m, m ∈ database.messages d ->
                 Message.ConversationID m = Thread.ConversationID x ->
                 time.FormatDate (Message.Timestamp m) = Thread.Date x ->
                 (Message.Timestamp s <= Message.Timestamp m
                  <= Message.Timestamp e)%Z) /\
              (Thread.StartTimestamp x <= Thread.EndTimestamp x)%Z)
    added.
Proof.
  intros Hrun Hthreads.
  destruct (createThreads_spec _ _ _ _ _ _ Hrun)
    as (added' & Hthreads' & _ & _ & Hbuilt).
  rewrite Hthreads in Hthreads'. apply app_inv_head in Hthreads' as <-.
  eapply Forall_impl; [exact Hbuilt|]. intros x Hx.
  destruct (builtFrom_ends _ _ _ Hx)
    as (s & e & Hs & He & Hsid & Heid & Hst & Het & Hall).
  destruct Hx as (Hconv & _). split; [exact Hconv|].
  exists s, e. rewrite Hconv.
  split; [exact Hs|]. split; [exact He|].
  repeat (split; [assumption|]).
  rewrite Hst, Het.
  destruct Hs as (Hin & Hc & Hd). specialize (Hall s Hin Hc Hd). lia.
Qed.

Lemma C6_thread_ends_are_earliest_and_latest_witness :
  exists d1 x16 x15,
    createThreadsForConversation ["2024-01-16"; "2024-01-15"]
      (fun _ => false) 1 scenarioDB = (d1, Ok 2%Z) /\
    database.threads d1 = [x16; x15] /\
    (Thread.StartMessageID x15, Thread.EndMessageID x15, Thread.MessageCount x15)
      = (Some 1%Z, Some 3%Z, 3%Z) /\
    (Thread.StartMessageID x16, Thread.EndMessageID x16, Thread.MessageCount x16)
      = (Some 4%Z, Some 5%Z, 2%Z) /\
    (Thread.StartTimestamp x15 <= Thread.EndTimestamp x15)%Z /\
    (Thread.StartTimestamp x16 <= Thread.EndTimestamp x16)%Z.
Proof.
  destruct (createThreadsForConversation ["2024-01-16"; "2024-01-15"]
              (fun _ => false) 1 scenarioDB) as [d1 r1] eqn:Hrun.
  pose proof (fun added => C6_thread_ends_are_earliest_and_latest
                _ _ _ _ _ _ added Hrun) as Hends.
  vm_compute in Hrun. injection Hrun as <- <-.
  eexists _, _, _. split; [reflexivity|]. split; [reflexivity|].
  split; [reflexivity|]. split; [reflexivity|].
  specialize (Hends _ eq_refl).
  inversion Hends as [|x16 tl16 (_ & _ & _ & _ & _ & _ & _ & _ & _ & _ & H16)
                        Hrest]; subst.
  inversion Hrest as [|x15 tl15 (_ & _ & _ & _ & _ & _ & _ & _ & _ & _ & H15)
                        _]; subst.
  split; [exact H15|exact H16].
Defined.

(** C6 as stated fails where timestamps and sequence indices disagree: the
    message with sequence index 0 is stamped 12:00, the one with index 1 is
    stamped 11:00 of the same day; the thread starts at the second message
    and ends at the first. *)
Lemma C6_ends_are_not_by_sequence_index :
  exists d1 x,
    createThreadsForConversation ["2024-01-15"] (fun _ => false) 1
      outOfOrderDB = (d1, Ok 1%Z) /\
    database.threads d1 = [x] /\
    Message.ID <$> firstByIndex (dateBucket "2024-01-15"
                                   (database.messages outOfOrderDB))
      = Some 1%Z /\
    Message.ID <$> lastByIndex (dateBucket "2024-01-15"
                                  (database.messages outOfOrderDB))
      = Some 2%Z /\
    Thread.StartMessageID x = Some 2%Z /\
    Thread.EndMessageID x = Some 1%Z.
Proof.
  eexists _, _. split; [vm_compute; reflexivity|].
  split; [reflexivity|]. repeat split; vm_compute; reflexivity.
Qed.

(** * Upload: duplicate archives *)

Section DuplicateUpload.




End DuplicateUpload.



(** * Export parsing: the per-date files of user messages *)

Section DatePaths.

Lemma append_assoc (a b c : string) : (a ++ b) ++ c = a ++ b ++ c.
Proof.
  induction a as [|x a IH]; [reflexivity|].
  change (String x (a ++ b) ++ c = String x (a ++ b ++ c)).
  change (String x ((a ++ b) ++ c) = String x (a ++ b ++ c)). now rewrite IH.
Qed.

Lemma append_inv_head (a b c : string) : a ++ b = a ++ c -> b = c.
Proof.
  induction a as [|x a IH]; [trivial|].
  change (String x (a ++ b) = String x (a ++ c) -> b = c).
  intros [= H]. now apply IH.
Qed.

Lemma append_length (a b : string) :
  String.length (a ++ b) = (String.length a + String.length b)%nat.
Proof.
  induction a as [|x a IH]; [reflexivity|].
  change (S (String.length (a ++ b)) = S (String.length a + String.length b)).
  now rewrite IH.
Qed.

Lemma append_inv_tail (a b c : string) : a ++ c = b ++ c -> a = b.
Proof.
  revert b. induction a as [|x a IH]; intros [|y b] H.
  - reflexivity.
  - apply (f_equal String.length) in H. rewrite !append_length in H.
    cbn [String.length] in H. lia.
  - apply (f_equal String.length) in H. rewrite !append_length in H.
    cbn [String.length] in H. lia.
  - change (String x (a ++ c) = String y (b ++ c)) in H.
    injection H as -> H. f_equal. now apply IH.
Qed.

Lemma slashFree_app a b : slashFree (a ++ b) = slashFree a && slashFree b.
Proof.
  induction a as [|x a IH]; [reflexivity|].
  change (slashFree (String x (a ++ b))
          = slashFree (String x a) && slashFree b).
  cbn [slashFree]. now rewrite IH, andb_assoc.
Qed.

Lemma splitOn_slashFree s : slashFree s = true -> strings.splitOn "/" s = [s].
Proof.
  induction s as [|c s IH]; [reflexivity|]. cbn [slashFree strings.splitOn].
  intros H. apply andb_true_iff in H as [Hc Hs].
  apply negb_true_iff in Hc. rewrite Hc, (IH Hs). reflexivity.
Qed.

Lemma Join_snoc pre last sep :
  strings.Join (pre ++ [last]) sep
  = String.concat "" (map (fun e => e ++ sep) pre) ++ last.
Proof.
  induction pre as [|e pre IH]; [reflexivity|].
  cbn [app map String.concat strings.Join].
  destruct (pre ++ [last])%list as [|e' rest] eqn:Hrest.
  { now destruct pre. }
  rewrite IH. destruct pre as [|e2 pre]; cbn [map String.concat].
  - cbn. now rewrite append_assoc.
  - rewrite !append_assoc. reflexivity.
Qed.

(** A name with the suffix [.md] is an ordinary path element. *)
Lemma md_is_ordinary rooted out x :
  filepath.cleanStep rooted out (x ++ ".md") = (x ++ ".md") :: out.
Proof.
  unfold filepath.cleanStep.
  assert (Hlen : (3 <= String.length (x ++ ".md"))%nat)
    by (rewrite append_length; simpl; lia).
  destruct (String.eqb_spec (x ++ ".md") "") as [E|_];
    [rewrite E in Hlen; simpl in Hlen; lia|].
  destruct (String.eqb_spec (x ++ ".md") ".") as [E|_];
    [rewrite E in Hlen; simpl in Hlen; lia|].
  destruct (String.eqb_spec (x ++ ".md") "..") as [E|_];
    [rewrite E in Hlen; simpl in Hlen; lia|].
  reflexivity.
Qed.

(** The path of a date file is a prefix that the directory alone fixes,
    followed by the file name. *)
Lemma dateFile_shape dir : exists pre, forall x,
  slashFree x = true ->
  filepath.Join [dir; x ++ ".md"] = pre ++ x ++ ".md".
Proof.
  destruct dir as [|c dir].
  - exists "". intros x Hx. cbn [filepath.Join String.eqb].
    assert (Hne : String.eqb (x ++ ".md") "" = false).
    { destruct x; reflexivity. }
    rewrite Hne. cbn [strings.Join]. unfold filepath.Clean, filepath.elements.
    assert (Hfree : slashFree (x ++ ".md") = true)
      by (rewrite slashFree_app, Hx; reflexivity).
    assert (Habs : filepath.IsAbs (x ++ ".md") = false).
    { unfold filepath.IsAbs. destruct x as [|c x]; [reflexivity|].
      change (String c x ++ ".md") with (String c (x ++ ".md")) in *.
      cbn [strings.HasPrefix slashFree] in *.
      apply andb_true_iff in Hfree as [Hc _]. apply negb_true_iff in Hc.
      rewrite Ascii.eqb_sym, Hc. reflexivity. }
    rewrite Habs, (splitOn_slashFree _ Hfree). cbn [fold_left].
    rewrite md_is_ordinary. cbn [rev app strings.Join].
    destruct (String.eqb_spec (x ++ ".md") "") as [E|_]; [|reflexivity].
    destruct x; discriminate.
  - set (d := String c dir).
    set (rooted := filepath.IsAbs d).
    set (stk := fold_left (filepath.cleanStep rooted)
                  (strings.splitOn "/" d) []).
    exists ((if rooted then "/" else "")
            ++ String.concat "" (map (fun e => e ++ "/") (rev stk))).
    intros x Hx. unfold filepath.Join. subst d.
    cbn [String.eqb]. cbn [strings.Join]. unfold filepath.Separator.
    unfold filepath.Clean, filepath.elements.
    assert (Habs : filepath.IsAbs (String c dir ++ "/" ++ x ++ ".md")
                   = rooted) by reflexivity.
    rewrite Habs.
    change (String c dir ++ "/" ++ x ++ ".md")
      with (String c dir ++ String "/" (x ++ ".md")).
    rewrite splitOn_app, fold_left_app.
    rewrite (splitOn_slashFree (x ++ ".md"))
      by (rewrite slashFree_app, Hx; reflexivity).
    cbn [fold_left]. fold stk. rewrite md_is_ordinary. cbn [rev].
    rewrite Join_snoc. destruct rooted.
    + now rewrite append_assoc.
    + cbn [append]. 
      destruct (String.eqb_spec
                  (String.concat "" (map (fun e => e ++ "/") (rev stk))
                   ++ x ++ ".md") "") as [E|_]; [|reflexivity].
      apply (f_equal String.length) in E.
      rewrite !append_length in E. simpl in E. lia.
Qed.

(** Distinct dates go to distinct files. *)
Lemma dateFile_inj cfg date1 date2 :
  slashFree date1 = true -> slashFree date2 = true ->
  dateFile cfg date1 = dateFile cfg date2 -> date1 = date2.
Proof.
  intros H1 H2. unfold dateFile.
  destruct (dateFile_shape (config.MessagesDir (config.Directories cfg)))
    as [pre Hshape].
  rewrite (Hshape _ H1), (Hshape _ H2). intros H.
  apply append_inv_head in H. now apply append_inv_tail in H.
Qed.

End DatePaths.

Section DateStrings.

Lemma digit_not_slash d s :
  (0 <= d < 10)%Z -> slashFree (String (fmt.digit d) s) = slashFree s.
Proof.
  intros Hd.
  assert (Hcases : (d = 0 \/ d = 1 \/ d = 2 \/ d = 3 \/ d = 4 \/ d = 5 \/
                    d = 6 \/ d = 7 \/ d = 8 \/ d = 9)%Z) by lia.
  repeat (destruct Hcases as [->|Hcases]; [reflexivity|]).
  now subst.
Qed.

Lemma digits_slashFree fuel : forall n acc,
  slashFree (fmt.digits fuel n acc) = slashFree acc.
Proof.
  induction fuel as [|fuel IH]; intros n acc; [reflexivity|].
  cbn [fmt.digits].
  assert (Hd : (0 <= n mod 10 < 10)%Z) by (apply Z.mod_pos_bound; lia).
  destruct (n <? 10)%Z; [|rewrite IH]; now apply digit_not_slash.
Qed.

Lemma padded_slashFree width n : slashFree (fmt.padded width n) = true.
Proof.
  unfold fmt.padded, fmt.natural. rewrite slashFree_app, digits_slashFree.
  rewrite andb_true_r. induction (width - _)%nat; [reflexivity|assumption].
Qed.

(** A formatted date is a single path element. *)
Lemma FormatDate_slashFree t : slashFree (time.FormatDate t) = true.
Proof.
  unfold time.FormatDate. destruct (time.civil _) as [[y m] d].
  rewrite !slashFree_app, !padded_slashFree. unfold time.year4.
  destruct (y <? 0)%Z; [rewrite slashFree_app|];
    now rewrite padded_slashFree.
Qed.

End DateStrings.

(** The grouping loop of the parser groups the user messages as the loop
    of the thread service would. *)
Lemma groupUserMessages_filter messages :
  groupUserMessages messages
  = groupByDate (filter (fun m => isUser m = true) messages).
Proof.
  unfold groupUserMessages, groupByDate.
  generalize (∅ : gmap string (list Message.t)).
  induction messages as [|msg messages IH]; intros acc; [reflexivity|].
  cbn [fold_left]. rewrite filter_cons.
  destruct (isUser msg) eqn:Huser.
  - rewrite decide_True by reflexivity. cbn [fold_left]. apply IH.
  - rewrite decide_False by discriminate. apply IH.
Qed.

Section DateFiles.

Variables (cfg : config.Config) (fails : string -> bool)
  (byDate : gmap string (list Message.t)).

Local Abbreviation dir := (config.MessagesDir (config.Directories cfg)).

Lemma append_nil_r (s : string) : s ++ "" = s.
Proof.
  induction s as [|c s IH]; [reflexivity|].
  change (String c (s ++ "") = String c s). now rewrite IH.
Qed.

(** One iteration of the writing loop. *)
Lemma writeDateFiles_step date rest msgs d :
  byDate !! date = Some msgs ->
  fails (dateFile cfg date) = false ->
  writeDateFiles dir fails byDate (date :: rest) d
  = writeDateFiles dir fails byDate rest
      (<[dateFile cfg date :=
           dateBlock date (sortSlice byTimestamp msgs)
           ++ keptContent (default "" (d !! dateFile cfg date))]> d).
Proof.
  intros Hbucket Hok. cbn [writeDateFiles]. rewrite Hbucket.
  fold (dateFile cfg date). rewrite Hok. unfold keptContent.
  destruct (0 <? String.length (default "" (d !! dateFile cfg date)))%nat;
    [reflexivity|now rewrite append_nil_r].
Qed.

(** The loop touches the files of the dates it visits and no other. *)
Lemma writeDateFiles_frame order : forall d d',
  writeDateFiles dir fails byDate order d = (d', Ok tt) ->
  forall path, path ∉ map (dateFile cfg) order -> d' !! path = d !! path.
Proof.
  induction order as [|date order IH]; intros d d' Hrun path Hpath.
  - now injection Hrun as <-.
  - apply not_elem_of_cons in Hpath as [Hne Hpath].
    cbn [writeDateFiles] in Hrun.
    destruct (byDate !! date) as [msgs|]; [|now apply IH].
    fold (dateFile cfg date) in Hrun.
    destruct (fails (dateFile cfg date)); [discriminate|].
    rewrite (IH _ _ Hrun path Hpath). now apply lookup_insert_ne.
Qed.

(** After a run that returned no error, the file of every visited date
    holds the block of that date followed by what the file held before. *)
Lemma writeDateFiles_lookup order : forall d d',
  NoDup (map (dateFile cfg) order) ->
  writeDateFiles dir fails byDate order d = (d', Ok tt) ->
  forall date msgs, date ∈ order -> byDate !! date = Some msgs ->
  d' !! dateFile cfg date
  = Some (dateBlock date (sortSlice byTimestamp msgs)
          ++ keptContent (default "" (d !! dateFile cfg date))).
Proof.
  induction order as [|date0 order IH]; intros d d' Hnodup Hrun date msgs
    Hin Hbucket; [inversion Hin|].
  cbn [map] in Hnodup. apply NoDup_cons in Hnodup as [Hfresh Hnodup].
  destruct (byDate !! date0) as [msgs0|] eqn:Hbucket0.
  2:{ cbn [writeDateFiles] in Hrun. rewrite Hbucket0 in Hrun.
      apply elem_of_cons in Hin as [->|Hin]; [congruence|].
      now apply (IH d d'). }
  destruct (fails (dateFile cfg date0)) eqn:Hok.
  { cbn [writeDateFiles] in Hrun. rewrite Hbucket0 in Hrun.
    fold (dateFile cfg date0) in Hrun. now rewrite Hok in Hrun. }
  rewrite (writeDateFiles_step date0 order msgs0 d Hbucket0 Hok) in Hrun.
  apply elem_of_cons in Hin as [->|Hin].
  - rewrite (writeDateFiles_frame _ _ _ Hrun _ Hfresh), lookup_insert_eq.
    congruence.
  - rewrite (IH _ _ Hnodup Hrun date msgs Hin Hbucket).
    rewrite lookup_insert_ne; [reflexivity|].
    intros Heq. apply Hfresh. rewrite Heq. now apply list_elem_of_fmap_2.
Qed.

End DateFiles.

(** C10 (as amended): for every UTC date on which the conversation has
    user messages, a call of [extractUserMessagesByDate] that returns no
    error leaves in the file named after the date ([YYYY-MM-DD.md] in the
    messages directory) a block with those messages in timestamp order,
    and what the file held before is kept in it, not overwritten. *)
Theorem C10_date_file_holds_block_and_previous_content cfg fails order
  messages d d' date :
  rangesOver order (groupUserMessages messages) ->
  extractUserMessagesByDate cfg fails order messages d = (d', Ok tt) ->
  userMessagesOn date messages <> [] ->
  exists block,
    block ≡ₚ userMessagesOn date messages /\
    StronglySorted
      (fun a b => (Message.Timestamp a <= Message.Timestamp b)%Z) block /\
    d' !! dateFile cfg date
    = Some (dateBlock date block
            ++ keptContent (default "" (d !! dateFile cfg date))).
Proof.
  intros Horder Hrun Hsome. unfold extractUserMessagesByDate in Hrun.
  rewrite groupUserMessages_filter in Horder, Hrun.
  set (byDate := groupByDate (filter (fun m => isUser m = true) messages))
    in *.
  assert (Hbucket : byDate !! date = Some (userMessagesOn date messages)).
  { unfold byDate. rewrite groupByDate_lookup.
    fold (userMessagesOn date messages).
    destruct (userMessagesOn date messages) eqn:E; congruence. }
  assert (Hfree : forall k, k ∈ order -> slashFree k = true).
  { intros k Hk. apply (rangesOver_elem order byDate k Horder) in Hk as [b Hb].
    apply groupByDate_bucket in Hb as [-> Hne].
    destruct (dateBucket k _) as [|m b] eqn:Hm; [contradiction|].
    assert (Hin : m ∈ dateBucket k
                    (filter (fun m => isUser m = true) messages))
      by (rewrite Hm; left).
    apply elem_of_dateBucket in Hin as [_ <-]. apply FormatDate_slashFree. }
  assert (Hpaths : NoDup (map (dateFile cfg) order)).
  { apply (NoDup_fmap_2_strong (dateFile cfg)); [|apply Horder].
    intros k1 k2 H1 H2. apply dateFile_inj; auto. }
  exists (sortSlice byTimestamp (userMessagesOn date messages)).
  split; [apply (sortSlice_perm Message.Timestamp)|].
  split; [apply (sortSlice_sorted Message.Timestamp)|].
  apply (writeDateFiles_lookup cfg fails byDate order d d' Hpaths Hrun).
  - apply (rangesOver_elem order byDate date Horder).
    exists (userMessagesOn date messages). exact Hbucket.
  - exact Hbucket.
Qed.

Lemma C10_date_file_holds_block_and_previous_content_witness :
  exists d' block,
    extractUserMessagesByDate demoCfg (fun _ => false)
      ["2024-01-16"; "2024-01-15"]
      [laterTurn; nextDayTurn; morningTurn] notesDisk = (d', Ok tt) /\
    block ≡ₚ [laterTurn; morningTurn] /\
    StronglySorted
      (fun a b => (Message.Timestamp a <= Message.Timestamp b)%Z) block /\
    d' !! "/data/messages/2024-01-15.md"
    = Some (dateBlock "2024-01-15" block ++ nl ++ nl ++ "old notes").
Proof.
  assert (Hok : snd (extractUserMessagesByDate demoCfg (fun _ => false)
                       ["2024-01-16"; "2024-01-15"]
                       [laterTurn; nextDayTurn; morningTurn] notesDisk)
                = Ok tt) by (vm_compute; reflexivity).
  destruct (extractUserMessagesByDate demoCfg (fun _ => false)
              ["2024-01-16"; "2024-01-15"]
              [laterTurn; nextDayTurn; morningTurn] notesDisk)
    as [d' r] eqn:Hrun.
  cbn [snd] in Hok. subst r.
  destruct (C10_date_file_holds_block_and_previous_content demoCfg
              (fun _ => false) ["2024-01-16"; "2024-01-15"]
              [laterTurn; nextDayTurn; morningTurn] notesDisk d' "2024-01-15")
    as (block & Hperm & Hsorted & Hfile).
  - split; apply (bool_decide_unpack _); vm_compute; exact I.
  - exact Hrun.
  - vm_compute. discriminate.
  - exists d', block. split; [reflexivity|]. split; [exact Hperm|].
    split; [exact Hsorted|exact Hfile].
Defined.

(** C10 as stated fails when two conversations contribute to one date: each
    call sorts its own messages only and puts its block in front of what the
    file holds, so the question asked at 10:00 (second conversation) stands
    before the one asked at 09:00 (first conversation). *)
Lemma C10_file_is_not_chronological_across_conversations :
  let d1 := fst (extractUserMessagesByDate demoCfg (fun _ => false)
                   ["2024-01-15"] [morningTurn] ∅) in
  let d2 := fst (extractUserMessagesByDate demoCfg (fun _ => false)
                   ["2024-01-15"] [laterTurn] d1) in
  (Message.Timestamp morningTurn < Message.Timestamp laterTurn)%Z /\
  exists content,
    d2 !! "/data/messages/2024-01-15.md" = Some content /\
    content = dateBlock "2024-01-15" [laterTurn] ++ nl ++ nl
              ++ dateBlock "2024-01-15" [morningTurn] /\
    occursBefore "second question" "first question" content = true.
Proof.
  split; [vm_compute; reflexivity|].
  eexists. split; [vm_compute; reflexivity|].
  split; vm_compute; reflexivity.
Qed.
(** * Paths that [sanitizePath] accepts *)

Section CleanedPaths.

Lemma splitOn_pieces_slashFree s :
  Forall (fun piece => slashFree piece = true) (strings.splitOn "/" s).
Proof.
  induction s as [|c s IH]; cbn [strings.splitOn].
  - repeat constructor.
  - destruct (Ascii.eqb c "/") eqn:Hc.
    + constructor; [reflexivity|exact IH].
    + destruct (strings.splitOn "/" s) as [|p r].
      * repeat constructor. cbn [slashFree]. now rewrite Hc.
      * inversion IH as [|? ? Hp Hr]; subst. constructor; [|exact Hr].
        cbn [slashFree]. now rewrite Hc, Hp.
Qed.

Lemma cleanStep_cleanStack rooted out e :
  slashFree e = true -> cleanStack rooted out ->
  cleanStack rooted (filepath.cleanStep rooted out e).
Proof.
  intros He (Hall & ord & k & -> & Hord & Hk). unfold filepath.cleanStep.
  destruct (String.eqb_spec e "") as [->|Hne]; cbn [orb].
  { split; eauto 6. }
  destruct (String.eqb_spec e ".") as [->|Hnd]; cbn [orb].
  { split; eauto 6. }
  destruct (String.eqb_spec e "..") as [->|Hndd].
  - destruct ord as [|top ord]; cbn [app].
    + destruct k as [|k]; cbn [repeat].
      * destruct rooted.
        -- split; [constructor|]. exists [], 0%nat. now repeat split.
        -- split; [repeat constructor; discriminate|].
           exists [], 1%nat. repeat split; [constructor|discriminate].
      * rewrite String.eqb_refl. split.
        -- constructor; [repeat split; discriminate|exact Hall].
        -- exists [], (S (S k)). repeat split; [constructor|].
           intros Hr. specialize (Hk Hr). discriminate.
    + inversion Hord as [|? ? Htop Hord']; subst.
      destruct (String.eqb_spec top ".."); [contradiction|].
      inversion Hall; subst. split; eauto 6.
  - split; [constructor; [repeat split; assumption|exact Hall]|].
    exists (e :: ord), k. repeat split; [constructor|]; assumption.
Qed.

Lemma fold_cleanStack rooted segs : forall out,
  Forall (fun piece => slashFree piece = true) segs ->
  cleanStack rooted out ->
  cleanStack rooted (fold_left (filepath.cleanStep rooted) segs out).
Proof.
  induction segs as [|e segs IH]; intros out Hsegs Hout; [exact Hout|].
  inversion Hsegs; subst. cbn [fold_left].
  apply IH; [assumption|]. now apply cleanStep_cleanStack.
Qed.

Lemma elements_cleanStack path :
  cleanStack (filepath.IsAbs path) (rev (filepath.elements path)).
Proof.
  unfold filepath.elements. rewrite rev_involutive.
  apply fold_cleanStack; [apply splitOn_pieces_slashFree|].
  split; [constructor|]. exists [], 0%nat. now repeat split; try constructor.
Qed.


Lemma splitOn_Join es :
  Forall (fun e => slashFree e = true) es -> es <> [] ->
  strings.splitOn "/" (strings.Join es "/") = es.
Proof.
  induction es as [|e es IH]; intros Hall Hne; [contradiction|].
  inversion Hall as [|? ? He Hes]; subst.
  destruct es as [|e' es].
  - now apply splitOn_slashFree.
  - change (strings.Join (e :: e' :: es) "/")
      with (e ++ String "/" (strings.Join (e' :: es) "/")).
    rewrite splitOn_app, IH by (assumption || discriminate).
    now rewrite splitOn_slashFree.
Qed.

Lemma fold_push rooted ord : forall out,
  Forall keptElement ord -> ordinary ord ->
  fold_left (filepath.cleanStep rooted) ord out = (rev ord ++ out)%list.
Proof.
  induction ord as [|e ord IH]; intros out Hkept Hord; [reflexivity|].
  inversion Hkept as [|? ? (_ & Hne & Hnd) Hkept']; subst.
  inversion Hord as [|? ? Hndd Hord']; subst.
  cbn [fold_left rev]. rewrite IH, <- app_assoc by assumption.
  unfold filepath.cleanStep.
  destruct (String.eqb_spec e ""); [contradiction|].
  destruct (String.eqb_spec e "."); [contradiction|].
  destruct (String.eqb_spec e ".."); [contradiction|reflexivity].
Qed.

Lemma fold_dotdots k : forall j,
  fold_left (filepath.cleanStep false) (repeat ".." k) (repeat ".." j)
  = repeat ".." (k + j).
Proof.
  induction k as [|k IH]; intros j; [reflexivity|].
  cbn [repeat fold_left]. replace (S k + j)%nat with (k + S j)%nat by lia.
  rewrite <- IH. f_equal. destruct j; reflexivity.
Qed.

(** Cleaning the elements of a cleaned path again gives them back. *)
Lemma fold_cleaned rooted es :
  cleanStack rooted (rev es) ->
  fold_left (filepath.cleanStep rooted) es [] = rev es.
Proof.
  intros (Hall & ord & k & Hrev & Hord & Hk).
  assert (Hes : es = (repeat ".." k ++ rev ord)%list).
  { rewrite <- (rev_involutive es), Hrev, rev_app_distr.
    now rewrite rev_repeat_dotdot. }
  assert (Hkept : Forall keptElement (rev ord)).
  { rewrite Hrev in Hall. apply Forall_app in Hall as [Hall _].
    now apply Forall_rev. }
  assert (Hord' : ordinary (rev ord)) by now apply Forall_rev.
  rewrite Hes, fold_left_app, rev_app_distr, rev_repeat_dotdot.
  destruct rooted.
  - rewrite (Hk eq_refl). cbn [repeat fold_left]. now apply fold_push.
  - pose proof (fold_dotdots k 0) as Hdots.
    change (repeat ".." 0) with (@nil string) in Hdots.
    rewrite Hdots, Nat.add_0_r. now apply fold_push.
Qed.

Lemma Join_not_abs e es :
  keptElement e -> filepath.IsAbs (strings.Join (e :: es) "/") = false.
Proof.
  intros (Hfree & Hne & _). destruct (Join_starts e es "/") as [tail ->].
  destruct e as [|c e]; [contradiction|].
  change (String c e ++ tail) with (String c (e ++ tail)).
  cbn [slashFree] in Hfree. apply andb_true_iff in Hfree as [Hc _].
  unfold filepath.IsAbs. cbn [strings.HasPrefix].
  apply negb_true_iff in Hc. rewrite Ascii.eqb_sym in Hc. now rewrite Hc.
Qed.

(** [Clean] changes nothing about where a path leads. *)
Lemma elements_Clean path :
  filepath.elements (filepath.Clean path) = filepath.elements path.
Proof.
  pose proof (elements_cleanStack path) as Hstack.
  set (es := filepath.elements path) in *.
  assert (Hfree : Forall (fun e => slashFree e = true) es).
  { destruct Hstack as [Hall _]. apply Forall_rev in Hall.
    rewrite rev_involutive in Hall.
    eapply Forall_impl; [exact Hall|]. now intros e (He & _). }
  unfold filepath.Clean. fold es.
  destruct (filepath.IsAbs path) eqn:Habs.
  - unfold filepath.elements.
    change (filepath.IsAbs ("/" ++ strings.Join es "/")) with true.
    change (strings.splitOn "/" ("/" ++ strings.Join es "/"))
      with ("" :: strings.splitOn "/" (strings.Join es "/")).
    cbn [fold_left]. change (filepath.cleanStep true [] "") with (@nil string).
    destruct es as [|e es'] eqn:Hes; [reflexivity|].
    rewrite splitOn_Join by (assumption || discriminate).
    rewrite fold_cleaned by exact Hstack. apply rev_involutive.
  - destruct es as [|e es'] eqn:Hes; [reflexivity|].
    assert (Hkept : keptElement e).
    { destruct Hstack as [Hall _]. apply Forall_rev in Hall.
      rewrite rev_involutive in Hall. now inversion Hall. }
    assert (Hbody : String.eqb (strings.Join (e :: es') "/") "" = false).
    { destruct (Join_starts e es' "/") as [tail ->].
      destruct Hkept as (_ & Hne & _). destruct e; [contradiction|reflexivity]. }
    rewrite Hbody. unfold filepath.elements.
    rewrite (Join_not_abs e es' Hkept).
    rewrite splitOn_Join by (assumption || discriminate).
    rewrite fold_cleaned by exact Hstack. apply rev_involutive.
Qed.


Lemma fold_without_dotdot rooted segs : forall out,
  ~ In ".." segs ->
  exists pushed,
    fold_left (filepath.cleanStep rooted) segs out = (pushed ++ out)%list.
Proof.
  induction segs as [|e segs IH]; intros out Hno; [now exists []|].
  cbn [fold_left].
  destruct (IH (filepath.cleanStep rooted out e)) as [pushed ->].
  { intros Hin. apply Hno. now right. }
  unfold filepath.cleanStep.
  destruct (String.eqb e "" || String.eqb e "."); [eauto|].
  destruct (String.eqb_spec e "..") as [->|_]; [destruct Hno; now left|].
  exists (pushed ++ [e])%list. now rewrite <- app_assoc.
Qed.

Lemma Clean_abs path :
  filepath.IsAbs path = true -> filepath.IsAbs (filepath.Clean path) = true.
Proof. intros Habs. unfold filepath.Clean. now rewrite Habs. Qed.

Lemma Join_dir dir name :
  filepath.IsAbs dir = true ->
  filepath.Join [dir; name] = filepath.Clean (dir ++ String "/" name).
Proof.
  intros Habs. destruct dir as [|c dir]; [discriminate|]. reflexivity.
Qed.

(** Below an absolute directory, a name without [..] leads to a place
    inside the directory. *)
Lemma Join_inside dir name :
  filepath.IsAbs dir = true -> strings.Contains name ".." = false ->
  filepath.IsAbs (filepath.Join [dir; name]) = true /\
  resolvesOutside dir (filepath.Join [dir; name]) = false.
Proof.
  intros Habs Hdots. rewrite Join_dir by exact Habs.
  assert (Hfull : filepath.IsAbs (dir ++ String "/" name) = true)
    by now apply IsAbs_app.
  split; [now apply Clean_abs|].
  unfold resolvesOutside, locationOf. rewrite (Clean_abs _ Hfull).
  rewrite elements_Clean. apply negb_false_iff.
  unfold filepath.elements. rewrite Hfull, Habs, splitOn_app, fold_left_app.
  destruct (fold_without_dotdot true (strings.splitOn "/" name)
              (fold_left (filepath.cleanStep true) (strings.splitOn "/" dir) []))
    as [pushed ->].
  { intros Hin. apply splitOn_piece_occurs in Hin. congruence. }
  rewrite rev_app_distr. apply startsWith_app.
Qed.

Lemma sanitizePath_Ok_inside wd name dir p :
  filepath.IsAbs dir = true ->
  sanitizePath wd name dir = Ok p ->
  resolvesOutside dir p = false /\ filepath.IsAbs p = true.
Proof.
  intros Habs. unfold sanitizePath.
  destruct (strings.Contains _ "..") eqn:Hdots; [discriminate|].
  repeat (match goal with
          | |- context [match ?x with _ => _ end] => destruct x
          end; try discriminate).
  intros [= <-]. split; now apply Join_inside.
Qed.

End CleanedPaths.

(** X1: what [sanitizePath] accepts for an absolute base directory is the
    normalized name joined to that directory: an absolute path that leads
    to a place inside the directory. *)
Theorem X1_sanitizePath_result_is_inside wd name dir p :
  filepath.IsAbs dir = true ->
  sanitizePath wd name dir = Ok p ->
  p = filepath.Join [dir; normalizedName name] /\
  filepath.IsAbs p = true /\
  resolvesOutside dir p = false.
Proof.
  intros Habs. unfold sanitizePath.
  destruct (strings.Contains _ "..") eqn:Hdots; [discriminate|].
  destruct (filepath.IsAbs (normalizedName name)); [discriminate|].
  destruct (filepath.Abs wd dir); [|discriminate].
  destruct (filepath.Abs wd _); [|discriminate].
  destruct (negb _); [discriminate|]. intros [= <-].
  split; [reflexivity|]. now apply Join_inside.
Qed.

Lemma X1_sanitizePath_result_is_inside_witness :
  sanitizePath None "chats/./2024/../conversations.json" "/data/extracted/u1"
    = Ok "/data/extracted/u1/chats/conversations.json" /\
  resolvesOutside "/data/extracted/u1"
    "/data/extracted/u1/chats/conversations.json" = false.
Proof.
  assert (Hrun : sanitizePath None "chats/./2024/../conversations.json"
                   "/data/extracted/u1"
                 = Ok "/data/extracted/u1/chats/conversations.json")
    by (vm_compute; reflexivity).
  split; [exact Hrun|].
  exact (proj2 (proj2 (X1_sanitizePath_result_is_inside None
                         "chats/./2024/../conversations.json"
                         "/data/extracted/u1" _ eq_refl Hrun))).
Defined.


Section ExtractionRecords.

Variables (cfg : config.Config) (env : ExtractEnv) (uploadID : Z)
  (extractDir : string) (entries : Z).

Hypothesis extractDir_abs : filepath.IsAbs extractDir = true.

Local Abbreviation maxFiles := (config.MaxExtractedFiles (config.Upload cfg)).



End ExtractionRecords.


Section ExtractUploadRuns.

Variables (cfg : config.Config) (env : ExtractEnv) (uploadID : Z).

Local Abbreviation extractDirOf upload :=
  (filepath.Join [config.ExtractedDir (config.Directories cfg);
                  Upload.UUID upload]).

Local Abbreviation stored rows d :=
  (database.number
     (fun (e : Extraction.t) id =>
        Extraction.mk id (Extraction.UploadID e) (Extraction.FilePath e)
          (Extraction.FileType e) (Extraction.FileSize e)
          (Extraction.ExtractedAt e) (Extraction.Status e))
     (database.nextID (map Extraction.ID (database.extractions d))) rows).

(** The ways a run of [ExtractUpload] ends: before the loop over the
    entries, with nothing written, or after the loop has run from the
    initial counters. *)
Lemma ExtractUpload_runs w w' r :
  ExtractUpload cfg env uploadID w = (w', r) ->
  (disk w' = disk w /\
   database.extractions (db w') = database.extractions (db w) /\
   exists e, r = Err e) \/
  exists upload files st0 st r0,
    database.First (fun u => (Upload.ID u =? uploadID)%Z)
      (database.uploads (db w)) = Some upload /\
    disk (world st0) = disk w /\
    database.extractions (db (world st0)) = database.extractions (db w) /\
    extractedFiles st0 = [] /\ fileCount st0 = 0%Z /\
    extractEntries cfg env uploadID (extractDirOf upload)
      (Z.of_nat (length files)) files st0 = (st, r0) /\
    disk w' = disk (world st) /\
    ((exists e, r = Err e /\
        database.extractions (db w') = database.extractions (db w)) \/
     (r = Ok tt /\
      database.extractions (db w')
      = (database.extractions (db w)
         ++ stored (extractedFiles st) (db (world st)))%list)).
Proof.
  unfold ExtractUpload. intros Hrun.
  destruct (database.First _ (database.uploads (db w))) as [upload|] eqn:Hup.
  2:{ injection Hrun as <- <-. left. eauto. }
  destruct (database.First _ (database.imports (db w))) as [found|].
  2:{ injection Hrun as <- <-. left. eauto. }
  cbv zeta in Hrun.
  destruct (openReader env (Upload.StoredPath upload)) as [files|].
  2:{ injection Hrun as <- <-. left. cbn. eauto. }
  destruct (mkdirAll env _); cbn [negb] in Hrun.
  2:{ injection Hrun as <- <-. left. cbn. eauto. }
  destruct (extractEntries _ _ _ _ _ files _) as [st r0] eqn:Hloop.
  right.
  match type of Hloop with
  | extractEntries _ _ _ _ _ _ ?s = _ => exists upload, files, s, st, r0
  end.
  split; [reflexivity|]. split; [reflexivity|]. split; [reflexivity|].
  split; [reflexivity|]. split; [reflexivity|]. split; [exact Hloop|].
  pose proof (extractEntries_extractions _ _ _ _ _ _ _ _ _ Hloop) as Hsame.
  cbn [world db database.SaveImport database.extractions] in Hsame.
  destruct r0 as [[]|e].
  - destruct (recordsFail env).
    + injection Hrun as <- <-. split; [reflexivity|]. left. eauto.
    + injection Hrun as <- <-. split; [reflexivity|]. right.
      split; [reflexivity|]. cbn. now rewrite Hsame.
  - injection Hrun as <- <-. split; [reflexivity|]. left. eauto.
Qed.

Lemma extractDirOf_abs upload :
  filepath.IsAbs (config.ExtractedDir (config.Directories cfg)) = true ->
  filepath.IsAbs (extractDirOf upload) = true.
Proof.
  intros Habs. rewrite Join_dir by exact Habs.
  apply Clean_abs. now apply IsAbs_app.
Qed.



End ExtractUploadRuns.

(** X2: whatever the archive holds, [ExtractUpload] creates or changes
    files only inside the extraction directory of the upload (the
    configured directory is absolute, as [config.Load] makes it). *)
Theorem X2_ExtractUpload_writes_inside_its_directory cfg env uploadID w w' r
  path :
  filepath.IsAbs (config.ExtractedDir (config.Directories cfg)) = true ->
  ExtractUpload cfg env uploadID w = (w', r) ->
  disk w' !! path <> disk w !! path ->
  exists upload,
    database.First (fun u => (Upload.ID u =? uploadID)%Z)
      (database.uploads (db w)) = Some upload /\
    filepath.IsAbs path = true /\
    resolvesOutside
      (filepath.Join [config.ExtractedDir (config.Directories cfg);
                      Upload.UUID upload]) path = false.
Proof.
  intros Habs Hrun Hdiff.
  apply ExtractUpload_runs in Hrun
    as [(Hdisk & _)|(upload & files & st0 & st & r0 & Hup & Hd0 & _ & _ & _
                     & Hloop & Hdisk & _)].
  { now rewrite Hdisk in Hdiff. }
  exists upload. split; [exact Hup|].
  rewrite Hdisk, <- Hd0 in Hdiff.
  destruct (extractEntries_writes _ _ _ _ _ _ _ _ _ _ Hloop Hdiff)
    as (file & _ & Hsan).
  apply sanitizePath_Ok_inside in Hsan; [tauto|].
  now apply extractDirOf_abs.
Qed.



Lemma X2_ExtractUpload_writes_inside_its_directory_witness :
  exists upload,
    database.First (fun u => (Upload.ID u =? 1)%Z)
      (database.uploads (db demoWorld)) = Some upload /\
    filepath.IsAbs "/data/extracted/u1/media/pic.png" = true /\
    resolvesOutside (filepath.Join ["/data/extracted"; Upload.UUID upload])
      "/data/extracted/u1/media/pic.png" = false.
Proof.
  apply (X2_ExtractUpload_writes_inside_its_directory demoCfg mixedArchiveEnv
           1 demoWorld
           (fst (ExtractUpload demoCfg mixedArchiveEnv 1 demoWorld))
           (snd (ExtractUpload demoCfg mixedArchiveEnv 1 demoWorld))).
  - reflexivity.
  - apply surjective_pairing.
  - vm_compute. discriminate.
Defined.


Section DottedNames.

Lemma slashFree_not_abs name :
  slashFree name = true -> filepath.IsAbs name = false.
Proof.
  destruct name as [|c name]; [reflexivity|]. cbn [slashFree].
  intros Hc. apply andb_true_iff in Hc as [Hc _].
  apply negb_true_iff in Hc. unfold filepath.IsAbs. cbn [strings.HasPrefix].
  rewrite Ascii.eqb_sym in Hc. now rewrite Hc.
Qed.

Lemma Clean_single name :
  slashFree name = true -> name <> "" -> name <> "." ->
  filepath.elements name = [name] /\ filepath.Clean name = name.
Proof.
  intros Hfree Hne Hnd.
  assert (Hel : filepath.elements name = [name]).
  { unfold filepath.elements.
    rewrite splitOn_slashFree, slashFree_not_abs by exact Hfree.
    cbn [fold_left]. unfold filepath.cleanStep.
    destruct (String.eqb_spec name ""); [contradiction|].
    destruct (String.eqb_spec name "."); [contradiction|].
    destruct (String.eqb_spec name ".."); reflexivity. }
  split; [exact Hel|]. unfold filepath.Clean.
  rewrite Hel, slashFree_not_abs by exact Hfree. cbn [strings.Join].
  destruct (String.eqb_spec name ""); [contradiction|reflexivity].
Qed.

Lemma normalizedName_single name :
  slashFree name = true -> strings.Contains name ".." = true ->
  strings.Contains (normalizedName name) ".." = true.
Proof.
  intros Hfree Hdots.
  assert (Hne : name <> "") by (intros ->; discriminate).
  assert (Hnd : name <> ".") by (intros ->; discriminate).
  unfold normalizedName.
  rewrite (proj2 (Clean_single name Hfree Hne Hnd)).
  assert (Hsep : strings.TrimPrefix name "/" = name).
  { unfold strings.TrimPrefix. fold (filepath.IsAbs name).
    now rewrite slashFree_not_abs. }
  change filepath.Separator with "/". rewrite !Hsep.
  unfold strings.TrimPrefix.
  destruct (strings.HasPrefix name "\") eqn:Hback; [|exact Hdots].
  destruct name as [|c name]; [discriminate|].
  cbn [strings.HasPrefix] in Hback. apply andb_true_iff in Hback as [Hc _].
  apply Ascii.eqb_eq in Hc. subst c. exact Hdots.
Qed.

Lemma single_inside dir name :
  filepath.IsAbs dir = true -> slashFree name = true ->
  name <> ".." -> resolvesOutside dir name = false.
Proof.
  intros Habs Hfree Hndd. unfold resolvesOutside, locationOf.
  rewrite slashFree_not_abs by exact Hfree. apply negb_false_iff.
  unfold filepath.elements.
  change (dir ++ "/" ++ name) with (dir ++ String "/" name).
  rewrite (IsAbs_app dir _ Habs), Habs, splitOn_app, fold_left_app.
  rewrite splitOn_slashFree by exact Hfree.
  destruct (fold_without_dotdot true [name]
              (fold_left (filepath.cleanStep true) (strings.splitOn "/" dir) []))
    as [pushed ->].
  { intros [Hin|[]]. now apply Hndd. }
  rewrite rev_app_distr. apply startsWith_app.
Qed.

End DottedNames.

(** X4: the [..] check of [sanitizePath] looks for the two characters
    anywhere in the normalized name, so a plain file name with two
    consecutive dots is refused although it leads nowhere but into the
    directory. *)
Theorem X4_name_with_two_dots_is_refused wd dir name :
  filepath.IsAbs dir = true ->
  slashFree name = true ->
  strings.Contains name ".." = true ->
  name <> ".." ->
  sanitizePath wd name dir = Err ("path contains '..': " ++ name) /\
  resolvesOutside dir name = false.
Proof.
  intros Habs Hfree Hdots Hndd. split; [|now apply single_inside].
  unfold sanitizePath. now rewrite normalizedName_single.
Qed.

Lemma X4_name_with_two_dots_is_refused_witness :
  sanitizePath None "notes..txt" "/data/extracted/u1"
    = Err "path contains '..': notes..txt" /\
  resolvesOutside "/data/extracted/u1" "notes..txt" = false.
Proof.
  apply (X4_name_with_two_dots_is_refused None "/data/extracted/u1"
           "notes..txt"); [reflexivity|reflexivity|reflexivity|discriminate].
Defined.


(** * The parser on arbitrary mappings *)

Section Traversal.

Variables (clock : Z -> time.Time) (mapping : gmap string MessageNode.t)
  (conversationID : Z).

Lemma numberedFrom_app index a b :
  numberedFrom index a ->
  numberedFrom (index + Z.of_nat (length a)) b ->
  numberedFrom index (a ++ b).
Proof.
  unfold numberedFrom. intros Ha Hb.
  rewrite map_app, length_app, seq_app, map_app, Ha, Hb. f_equal.
  replace (0 + length a)%nat with (length a + 0)%nat by lia.
  rewrite <- (fmap_add_seq (length a) 0), <- list_fmap_compose.
  apply map_ext. intros k. cbn. lia.
Qed.

Local Abbreviation traversed := (traversedFor conversationID).

Lemma traversed_refl acc : traversed acc acc.
Proof.
  exists []. rewrite app_nil_r. cbn. repeat split; [lia|constructor].
Qed.

Lemma traversed_trans a b c : traversed a b -> traversed b c -> traversed a c.
Proof.
  intros (x & Hx1 & Hx2 & Hx3 & Hx4) (y & Hy1 & Hy2 & Hy3 & Hy4).
  exists (x ++ y)%list. rewrite Hy1, Hx1, Hy2, Hx2, length_app, <- app_assoc.
  repeat split; [lia| |now apply Forall_app].
  apply numberedFrom_app; [exact Hx3|]. now rewrite <- Hx2.
Qed.

Lemma forEach_traversed (body : string -> list Message.t * Z ->
                                option (list Message.t * Z)) kids :
  (forall kid acc acc', body kid acc = Some acc' -> traversed acc acc') ->
  forall acc acc', forEach body kids acc = Some acc' -> traversed acc acc'.
Proof.
  intros Hbody. induction kids as [|kid kids IH]; intros acc acc' Hrun.
  - injection Hrun as <-. apply traversed_refl.
  - cbn [forEach] in Hrun. destruct (body kid acc) as [acc1|] eqn:Hkid;
      [|discriminate].
    eapply traversed_trans; [eapply Hbody; exact Hkid|now apply IH].
Qed.

Lemma traverseMessages_traversed fuel : forall nodeID acc acc',
  traverseMessages fuel clock mapping conversationID nodeID acc = Some acc' ->
  traversed acc acc'.
Proof.
  induction fuel as [|fuel IH]; intros nodeID acc acc' Hrun; [discriminate|].
  cbn [traverseMessages] in Hrun.
  destruct (mapping !! nodeID) as [node|].
  2:{ injection Hrun as <-. apply traversed_refl. }
  destruct (MessageNode.Message node) as [msg|].
  2:{ injection Hrun as <-. apply traversed_refl. }
  destruct (negb _).
  { eapply forEach_traversed; [exact IH|exact Hrun]. }
  destruct acc as [messages index].
  eapply traversed_trans; [|eapply forEach_traversed; [exact IH|exact Hrun]].
  exists [messageOf clock conversationID msg index].
  split; [reflexivity|]. split; [reflexivity|]. split.
  - unfold numberedFrom. cbn. now rewrite Z.add_0_r.
  - repeat constructor.
Qed.

Lemma numberedFrom_sorted l : forall index,
  numberedFrom index l ->
  Forall (fun m => (index <= Message.MessageIndex m)%Z) l /\
  StronglySorted
    (fun a b => (Message.MessageIndex a <= Message.MessageIndex b)%Z) l.
Proof.
  induction l as [|m l IH]; intros index Hnum; [split; constructor|].
  unfold numberedFrom in Hnum. cbn [map length seq] in Hnum.
  injection Hnum as Hm Hrest.
  destruct (IH (index + 1)%Z) as [Hge Hsorted].
  { unfold numberedFrom. rewrite Hrest, <- (fmap_add_seq 1 0),
      <- list_fmap_compose. apply map_ext. intros k. cbn. lia. }
  split.
  - constructor; [lia|]. eapply Forall_impl; [exact Hge|].
    cbn. intros; lia.
  - constructor; [exact Hsorted|]. eapply Forall_impl; [exact Hge|].
    cbn. intros; lia.
Qed.

End Traversal.

(** X5: whatever the mapping looks like (a tree or not), the records
    [processMessages] returns belong to the conversation and carry the
    sequence indices 0, 1, 2, ... in the order returned: the traversal
    numbers densely and the final sort changes nothing. *)
Theorem X5_emitted_indices_are_dense fuel clock order mapping conversationID
  messages :
  processMessages fuel clock order mapping conversationID = Some messages ->
  map Message.MessageIndex messages
  = map Z.of_nat (seq 0 (length messages)) /\
  Forall (fun m => Message.ConversationID m = conversationID) messages.
Proof.
  unfold processMessages. destruct (String.eqb _ "").
  { intros [= <-]. split; [reflexivity|constructor]. }
  destruct (traverseMessages _ _ _ _ _ _) as [[emitted index]|] eqn:Hwalk;
    [|discriminate].
  apply traverseMessages_traversed in Hwalk
    as (added & Hadded & _ & Hnum & Hconv).
  cbn in Hadded, Hnum. subst emitted.
  destruct (numberedFrom_sorted added 0 Hnum) as [_ Hsorted].
  rewrite (sortSlice_ordered Message.MessageIndex added Hsorted).
  intros [= <-]. split; [|exact Hconv].
  rewrite Hnum. apply map_ext. intros k. lia.
Qed.

Lemma X5_emitted_indices_are_dense_witness :
  exists messages,
    processMessages 4 demoClock ["R"; "A"; "B"; "C"] sharedChildMapping 7
      = Some messages /\
    map Message.MessageIndex messages = [0%Z; 1%Z] /\
    Forall (fun m => Message.ConversationID m = 7%Z) messages.
Proof.
  destruct (processMessages 4 demoClock ["R"; "A"; "B"; "C"]
              sharedChildMapping 7) as [messages|] eqn:Hrun;
    [|vm_compute in Hrun; discriminate].
  exists messages. split; [reflexivity|].
  destruct (X5_emitted_indices_are_dense _ _ _ _ _ _ Hrun) as [Hidx Hconv].
  split; [|exact Hconv].
  rewrite Hidx. vm_compute in Hrun. injection Hrun as <-. reflexivity.
Defined.


(** * Helpers of the database package *)

Section Substrings.

Lemma substring_all (s : string) : String.substring 0 (String.length s) s = s.
Proof. induction s as [|c s IH]; [reflexivity|]. cbn. now rewrite IH. Qed.

Lemma substring_prefix (sub rest : string) :
  String.substring 0 (String.length sub) (sub ++ rest) = sub.
Proof.
  induction sub as [|c sub IH]; cbn.
  - destruct rest; reflexivity.
  - change (String c sub ++ rest) with (String c (sub ++ rest)).
    cbn. now rewrite IH.
Qed.

Lemma substring_skip c (s : string) i n :
  String.substring (S i) n (String c s) = String.substring i n s.
Proof. reflexivity. Qed.

Lemma substring_app_skip (before s : string) n :
  String.substring (String.length before) n (before ++ s)
  = String.substring 0 n s.
Proof.
  induction before as [|c before IH]; [reflexivity|].
  change (String c before ++ s) with (String c (before ++ s)).
  cbn [String.length]. now rewrite substring_skip.
Qed.

Lemma substring_head (n : nat) : forall s : string,
  String.length (String.substring 0 n s) = n ->
  exists after, s = String.substring 0 n s ++ after.
Proof.
  induction n as [|n IH]; intros s Hlen.
  - exists s. now destruct s.
  - destruct s as [|c s]; [discriminate|]. cbn in Hlen |- *.
    injection Hlen as Hlen. destruct (IH s Hlen) as [after Heq].
    exists after.
    change (String c s = String c (String.substring 0 n s ++ after)).
    now f_equal.
Qed.

(** A piece cut out of [s] occurs in [s]. *)
Lemma substring_occurs (i : nat) : forall (s : string) n,
  String.length (String.substring i n s) = n ->
  occursIn (String.substring i n s) s.
Proof.
  induction i as [|i IH]; intros s n Hlen.
  - destruct (substring_head n s Hlen) as [after Heq].
    exists "", after. exact Heq.
  - destruct s as [|c s].
    + destruct n; [|discriminate]. exists "", "". reflexivity.
    + rewrite substring_skip in Hlen |- *.
      destruct (IH s n Hlen) as (before & after & Heq).
      exists (String c before), after.
      change (String c s
              = String c (before ++ String.substring i n s ++ after)).
      now f_equal.
Qed.

Lemma findFrom_sound (sub s : string) n : forall i,
  dbutil.findFrom n i s sub = true -> occursIn sub s.
Proof.
  induction n as [|n IH]; intros i Hfind; [discriminate|].
  cbn [dbutil.findFrom] in Hfind.
  destruct (String.eqb_spec (String.substring i (String.length sub) s) sub)
    as [Heq|_]; [|now apply IH in Hfind].
  rewrite <- Heq at 1. apply substring_occurs. now rewrite Heq.
Qed.

Lemma findFrom_complete (sub s : string) k n : forall i,
  (i <= k < i + n)%nat ->
  String.substring k (String.length sub) s = sub ->
  dbutil.findFrom n i s sub = true.
Proof.
  induction n as [|n IH]; intros i Hk Hsub; [lia|].
  cbn [dbutil.findFrom].
  destruct (String.eqb_spec (String.substring i (String.length sub) s) sub)
    as [_|Hne]; [reflexivity|].
  apply IH; [|exact Hsub].
  destruct (decide (i = k)) as [->|]; [contradiction|lia].
Qed.

Lemma occurs_length (before sub after : string) :
  String.length (before ++ sub ++ after)
  = (String.length before + String.length sub + String.length after)%nat.
Proof. rewrite !append_length. lia. Qed.

(** X6: the hand-written [contains] of the database package (the handlers
    carry the same text) is substring search: it holds exactly when
    [substr] occurs somewhere in [s], the empty [substr] and [s] itself
    included. *)
Theorem X6_contains_is_substring_search (s substr : string) :
  dbutil.contains s substr = true <-> occursIn substr s.
Proof.
  unfold dbutil.contains, dbutil.findSubstring. split.
  - intros H. apply andb_true_iff in H as [_ H].
    apply orb_true_iff in H as [H|H].
    + apply String.eqb_eq in H as ->. exists "", "".
      cbn [append]. now rewrite append_nil_r.
    + apply andb_true_iff in H as [_ H]. now apply findFrom_sound in H.
  - intros (before & after & ->). rewrite occurs_length.
    apply andb_true_iff. split; [apply Nat.leb_le; lia|].
    destruct (String.eqb_spec (before ++ substr ++ after) substr) as [|Hne];
      [reflexivity|]. cbn [orb].
    assert (Hlonger : (0 < String.length before + String.length after)%nat).
    { destruct before as [|b before]; [|cbn; lia].
      destruct after as [|a after]; [|cbn; lia].
      cbn [append] in Hne. now rewrite append_nil_r in Hne. }
    apply andb_true_iff. split; [apply Nat.ltb_lt; lia|].
    apply (findFrom_complete _ _ (String.length before)); [lia|].
    now rewrite substring_app_skip, substring_prefix.
Qed.

End Substrings.


Section Retry.

Local Open Scope Z_scope.

Variables (fn : nat -> option string) (maxRetries : Z).

Lemma int64_double delay :
  0 <= delay -> 2 * delay < 2 ^ 63 -> int64 (delay * 2) = 2 * delay.
Proof. intros. rewrite int64_small; lia. Qed.

(** [k] attempts that fail with a lock error while attempts remain: the
    loop sleeps after each, doubling the delay. *)
Lemma retryFrom_locked k : forall n i delay err sleeps,
  (forall j, (i <= j < i + k)%nat ->
             dbutil.isDatabaseLocked (fn j) = true /\
             Z.of_nat j < maxRetries - 1) ->
  (k <= n)%nat ->
  0 <= delay -> 2 ^ Z.of_nat k * delay < 2 ^ 63 ->
  exists err',
    dbutil.retryFrom fn maxRetries n i delay err sleeps
    = dbutil.retryFrom fn maxRetries (n - k) (i + k)
        (2 ^ Z.of_nat k * delay) err' (sleeps ++ doubling k delay)%list.
Proof.
  induction k as [|k IH]; intros n i delay err sleeps Hlocked Hn Hpos Hfit.
  - exists err. rewrite Nat.sub_0_r, Nat.add_0_r, app_nil_r.
    f_equal. cbn. lia.
  - destruct n as [|n]; [lia|].
    destruct (Hlocked i) as [Hi Hmore]; [lia|].
    cbn [dbutil.retryFrom].
    destruct (fn i) as [e|] eqn:Hfn; [|discriminate].
    rewrite Hi. apply Z.ltb_lt in Hmore. rewrite Hmore. cbn [andb].
    rewrite Nat2Z.inj_succ, Z.pow_succ_r in Hfit by lia.
    assert (2 * delay <= 2 ^ Z.of_nat k * (2 * delay)).
    { assert (1 <= 2 ^ Z.of_nat k) by (apply Z.lt_pred_le, Z.pow_pos_nonneg; lia).
      nia. }
    rewrite int64_double by lia.
    destruct (IH n (S i) (2 * delay) (Some e) (sleeps ++ [delay])%list)
      as [err' ->]; try lia.
    { intros j Hj. apply Hlocked. lia. }
    exists err'. rewrite <- app_assoc. cbn [app doubling Nat.sub].
    replace (S i + k)%nat with (i + S k)%nat by lia.
    f_equal. rewrite Nat2Z.inj_succ, Z.pow_succ_r by lia. lia.
Qed.

(** The attempt that ends the loop. *)
Lemma retryFrom_last n i delay err sleeps :
  fn i = None \/ dbutil.isDatabaseLocked (fn i) = false
  \/ maxRetries - 1 <= Z.of_nat i ->
  dbutil.retryFrom fn maxRetries (S n) i delay err sleeps
  = dbutil.mkOutcome (fn i) sleeps (S i).
Proof.
  intros Hend. cbn [dbutil.retryFrom].
  destruct (fn i) as [e|] eqn:Hfn; [|reflexivity].
  destruct Hend as [Hnone|[Hother|Hlast]]; [discriminate| |].
  - now rewrite Hother.
  - apply Z.ltb_ge in Hlast. rewrite Hlast. now rewrite andb_false_r.
Qed.

(** The outcome of a call in which the first [k] attempts fail with a lock
    error and attempt [k] ends the loop. *)
Lemma RetryWithBackoff_after k initialDelay :
  Z.of_nat k < maxRetries ->
  (forall j, (j < k)%nat -> dbutil.isDatabaseLocked (fn j) = true) ->
  fn k = None \/ dbutil.isDatabaseLocked (fn k) = false
  \/ Z.of_nat k = maxRetries - 1 ->
  0 <= initialDelay -> 2 ^ Z.of_nat k * initialDelay < 2 ^ 63 ->
  dbutil.RetryWithBackoff maxRetries initialDelay fn
  = dbutil.mkOutcome (fn k) (doubling k initialDelay) (S k).
Proof.
  intros Hk Hlocked Hend Hpos Hfit. unfold dbutil.RetryWithBackoff.
  destruct (retryFrom_locked k (Z.to_nat maxRetries) 0 initialDelay None [])
    as [err' ->]; try lia.
  { intros j Hj. split; [apply Hlocked|]; lia. }
  cbn [app Nat.add].
  replace (Z.to_nat maxRetries - k)%nat
    with (S (Z.to_nat maxRetries - k - 1)) by lia.
  apply retryFrom_last. destruct Hend as [?|[?|?]]; [tauto|tauto|].
  right. right. lia.
Qed.

Lemma retryFrom_bounds n : forall i delay err sleeps,
  Z.of_nat (i + n) = Z.max 0 maxRetries ->
  let o := dbutil.retryFrom fn maxRetries n i delay err sleeps in
  (i <= dbutil.calls o <= i + n)%nat /\
  (n = 0%nat <-> dbutil.calls o = i) /\
  length (dbutil.slept o)
  = (length sleeps + (dbutil.calls o - i - 1))%nat.
Proof.
  induction n as [|n IH]; intros i delay err sleeps Hleft; cbn zeta.
  - cbn [dbutil.retryFrom dbutil.calls dbutil.slept].
    split; [lia|]. split; [split; lia|lia].
  - cbn [dbutil.retryFrom]. destruct (fn i) as [e|].
    2:{ cbn [dbutil.calls dbutil.slept].
        split; [lia|]. split; [split; lia|lia]. }
    destruct (_ && _) eqn:Hcont.
    2:{ cbn [dbutil.calls dbutil.slept].
        split; [lia|]. split; [split; lia|lia]. }
    apply andb_true_iff in Hcont as [_ Hmore]. apply Z.ltb_lt in Hmore.
    destruct (IH (S i) (int64 (delay * 2)) (Some e) (sleeps ++ [delay])%list)
      as (Hcalls & Hzero & Hslept); [lia|].
    rewrite Hslept, length_app. cbn [length].
    split; [lia|]. split; [split; lia|lia].
Qed.

End Retry.

(** X7: when the operation fails [k] times with a lock error and then
    succeeds, within [maxRetries] attempts, [RetryWithBackoff] returns no
    error after [k + 1] calls, having slept [k] times: the initial delay,
    then twice the previous one each time. *)
Theorem X7_retry_succeeds_after_lock_errors fn maxRetries initialDelay k :
  (Z.of_nat k < maxRetries)%Z ->
  (forall j, (j < k)%nat -> dbutil.isDatabaseLocked (fn j) = true) ->
  fn k = None ->
  (0 <= initialDelay)%Z -> (2 ^ Z.of_nat k * initialDelay < 2 ^ 63)%Z ->
  dbutil.RetryWithBackoff maxRetries initialDelay fn
  = dbutil.mkOutcome None (doubling k initialDelay) (S k).
Proof.
  intros Hk Hlocked Hok Hpos Hfit. rewrite <- Hok.
  apply RetryWithBackoff_after; auto.
Qed.

Lemma X7_retry_succeeds_after_lock_errors_witness :
  dbutil.RetryWithBackoff 3 100000000
    (fun j => if (j <? 2)%nat then Some "database is locked" else None)
  = dbutil.mkOutcome None [100000000%Z; 200000000%Z] 3.
Proof.
  apply (X7_retry_succeeds_after_lock_errors _ 3 100000000 2).
  - lia.
  - intros [|[|j]] Hj; [reflexivity|reflexivity|lia].
  - reflexivity.
  - lia.
  - cbn. lia.
Defined.

(** X8: an error that is not a lock error is returned at once, and a lock
    error is returned from the last of the [maxRetries] attempts; no sleep
    follows the attempt whose error is returned. *)
Theorem X8_retry_returns_the_error fn maxRetries initialDelay k e :
  (Z.of_nat k < maxRetries)%Z ->
  (forall j, (j < k)%nat -> dbutil.isDatabaseLocked (fn j) = true) ->
  fn k = Some e ->
  dbutil.isDatabaseLocked (Some e) = false \/ Z.of_nat k = (maxRetries - 1)%Z ->
  (0 <= initialDelay)%Z -> (2 ^ Z.of_nat k * initialDelay < 2 ^ 63)%Z ->
  dbutil.RetryWithBackoff maxRetries initialDelay fn
  = dbutil.mkOutcome (Some e) (doubling k initialDelay) (S k).
Proof.
  intros Hk Hlocked Hfn Hend Hpos Hfit. rewrite <- Hfn.
  apply RetryWithBackoff_after; auto.
  right. rewrite Hfn. exact Hend.
Qed.

Lemma X8_retry_returns_the_error_witness :
  dbutil.RetryWithBackoff 3 100000000 (fun _ => Some "database is locked")
  = dbutil.mkOutcome (Some "database is locked") [100000000%Z; 200000000%Z] 3
  /\
  dbutil.RetryWithBackoff 3 100000000
    (fun j => if (j <? 1)%nat then Some "database is locked"
              else Some "no such table: uploads")
  = dbutil.mkOutcome (Some "no such table: uploads") [100000000%Z] 2.
Proof.
  split.
  - apply (X8_retry_returns_the_error _ 3 100000000 2).
    + lia.
    + intros; reflexivity.
    + reflexivity.
    + now right.
    + lia.
    + cbn. lia.
  - apply (X8_retry_returns_the_error _ 3 100000000 1).
    + lia.
    + intros [|j] Hj; [reflexivity|lia].
    + reflexivity.
    + left. reflexivity.
    + lia.
    + cbn. lia.
Defined.

(** X9: [RetryWithBackoff] calls the operation at most [maxRetries] times
    and sleeps once less than it calls; with [maxRetries] zero or negative
    it reports success without having called the operation at all. *)
Theorem X9_retry_bounds fn maxRetries initialDelay :
  let o := dbutil.RetryWithBackoff maxRetries initialDelay fn in
  (Z.of_nat (dbutil.calls o) <= Z.max 0 maxRetries)%Z /\
  length (dbutil.slept o) = (dbutil.calls o - 1)%nat /\
  ((maxRetries <= 0)%Z -> o = dbutil.mkOutcome None [] 0).
Proof.
  cbn zeta. unfold dbutil.RetryWithBackoff.
  destruct (retryFrom_bounds fn maxRetries (Z.to_nat maxRetries) 0
              initialDelay None []) as (Hcalls & _ & Hslept); [lia|].
  cbn zeta in Hcalls, Hslept. split; [lia|]. split.
  - rewrite Hslept. cbn [length]. lia.
  - intros Hmax. replace (Z.to_nat maxRetries) with 0%nat by lia. reflexivity.
Qed.


(** * The background pipeline *)

Section ImportLookup.

Variable uploadID : Z.

(** The loop of [ExtractUpload] keeps the store's import record of the
    upload equal to the one it works on, and changes its status only when
    it fails. *)
Lemma extractEntries_import cfg env extractDir entries files :
  forall st st' r,
  extractEntries cfg env uploadID extractDir entries files st = (st', r) ->
  ImportRecord.UploadID (importRecord st) = uploadID ->
  importOf uploadID (db (world st)) = Some (importRecord st) ->
  ImportRecord.UploadID (importRecord st') = uploadID /\
  importOf uploadID (db (world st')) = Some (importRecord st') /\
  (r = Ok tt ->
   ImportRecord.Status (importRecord st') = ImportRecord.Status (importRecord st)).
Proof.
  induction files as [|file files IH]; intros st st' r Hrun Hup Hfound.
  - injection Hrun as <- _. auto.
  - cbn [extractEntries] in Hrun.
    assert (Hfail : forall msg,
      ImportRecord.UploadID (importRecord (failImport msg st)) = uploadID /\
      importOf uploadID (db (world (failImport msg st)))
      = Some (importRecord (failImport msg st))).
    { intros msg. split; [exact Hup|]. cbn [failImport world db importRecord].
      now apply importOf_SaveImport with (r := importRecord st). }
    destruct (_ <=? _)%Z.
    { injection Hrun as <- <-. destruct (Hfail
        ("exceeded max extracted files: "
         ++ fmt.decimal (config.MaxExtractedFiles (config.Upload cfg)))).
      repeat split; try assumption. discriminate. }
    destruct (sanitizePath _ _ _) as [p|e].
    2:{ now apply IH in Hrun. }
    destruct (_ <? _)%Z.
    { injection Hrun as <- <-. destruct (Hfail
        ("exceeded max extraction size: "
         ++ fmt.decimal (config.MaxExtractionSize (config.Upload cfg)))).
      repeat split; try assumption. discriminate. }
    unfold extractFile in Hrun.
    destruct (entryFault env (zip.Name file) p); cbn iota beta in Hrun;
      try (now apply IH in Hrun).
    apply IH in Hrun as (Hup' & Hfound' & Hstatus).
    + repeat split; assumption.
    + exact Hup.
    + cbn [world db importRecord].
      now apply importOf_SaveImport with (r := importRecord st).
Qed.

Lemma First_UploadID (r : ImportRecord.t) (rows : list ImportRecord.t) :
  database.First (fun r => (ImportRecord.UploadID r =? uploadID)%Z) rows
  = Some r ->
  ImportRecord.UploadID r = uploadID.
Proof.
  intros Hfind. apply find_some in Hfind as [_ Heq]. now apply Z.eqb_eq.
Qed.

End ImportLookup.

(** After a successful [ExtractUpload] the import record of the upload is
    in status [parsing] at 40 percent. *)
Lemma ExtractUpload_Ok_import cfg env uploadID w w' :
  ExtractUpload cfg env uploadID w = (w', Ok tt) ->
  exists r, importOf uploadID (db w') = Some r /\
            ImportRecord.Status r = "parsing" /\
            ImportRecord.ProgressPercent r = 40%Z.
Proof.
  unfold ExtractUpload.
  destruct (database.First _ (database.uploads (db w))); [|discriminate].
  destruct (database.First _ (database.imports (db w))) as [found|] eqn:Hfound;
    [|discriminate].
  cbv zeta. destruct (openReader env _) as [files|]; [|discriminate].
  destruct (negb _); [discriminate|].
  destruct (extractEntries _ _ _ _ _ files _) as [st [[]|e]] eqn:Hloop;
    [|discriminate].
  destruct (recordsFail env); [discriminate|]. intros [= <-].
  apply extractEntries_import in Hloop as (Hup & Himp & _).
  - exists (ImportRecord.withStatus (importRecord st) "parsing" 40).
    split; [|split; reflexivity]. cbn [db].
    apply importOf_SaveImport with (r := importRecord st);
      [exact Himp|reflexivity|exact Hup].
  - cbn. now apply First_UploadID in Hfound.
  - cbn [world db importRecord].
    apply importOf_SaveImport with (r := found);
      [exact Hfound|reflexivity|now apply First_UploadID in Hfound].
Qed.

(** X10: an archive from which no conversation file was extracted is never
    marked failed.  [ParseUpload] returns its error before it touches the
    import record, the goroutine logs it and stops, and the import stays
    in status [parsing] at 40 percent. *)
Theorem X10_import_without_conversation_file_stays_parsing cfg env uploadID
  w w1 :
  ExtractUpload cfg (extractEnv env) uploadID w = (w1, Ok tt) ->
  conversationFiles uploadID (db w1) = [] ->
  processUpload cfg env uploadID w = Some (w1, Some Parsing) /\
  exists r, importOf uploadID (db w1) = Some r /\
            ImportRecord.Status r = "parsing" /\
            ImportRecord.ProgressPercent r = 40%Z.
Proof.
  intros Hextract Hnone. split; [|now apply ExtractUpload_Ok_import in Hextract].
  unfold processUpload. rewrite Hextract. unfold ParseUpload.
  destruct (database.First _ (database.uploads (db w1))); [|reflexivity].
  cbv zeta. now rewrite Hnone.
Qed.


Lemma X10_import_without_conversation_file_stays_parsing_witness :
  exists w1 r,
    processUpload demoCfg demoPipelineEnv 1 demoWorld
      = Some (w1, Some Parsing) /\
    map Extraction.FileType (database.extractions (db w1)) = ["other"] /\
    importOf 1 (db w1) = Some r /\
    ImportRecord.Status r = "parsing" /\
    ImportRecord.ProgressPercent r = 40%Z.
Proof.
  pose (w1 := fst (ExtractUpload demoCfg capitalArchiveEnv 1 demoWorld)).
  assert (Hrun : ExtractUpload demoCfg (extractEnv demoPipelineEnv) 1 demoWorld
                 = (w1, Ok tt)) by (vm_compute; reflexivity).
  assert (Hnone : conversationFiles 1 (db w1) = [])
    by (vm_compute; reflexivity).
  destruct (X10_import_without_conversation_file_stays_parsing demoCfg
              demoPipelineEnv 1 demoWorld w1 Hrun Hnone)
    as (Hpipe & r & Himp & Hstatus & Hprogress).
  exists w1, r. split; [exact Hpipe|].
  split; [vm_compute; reflexivity|]. now repeat split.
Defined.

Section FailingFiles.

Variables (cfg : config.Config) (env : UploadParseEnv) (uploadID : Z).

(** The file cannot be read, or its content is not a JSON export. *)
Local Abbreviation unusable d e :=
  (match d !! Extraction.FilePath e with
   | None => True
   | Some data => unmarshal env data = None
   end).


End FailingFiles.



(** * Date threads: what the validation never finds, and re-runs *)

Section ThreadChecks.

Variables (conversationID : Z) (d : database.DB).

Local Abbreviation byDate := (groupByDate (messagesOf conversationID d)).



End ThreadChecks.




Section ThreadCounts.

Local Open Scope Z_scope.








End ThreadCounts.



(** * Threads for a whole upload *)

Section ThreadsOnly.

Lemma CreateInBatches_sameButThreads fails slices : forall k d d' ok,
  database.CreateInBatches database.CreateThreads fails k slices d = (d', ok) ->
  sameButThreads d d'.
Proof.
  induction slices as [|slice slices IH]; intros k d d' ok Hrun;
    cbn [database.CreateInBatches] in Hrun.
  - injection Hrun as <- _. now repeat split.
  - destruct (fails k).
    + injection Hrun as <- _. now repeat split.
    + apply IH in Hrun. exact Hrun.
Qed.

(** [createThreadsForConversation] writes to the thread table only. *)
Lemma createThreads_sameButThreads order fails conversationID d d' r :
  createThreadsForConversation order fails conversationID d = (d', r) ->
  sameButThreads d d'.
Proof.
  unfold createThreadsForConversation.
  destruct (sortSlice byTimestamp _).
  { intros [= <- _]. now repeat split. }
  destruct (threadsForDates _ _ _ _ _).
  2:{ intros [= <- _]. now repeat split. }
  destruct (database.CreateInBatches _ fails 0 _ d) as [d1 [|]] eqn:Hsave;
    intros [= <- _]; now apply CreateInBatches_sameButThreads in Hsave.
Qed.





End ThreadsOnly.

Section UploadThreads.

Variables (env : ThreadEnv) (uploadID : Z) (total : Z).


End UploadThreads.



Section Reruns.

Variables (env : ThreadEnv) (total : Z).


(** The loop changes no table but the thread table (and the import
    records), to which it appends. *)
Lemma threadsForConversations_tables conversations :
  forall i st st',
  threadsForConversations env total i conversations st = st' ->
  database.messages (db (snd st')) = database.messages (db (snd st)) /\
  database.conversations (db (snd st'))
  = database.conversations (db (snd st)) /\
  database.uploads (db (snd st')) = database.uploads (db (snd st)) /\
  exists extra,
    database.threads (db (snd st'))
    = (database.threads (db (snd st)) ++ extra)%list.
Proof.
  induction conversations as [|conv conversations IH]; intros i st st' Hrun.
  - subst st'. repeat split. exists []. now rewrite app_nil_r.
  - destruct st as [[n r] w]. cbn [threadsForConversations] in Hrun.
    destruct (createThreadsForConversation _ _ _ (db w)) as [d res] eqn:Hone.
    pose proof (createThreads_sameButThreads _ _ _ _ _ _ Hone)
      as (Hu & _ & _ & Hc & Hm).
    pose proof (createThreads_spec _ _ _ _ _ _ Hone) as (added & Ht & _).
    destruct res as [count|e]; apply IH in Hrun
      as (Hm' & Hc' & Hu' & extra & Ht'); cbn [snd db warn] in *;
      cbn [database.SaveImport database.messages database.conversations
           database.uploads database.threads] in *;
      (split; [congruence|]); (split; [congruence|]); (split; [congruence|]);
      exists (added ++ extra)%list; rewrite Ht', Ht; now rewrite <- app_assoc.
Qed.



End Reruns.



(** * What the pipeline never touches *)

Section UploadsTable.

Lemma extractEntries_uploads cfg env uploadID extractDir entries files :
  forall st st' r,
  extractEntries cfg env uploadID extractDir entries files st = (st', r) ->
  database.uploads (db (world st')) = database.uploads (db (world st)).
Proof.
  induction files as [|file files IH]; intros st st' r Hrun.
  - simpl in Hrun. now injection Hrun as <- _.
  - cbn [extractEntries] in Hrun.
    destruct (_ <=? _)%Z. { now injection Hrun as <- _. }
    destruct (sanitizePath (getwd env) (zip.Name file) extractDir) as [p|e].
    2:{ now rewrite (IH _ _ _ Hrun). }
    destruct (_ <? _)%Z. { now injection Hrun as <- _. }
    destruct (extractFile _ file p (disk (world st))) as [d [[]|e]];
      now rewrite (IH _ _ _ Hrun).
Qed.

Lemma ExtractUpload_uploads cfg env uploadID w w' r :
  ExtractUpload cfg env uploadID w = (w', r) ->
  database.uploads (db w') = database.uploads (db w).
Proof.
  unfold ExtractUpload.
  destruct (database.First _ (database.uploads (db w)));
    [|now intros [= <- _]].
  destruct (database.First _ (database.imports (db w)));
    [|now intros [= <- _]].
  cbv zeta. destruct (openReader env _); [|now intros [= <- _]].
  destruct (negb _); [now intros [= <- _]|].
  destruct (extractEntries _ _ _ _ _ _ _) as [st r0] eqn:Hloop.
  apply extractEntries_uploads in Hloop. cbn [world db] in Hloop.
  destruct r0 as [[]|e]; [destruct (recordsFail env)|];
    intros [= <- _]; exact Hloop.
Qed.

Lemma CreateInBatches_messages_uploads fails slices : forall k d d' ok,
  database.CreateInBatches database.CreateMessages fails k slices d = (d', ok) ->
  database.uploads d' = database.uploads d.
Proof.
  induction slices as [|slice slices IH]; intros k d d' ok Hrun;
    cbn [database.CreateInBatches] in Hrun.
  - now injection Hrun as <- _.
  - destruct (fails k); [now injection Hrun as <- _|].
    now rewrite (IH _ _ _ _ Hrun).
Qed.

Lemma processConversation_uploads cfg env conv uploadID path w w' r :
  processConversation cfg env conv uploadID path w = Some (w', r) ->
  database.uploads (db w') = database.uploads (db w).
Proof.
  unfold processConversation.
  destruct (database.First _ (database.conversations (db w)));
    [now intros [= <- _]|].
  cbv zeta.
  destruct (database.CreateConversation _ (db w)) as [c db1] eqn:Hcreate.
  assert (Hdb1 : database.uploads db1 = database.uploads (db w))
    by (injection Hcreate as _ <-; reflexivity).
  destruct (processMessages _ _ _ _ _) as [messages|]; [|discriminate].
  destruct (database.CreateInBatches _ _ 0 _ db1) as [db2 [|]] eqn:Hsave;
    apply CreateInBatches_messages_uploads in Hsave.
  - destruct (extractUserMessagesByDate _ _ _ _ _) as [disk2 written].
    intros [= <- _]. cbn [db]. congruence.
  - intros [= <- _]. cbn [db]. congruence.
Qed.

Lemma parseConversations_uploads cfg uploadID path export :
  forall counts w w' counts',
  parseConversations cfg uploadID path export counts w = Some (w', counts') ->
  database.uploads (db w') = database.uploads (db w).
Proof.
  induction export as [|[conv env] export IH]; intros counts w w' counts' Hrun.
  - now injection Hrun as <- _.
  - cbn [parseConversations] in Hrun.
    destruct (processConversation cfg env conv uploadID path w)
      as [[w1 [[c n]|e]]|] eqn:Hone; [| |discriminate];
      apply processConversation_uploads in Hone.
    + destruct counts as [a b]. apply IH in Hrun. cbn [db] in Hrun.
      cbn [database.SaveConversation database.uploads] in Hrun. congruence.
    + apply IH in Hrun. cbn [warn db] in Hrun. congruence.
Qed.

Lemma parseFiles_uploads cfg env uploadID total extractions :
  forall i st st',
  parseFiles cfg env uploadID total i extractions st = Some st' ->
  database.uploads (db (parsingWorld st'))
  = database.uploads (db (parsingWorld st)).
Proof.
  induction extractions as [|e extractions IH]; intros i st st' Hrun.
  - now injection Hrun as <-.
  - cbn [parseFiles] in Hrun.
    assert (Hfile : forall w r,
      parseConversationFile cfg env (Extraction.FilePath e) uploadID
        (parsingWorld st) = Some (w, r) ->
      database.uploads (db w) = database.uploads (db (parsingWorld st))).
    { unfold parseConversationFile. intros w r.
      destruct (disk (parsingWorld st) !! _); [|now intros [= <- _]].
      destruct (unmarshal env _); [|now intros [= <- _]].
      destruct (parseConversations _ _ _ _ _ _) as [[w1 counts]|] eqn:Hall;
        [|discriminate].
      intros [= <- _]. now apply parseConversations_uploads in Hall. }
    destruct (parseConversationFile _ _ _ _ _) as [[w [[c m]|msg]]|];
      [| |discriminate]; specialize (Hfile _ _ eq_refl);
      apply IH in Hrun; cbn [parsingWorld db warn] in Hrun;
      cbn [database.SaveImport SaveExtraction database.uploads] in Hrun;
      congruence.
Qed.

Lemma ParseUpload_uploads cfg env uploadID w w' r :
  ParseUpload cfg env uploadID w = Some (w', r) ->
  database.uploads (db w') = database.uploads (db w).
Proof.
  unfold ParseUpload.
  destruct (database.First _ (database.uploads (db w)));
    [|now intros [= <- _]].
  cbv zeta. destruct (conversationFiles uploadID (db w)) as [|e files];
    [now intros [= <- _]|].
  destruct (database.First _ (database.imports (db w)));
    [|now intros [= <- _]].
  destruct (parseFiles _ _ _ _ _ _ _) as [st|] eqn:Hloop; [|discriminate].
  apply parseFiles_uploads in Hloop. cbn [parsingWorld db] in Hloop.
  intros [= <- _]. exact Hloop.
Qed.

Lemma CreateThreadsForUpload_uploads env uploadID w w' r :
  CreateThreadsForUpload env uploadID w = (w', r) ->
  database.uploads (db w') = database.uploads (db w).
Proof.
  unfold CreateThreadsForUpload.
  destruct (database.First _ (database.uploads (db w)));
    [|now intros [= <- _]].
  destruct (database.First _ (database.imports (db w)));
    [|now intros [= <- _]].
  cbv zeta.
  destruct (threadsForConversations env _ 0 _ _) as [[n r1] w1] eqn:Hloop.
  apply threadsForConversations_tables in Hloop as (_ & _ & Hu & _).
  intros [= <- _]. exact Hu.
Qed.

End UploadsTable.

(** X16: the background pipeline (extraction, parsing, thread creation)
    never writes to the uploads table, however it ends: the row of the
    upload, its status included, is after the pipeline what it was
    before. *)
Theorem X16_pipeline_leaves_uploads_untouched cfg env uploadID w w' stage :
  processUpload cfg env uploadID w = Some (w', stage) ->
  database.uploads (db w') = database.uploads (db w).
Proof.
  unfold processUpload.
  destruct (ExtractUpload cfg (extractEnv env) uploadID w) as [w1 r1]
    eqn:Hextract.
  apply ExtractUpload_uploads in Hextract.
  destruct r1 as [[]|e]; [|intros [= <- _]; exact Hextract].
  destruct (ParseUpload cfg (uploadParseEnv env) uploadID w1)
    as [[w2 r2]|] eqn:Hparse; [|discriminate].
  apply ParseUpload_uploads in Hparse.
  destruct r2 as [[]|e]; [|intros [= <- _]; congruence].
  destruct (CreateThreadsForUpload (threadEnv env) uploadID w2) as [w3 r3]
    eqn:Hthreads.
  apply CreateThreadsForUpload_uploads in Hthreads.
  destruct r3 as [[]|e]; intros [= <- _]; congruence.
Qed.

Lemma X16_pipeline_leaves_uploads_untouched_witness :
  exists w',
    processUpload demoCfg demoPipelineEnv 1 demoWorld
      = Some (w', Some Parsing) /\
    map Upload.Status (database.uploads (db w')) = ["pending"].
Proof.
  pose (w' := fst (ExtractUpload demoCfg capitalArchiveEnv 1 demoWorld)).
  assert (Hrun : processUpload demoCfg demoPipelineEnv 1 demoWorld
                 = Some (w', Some Parsing)) by (vm_compute; reflexivity).
  exists w'. split; [exact Hrun|].
  now rewrite (X16_pipeline_leaves_uploads_untouched _ _ _ _ _ _ Hrun).
Defined.

(** * The upload service and its handler *)

Lemma nextID_above (ids : list Z) x :
  x ∈ ids -> (x < database.nextID ids)%Z.
Proof.
  unfold database.nextID. induction ids as [|y ids IH]; [inversion 1|].
  intros Hin. cbn [fold_right]. apply elem_of_cons in Hin as [->|Hin];
    [lia|]. specialize (IH Hin). lia.
Qed.

Lemma nextID_fresh (ids : list Z) : database.nextID ids ∉ ids.
Proof. intros Hin. apply nextID_above in Hin. lia. Qed.

Section UploadOutcomes.

Variables (cfg : config.Config) (env : UploadEnv).

Lemma temp_is_not_stored (storedPath : string) :
  storedPath ++ ".tmp" <> storedPath.
Proof.
  intros Heq. apply (f_equal String.length) in Heq.
  rewrite append_length in Heq. cbn in Heq. lia.
Qed.

Lemma nothingNew_temp (tempPath content : string) (d : Disk) :
  nothingNew d (delete tempPath (<[tempPath := content]> d)).
Proof.
  intros path Hsome. destruct (decide (path = tempPath)) as [->|Hne].
  - rewrite lookup_delete_eq in Hsome. now destruct Hsome.
  - now rewrite lookup_delete_ne, lookup_insert_ne.
Qed.

(** The two ways [UploadFile] ends: with an error, the store as it was and
    no file new or changed; or without, the archive stored and its two
    rows created. *)
Lemma UploadFile_outcomes name data size w w' returned err :
  UploadFile cfg env name data size w = (w', returned, err) ->
  (exists e, err = Some e /\ db w' = db w /\ nothingNew (disk w) (disk w')) \/
  (err = None /\
   returned = Some (uploadRow cfg env name data size (db w)) /\
   size = Z.of_nat (String.length data) /\
   database.First (fun u => String.eqb (Upload.FileHash u) (sha256hex env data))
     (database.uploads (db w)) = None /\
   db w'
   = withUpload (uploadRow cfg env name data size (db w))
       (importRow env (Upload.ID (uploadRow cfg env name data size (db w)))
          (db w))
       (db w) /\
   disk w' !! storedPathOf cfg env = Some data /\
   disk w' !! (storedPathOf cfg env ++ ".tmp") = None /\
   forall path, path <> storedPathOf cfg env ->
                path <> storedPathOf cfg env ++ ".tmp" ->
                disk w' !! path = disk w !! path).
Proof.
  unfold UploadFile. fold (storedPathOf cfg env).
  set (storedPath := storedPathOf cfg env).
  pose proof (temp_is_not_stored storedPath) as Htemp.
  destruct (_ <? size)%Z.
  { intros [= <- _ <-]. left. eexists. split; [reflexivity|].
    split; [reflexivity|]. now intros path _. }
  destruct (createFails env).
  { intros [= <- _ <-]. left. eexists. split; [reflexivity|].
    split; [reflexivity|]. now intros path _. }
  destruct (copyFails env) as [n|].
  { intros [= <- _ <-]. left. eexists. split; [reflexivity|].
    split; [reflexivity|]. cbn [disk]. apply nothingNew_temp. }
  destruct (Z.eqb_spec (Z.of_nat (String.length data)) size) as [Hsize|];
    cbn [negb].
  2:{ intros [= <- _ <-]. left. eexists. split; [reflexivity|].
      split; [reflexivity|]. cbn [disk]. apply nothingNew_temp. }
  destruct (closeFails env).
  { intros [= <- _ <-]. left. eexists. split; [reflexivity|].
    split; [reflexivity|]. cbn [disk]. apply nothingNew_temp. }
  destruct (database.First _ (database.uploads (db w))) eqn:Hfresh.
  { intros [= <- _ <-]. left. eexists. split; [reflexivity|].
    split; [reflexivity|]. cbn [disk]. apply nothingNew_temp. }
  destruct (renameFails env).
  { intros [= <- _ <-]. left. eexists. split; [reflexivity|].
    split; [reflexivity|]. cbn [disk]. apply nothingNew_temp. }
  destruct (txFails env).
  - intros [= <- _ <-]. left. eexists. split; [reflexivity|].
    split; [reflexivity|]. cbn [disk]. intros path Hsome.
    destruct (decide (path = storedPath ++ ".tmp")) as [->|Hnt].
    { rewrite lookup_delete_eq in Hsome. now destruct Hsome. }
    rewrite lookup_delete_ne in Hsome |- * by congruence.
    destruct (decide (path = storedPath)) as [->|Hns].
    { rewrite lookup_delete_eq in Hsome. now destruct Hsome. }
    rewrite lookup_delete_ne, lookup_insert_ne, lookup_delete_ne,
      lookup_insert_ne by congruence.
    reflexivity.
  - intros [= <- <- <-]. right. cbn [db disk].
    split; [reflexivity|]. split; [reflexivity|]. split; [now symmetry|].
    split; [reflexivity|]. split; [reflexivity|].
    split; [now rewrite lookup_delete_ne, lookup_insert_eq by congruence|].
    split; [apply lookup_delete_eq|].
    intros path Hns Hnt.
    rewrite lookup_delete_ne, lookup_insert_ne, lookup_delete_ne,
      lookup_insert_ne by congruence.
    reflexivity.
Qed.

End UploadOutcomes.

(** X17: when [UploadFile] returns an error, whatever the cause (size,
    file system, duplicate, failed transaction), the store is as it was
    and no file is new or changed on disk: the temp file and, after a
    failed transaction, the stored archive are gone again. *)
Theorem X17_failed_upload_leaves_nothing cfg env name data size w w'
  returned e :
  UploadFile cfg env name data size w = (w', returned, Some e) ->
  db w' = db w /\ nothingNew (disk w) (disk w').
Proof.
  intros Hrun.
  apply UploadFile_outcomes in Hrun as [(e' & _ & Hdb & Hdisk)|[Hnone _]];
    [now split|discriminate].
Qed.

Lemma X17_failed_upload_leaves_nothing_witness :
  let env := mkUploadEnv "u3" demoDigest false None false false true
               (time.Unix 1705400000) in
  exists w',
    UploadFile demoCfg env "second.zip" "PK-other-bytes" 14 demoWorld
      = (w', None, Some "failed to create upload record") /\
    db w' = db demoWorld /\ nothingNew (disk demoWorld) (disk w').
Proof.
  intros env.
  pose (w' := fst (fst (UploadFile demoCfg env "second.zip" "PK-other-bytes"
                          14 demoWorld))).
  assert (Hrun : UploadFile demoCfg env "second.zip" "PK-other-bytes" 14
                   demoWorld
                 = (w', None, Some "failed to create upload record"))
    by (vm_compute; reflexivity).
  exists w'. split; [exact Hrun|].
  exact (X17_failed_upload_leaves_nothing _ _ _ _ _ _ _ _ _ Hrun).
Defined.

(** X18: when [UploadFile] returns no error, the archive is on disk under
    [UploadsDir/<uuid>.zip] with exactly the bytes received, the temp
    file is gone, and the store has gained one upload row (status
    [pending], the digest and size of those bytes, a fresh id) and one
    pending import row for it. *)
Theorem X18_successful_upload_is_stored cfg env name data size w w'
  returned :
  UploadFile cfg env name data size w = (w', returned, None) ->
  exists upload,
    returned = Some upload /\
    database.uploads (db w') = (database.uploads (db w) ++ [upload])%list /\
    Upload.FileHash upload = sha256hex env data /\
    Upload.FileSize upload = Z.of_nat (String.length data) /\
    Upload.Status upload = "pending" /\
    (Upload.ID upload ∉ map Upload.ID (database.uploads (db w))) /\
    disk w' !! Upload.StoredPath upload = Some data /\
    disk w' !! (Upload.StoredPath upload ++ ".tmp") = None /\
    exists importRec,
      database.imports (db w')
      = (database.imports (db w) ++ [importRec])%list /\
      ImportRecord.UploadID importRec = Upload.ID upload /\
      ImportRecord.Status importRec = "pending".
Proof.
  intros Hrun.
  apply UploadFile_outcomes in Hrun
    as [(e & He & _)|(_ & -> & -> & _ & -> & Hfile & Htemp & _)];
    [discriminate|].
  eexists. split; [reflexivity|]. cbn.
  repeat (split; [reflexivity || assumption|]). split.
  - apply nextID_fresh.
  - split; [exact Hfile|]. split; [exact Htemp|].
    eexists. repeat split.
Qed.

Lemma X18_successful_upload_is_stored_witness :
  exists w' upload,
    UploadFile demoCfg demoUploadEnv "second.zip" "PK-other-bytes" 14
      demoWorld = (w', Some upload, None) /\
    Upload.ID upload = 2%Z /\
    disk w' !! "/data/uploads/u2.zip" = Some "PK-other-bytes".
Proof.
  destruct (UploadFile demoCfg demoUploadEnv "second.zip" "PK-other-bytes" 14
              demoWorld) as [[w' returned] err] eqn:Hrun.
  assert (Herr : err = None) by (vm_compute in Hrun; congruence).
  subst err.
  destruct (X18_successful_upload_is_stored _ _ _ _ _ _ _ _ Hrun)
    as (upload & -> & _ & _ & _ & _ & _ & Hfile & _).
  exists w', upload. split; [reflexivity|].
  vm_compute in Hrun. injection Hrun as <- <-. split; reflexivity.
Defined.

Section UploadInvariants.

Lemma First_none_hash (uploads : list Upload.t) hash :
  database.First (fun u => String.eqb (Upload.FileHash u) hash) uploads = None ->
  hash ∉ map Upload.FileHash uploads.
Proof.
  intros Hnone Hin. apply list_elem_of_fmap in Hin as (u & -> & Hu).
  apply list_elem_of_In in Hu.
  pose proof (find_none _ _ Hnone u Hu) as Htest. cbn in Htest.
  now rewrite String.eqb_refl in Htest.
Qed.

Lemma NoDup_snoc {A} (l : list A) x : NoDup l -> x ∉ l -> NoDup (l ++ [x]).
Proof.
  intros Hl Hx. apply NoDup_app. split; [exact Hl|].
  split; [|apply NoDup_singleton].
  intros y Hy Hyx. apply list_elem_of_singleton in Hyx. now subst.
Qed.

End UploadInvariants.

(** X19: [UploadFile] keeps the stored uploads apart: if no two uploads
    share a content digest or an id before the call, none do after it,
    however the call ends. *)
Theorem X19_uploads_stay_distinct cfg env name data size w w' returned err :
  NoDup (map Upload.FileHash (database.uploads (db w))) ->
  NoDup (map Upload.ID (database.uploads (db w))) ->
  UploadFile cfg env name data size w = (w', returned, err) ->
  NoDup (map Upload.FileHash (database.uploads (db w'))) /\
  NoDup (map Upload.ID (database.uploads (db w'))).
Proof.
  intros Hhash Hid Hrun.
  apply UploadFile_outcomes in Hrun
    as [(e & _ & -> & _)|(_ & _ & _ & Hfresh & -> & _)]; [now split|].
  cbn [withUpload database.uploads]. rewrite !map_app. cbn [map].
  split; apply NoDup_snoc; try assumption.
  - now apply First_none_hash.
  - apply nextID_fresh.
Qed.

Lemma X19_uploads_stay_distinct_witness :
  let w' := fst (fst (UploadFile demoCfg demoUploadEnv "second.zip"
                        "PK-other-bytes" 14 demoWorld)) in
  map Upload.FileHash (database.uploads (db w')) = ["9f86d081"; "0000"] /\
  NoDup (map Upload.FileHash (database.uploads (db w'))) /\
  NoDup (map Upload.ID (database.uploads (db w'))).
Proof.
  intros w'. split; [vm_compute; reflexivity|].
  apply (X19_uploads_stay_distinct demoCfg demoUploadEnv "second.zip"
           "PK-other-bytes" 14 demoWorld w'
           (snd (fst (UploadFile demoCfg demoUploadEnv "second.zip"
                        "PK-other-bytes" 14 demoWorld)))
           (snd (UploadFile demoCfg demoUploadEnv "second.zip"
                   "PK-other-bytes" 14 demoWorld))).
  - cbn. apply NoDup_singleton.
  - cbn. apply NoDup_singleton.
  - unfold w'. now rewrite <- !surjective_pairing.
Defined.

Section HandlerAnswers.

Variables (cfg : config.Config) (env : UploadEnv).


End HandlerAnswers.



Section ZipNames.

Lemma drop_app (a b : string) : strings.drop (String.length a) (a ++ b) = b.
Proof. induction a as [|c a IH]; [now destruct b|exact IH]. Qed.

Lemma takeBytes_drop n : forall s : string,
  takeBytes n s ++ strings.drop n s = s.
Proof.
  induction n as [|n IH]; intros [|c s]; try reflexivity.
  cbn [takeBytes strings.drop].
  change (String c (takeBytes n s) ++ strings.drop n s)
    with (String c (takeBytes n s ++ strings.drop n s)).
  now rewrite IH.
Qed.

Lemma takeBytes_length n : forall s : string,
  String.length (takeBytes n s) = Nat.min n (String.length s).
Proof.
  induction n as [|n IH]; intros [|c s]; try reflexivity.
  cbn [takeBytes String.length]. now rewrite IH.
Qed.

End ZipNames.

(** X21: [isValidZipFile] accepts exactly the names that consist of a
    non-empty stem followed by [.zip] in lower case; nothing about the
    content is looked at. *)
Theorem X21_zip_names (filename : string) :
  api.isValidZipFile filename = true <->
  exists stem, stem <> "" /\ filename = stem ++ ".zip".
Proof.
  unfold api.isValidZipFile. split.
  - intros H. apply andb_true_iff in H as [Hlen Hsuffix].
    apply Nat.ltb_lt in Hlen. apply String.eqb_eq in Hsuffix.
    exists (takeBytes (String.length filename - 4) filename). split.
    + intros Hempty. apply (f_equal String.length) in Hempty.
      rewrite takeBytes_length in Hempty. cbn in Hempty. lia.
    + rewrite <- Hsuffix. symmetry. apply takeBytes_drop.
  - intros (stem & Hstem & ->). rewrite append_length.
    cbn [String.length]. apply andb_true_iff. split.
    + apply Nat.ltb_lt. destruct stem; [contradiction|cbn; lia].
    + replace (String.length stem + 4 - 4)%nat with (String.length stem)
        by lia.
      now rewrite drop_app.
Qed.

Section GetUpload.


End GetUpload.

